(** * Treasury ledger ingestion: a shallow embedding of [listenNewBlocks.py]

    The listener polls a chain node for transfer logs, classifies them
    against the treasury address set, enriches the accepted ones with the
    transaction selector and the block timestamp, and upserts one ledger
    document per log.  This file embeds that program as state-passing
    functions over an explicit world (node, document store, clock) and
    proves the properties the specification states about it. *)

From Stdlib Require Import ZArith List String Ascii Bool Lia Permutation.
From Stdlib.Strings Require Import Byte.
From Stdlib Require Import DecimalString DecimalZ.
From stdpp Require Import base list strings gmap.

Local Open Scope string_scope.
Local Open Scope Z_scope.

(* ===================================================================== *)
(** * Python values the program handles *)
(* ===================================================================== *)

(** Exceptions the embedded code can raise.  All of them derive from
    [Exception], which is what every handler of the source catches. *)
Inductive exn : Type :=
| IndexError
| ValueError
| RuntimeError (msg : string)
| RpcError
| TransactionNotFound
| BlockNotFound
| BulkWriteError
| StartupError (msg : string).

(** The outcome of a Python expression: a value or a raised exception. *)
Inductive Res (A : Type) : Type :=
| Ok (a : A)
| Raise (e : exn).
Arguments Ok {A} a.
Arguments Raise {A} e.

Definition res_bind {A B} (r : Res A) (k : A -> Res B) : Res B :=
  match r with
  | Ok a => k a
  | Raise e => Raise e
  end.

Notation "x <-? r ; k" := (res_bind r (fun x => k))
  (at level 100, r at next level, right associativity).

Definition is_ok {A} (r : Res A) : bool :=
  match r with Ok _ => true | Raise _ => false end.

(* --------------------------------------------------------------------- *)
(** ** Strings: slices, prefixes *)
(* --------------------------------------------------------------------- *)

Definition chars (s : string) : list ascii := list_ascii_of_string s.
Definition text (l : list ascii) : string := string_of_list_ascii l.

(** [s[:n]] *)
Definition str_take (n : nat) (s : string) : string := text (take n (chars s)).

(** [s[-n:]] for [n > 0]: the last [n] characters, the whole string when it
    is shorter. *)
Definition str_last (n : nat) (s : string) : string :=
  text (drop (String.length s - n) (chars s)).

(** [s.startswith(p)] *)
Definition startswith (p s : string) : bool := String.prefix p s.

(* --------------------------------------------------------------------- *)
(** ** Bytes and their hexadecimal text *)
(* --------------------------------------------------------------------- *)

Definition hex_digit (n : N) : ascii :=
  match n with
  | 0 => "0" | 1 => "1" | 2 => "2" | 3 => "3" | 4 => "4" | 5 => "5"
  | 6 => "6" | 7 => "7" | 8 => "8" | 9 => "9" | 10 => "a" | 11 => "b"
  | 12 => "c" | 13 => "d" | 14 => "e" | _ => "f"
  end%N%char.

Definition byte_hex (b : byte) : list ascii :=
  [hex_digit (Byte.to_N b / 16); hex_digit (Byte.to_N b mod 16)].

(** [bytes.hex()]: two lower-case digits per byte, no prefix. *)
Definition bytes_hex (bs : list byte) : string :=
  text (concat (map byte_hex bs)).

(** [HexBytes.hex()] as the source relies on it (it compares the result
    with the [0x]-prefixed topic constants): the digits after [0x]. *)
Definition HexBytes_hex (bs : list byte) : string := "0x" +:+ bytes_hex bs.

(** Value of a hexadecimal digit, either case. *)
Definition hex_val (c : ascii) : option Z :=
  let n := Z.of_N (N_of_ascii c) in
  if (48 <=? n) && (n <=? 57) then Some (n - 48)
  else if (97 <=? n) && (n <=? 102) then Some (n - 87)
  else if (65 <=? n) && (n <=? 70) then Some (n - 55)
  else None.

Definition is_hex_char (c : ascii) : bool :=
  match hex_val c with Some _ => true | None => false end.

(** The values a transaction's [input] field can hold when it reaches
    [safe_selector]. *)
Inductive pyval : Type :=
| PyNone
| PyStr (s : string)
| PyHexBytes (bs : list byte)
| PyBytes (bs : list byte)
| PyInt (n : Z).

(* ===================================================================== *)
(** * [safe_selector] *)
(* ===================================================================== *)

(** [hasattr(input_data, "hex")] holds for [HexBytes] and [bytes] (not for
    [str], [int] or [None]); the value is then replaced by its hex text. *)
Definition hex_if_has_attr (input_data : pyval) : pyval :=
  match input_data with
  | PyHexBytes bs => PyStr (HexBytes_hex bs)
  | PyBytes bs => PyStr (bytes_hex bs)
  | v => v
  end.

Definition safe_selector (input_data : pyval) : string :=
  match hex_if_has_attr input_data with
  | PyStr s =>
      if String.eqb s "" then "0x"
      else if startswith "0x" s && (10 <=? String.length s)%nat
           then str_take 10 s
           else "0x"
  | _ => "0x"
  end.

(** A selector as the specification describes it: [0x] and exactly eight
    hexadecimal characters. *)
Definition is_selector (s : string) : bool :=
  match chars s with
  | "0"%char :: "x"%char :: ds => (length ds =? 8)%nat && forallb is_hex_char ds
  | _ => false
  end.

(* ===================================================================== *)
(** * Integers and their text *)
(* ===================================================================== *)

Fixpoint hex_digits_value (acc : Z) (cs : list ascii) : option Z :=
  match cs with
  | [] => Some acc
  | c :: cs' =>
      match hex_val c with
      | Some d => hex_digits_value (acc * 16 + d) cs'
      | None => None
      end
  end.

(** [int(s, 16)] on the texts the program passes to it, which are always
    the hex text of a byte string: an optional [0x] prefix and at least one
    digit; anything else is a [ValueError].  (The sign, blanks and digit
    separators that [int] also reads never occur in such a text.) *)
Definition int_base16 (s : string) : Res Z :=
  let digits :=
    match chars s with
    | "0"%char :: "x"%char :: ds => ds
    | "0"%char :: "X"%char :: ds => ds
    | cs => cs
    end in
  match digits with
  | [] => Raise ValueError
  | _ =>
      match hex_digits_value 0 digits with
      | Some n => Ok n
      | None => Raise ValueError
      end
  end.

(** [str(n)] of an integer: its decimal digits, with a leading minus sign
    when negative. *)
Definition str (n : Z) : string := NilZero.string_of_int (Z.to_int n).

(** The parse that undoes [str], used to read a rendered amount back. *)
Definition int_of_str (s : string) : option Z :=
  option_map Z.of_int (NilZero.int_of_string s).

(** Big-endian unsigned value of a byte string. *)
Definition be_value (bs : list byte) : Z :=
  fold_left (fun acc b => acc * 256 + Z.of_N (Byte.to_N b)) bs 0.

(* ===================================================================== *)
(** * Configuration constants *)
(* ===================================================================== *)

Definition BATCH_SIZE : Z := 100.
Definition CONFIRMATIONS : Z := 1.
Definition POLL_INTERVAL : Z := 20.
Definition RETRY_DELAY : Z := 10.
Definition CYCLE_DELAY : Z := 60.

Definition TRANSFER_TOPIC : string :=
  "0xddf252ad1be2c89b69c2b068fc378daa952ba7f163c4a11628f55a4df523b3ef".
Definition NATIVE_RON_TRANSFER_TOPIC : string :=
  "0x3d0ce9bfc3ed7d6862dbb28b2dea94561fe714a1b4d019aa8af39730d1ad7c3d".
Definition ZERO_ADDRESS : string :=
  "0x0000000000000000000000000000000000000000".

(* ===================================================================== *)
(** * Chain data and ledger documents *)
(* ===================================================================== *)

(** A log entry as the node returns it. *)
Record Log : Type := {
  log_transactionHash : list byte;
  log_logIndex : Z;
  log_blockNumber : Z;
  log_address : string;
  log_topics : list (list byte);
  log_data : list byte
}.

(** A transaction; [tx_input = None] when the key [input] is absent, in
    which case [.get("input", "")] yields the empty string. *)
Record Tx : Type := { tx_input : option pyval }.

Record Block : Type := { block_timestamp : Z }.

Definition tx_get_input (tx : Tx) : pyval :=
  match tx_input tx with
  | Some v => v
  | None => PyStr ""
  end.

(** The document written to the ledger, one field per key of the dict the
    source builds. *)
Record Doc : Type := {
  _id : string;
  txHash : string;
  blockNumber : Z;
  timestamp : Z;
  logIndex : Z;
  eventTopic : string;
  amountRaw : string;
  amount : string;
  isOutgoing : bool;
  method : string;
  tokenAddress : string;
  fromAddress : string;
  toAddress : string
}.

Inductive item_kind : Type := erc20_log | native_ron_log.

(** A value of [docs_to_upsert]: [{"type": ..., "data": log}]. *)
Record Item : Type := { item_type : item_kind; item_data : Log }.

(** [l[i]] *)
Definition index {A} (l : list A) (i : nat) : Res A :=
  match l !! i with
  | Some x => Ok x
  | None => Raise IndexError
  end.

(* --------------------------------------------------------------------- *)
(** ** Python dicts: insertion-ordered, keyed by string *)
(* --------------------------------------------------------------------- *)

Definition dict (V : Type) : Type := list (string * V).

(** [d[k] = v]: the value is replaced in place when the key is present,
    and the entry is appended otherwise. *)
Fixpoint dict_set {V} (k : string) (v : V) (d : dict V) : dict V :=
  match d with
  | [] => [(k, v)]
  | (k', v') :: d' =>
      if String.eqb k' k then (k, v) :: d' else (k', v') :: dict_set k v d'
  end.

Definition dict_has {V} (k : string) (d : dict V) : bool :=
  existsb (fun kv => String.eqb (fst kv) k) d.

(* ===================================================================== *)
(** * The world: node, document store, clock *)
(* ===================================================================== *)

(** What the program does to its surroundings, in order. *)
Inductive event : Type :=
| EvBlockNumber
| EvGetLogs (from_block to_block : Z)
| EvGetTransaction (tx_hash : string)
| EvGetBlock (bn : Z)
| EvBulkWrite (ids : list string) (ok : bool)
| EvIsConnected
| EvSleep (secs : Z).

(** The outcome the store has in stock for a bulk write: it succeeds, or
    it raises after having applied the operations whose position the mask
    marks (the write is unordered, so an error does not stop the others;
    an empty mask is a write that applied nothing). *)
Inductive write_fault : Type :=
| WriteOk
| WriteErr (applied : list bool).

Record World : Type := {
  node_heads : list Z;                 (* successive values of the head *)
  node_logs : Z -> Z -> list Log;      (* logs of a block range *)
  node_tx : string -> option Tx;
  node_block : Z -> option Block;
  rpc_faults : list bool;              (* [true]: the next node call raises *)
  write_faults : list write_fault;
  ledger : list Doc;                   (* the collection, in storage order *)
  mongo_uri : option string;           (* the MONGO_URI environment variable *)
  mongo_ping : bool;                   (* whether the store answers the ping *)
  trace : list event
}.

(** The process: its two variables that outlive a batch, and the world. *)
Record State : Type := {
  start_block : Z;
  block_ts_cache : gmap Z Z;
  world : World
}.

Definition set_world (w : World) (s : State) : State :=
  {| start_block := start_block s; block_ts_cache := block_ts_cache s;
     world := w |}.

Definition set_start_block (b : Z) (s : State) : State :=
  {| start_block := b; block_ts_cache := block_ts_cache s; world := world s |}.

Definition set_block_ts_cache (c : gmap Z Z) (s : State) : State :=
  {| start_block := start_block s; block_ts_cache := c; world := world s |}.

Definition record_event (ev : event) (w : World) : World :=
  {| node_heads := node_heads w; node_logs := node_logs w;
     node_tx := node_tx w; node_block := node_block w;
     rpc_faults := rpc_faults w; write_faults := write_faults w;
     ledger := ledger w; mongo_uri := mongo_uri w;
     mongo_ping := mongo_ping w; trace := trace w ++ [ev] |}.

Definition set_rpc_faults (fs : list bool) (w : World) : World :=
  {| node_heads := node_heads w; node_logs := node_logs w;
     node_tx := node_tx w; node_block := node_block w;
     rpc_faults := fs; write_faults := write_faults w;
     ledger := ledger w; mongo_uri := mongo_uri w;
     mongo_ping := mongo_ping w; trace := trace w |}.

Definition set_node_heads (hs : list Z) (w : World) : World :=
  {| node_heads := hs; node_logs := node_logs w;
     node_tx := node_tx w; node_block := node_block w;
     rpc_faults := rpc_faults w; write_faults := write_faults w;
     ledger := ledger w; mongo_uri := mongo_uri w;
     mongo_ping := mongo_ping w; trace := trace w |}.

Definition set_store (fs : list write_fault) (l : list Doc) (w : World) : World :=
  {| node_heads := node_heads w; node_logs := node_logs w;
     node_tx := node_tx w; node_block := node_block w;
     rpc_faults := rpc_faults w; write_faults := fs;
     ledger := l; mongo_uri := mongo_uri w;
     mongo_ping := mongo_ping w; trace := trace w |}.

(* --------------------------------------------------------------------- *)
(** ** Computations: state passing with exceptions *)
(* --------------------------------------------------------------------- *)

Definition M (A : Type) : Type := State -> Res A * State.

Definition ret {A} (a : A) : M A := fun s => (Ok a, s).

Definition raise {A} (e : exn) : M A := fun s => (Raise e, s).

Definition lift {A} (r : Res A) : M A := fun s => (r, s).

Definition bind {A B} (m : M A) (k : A -> M B) : M B :=
  fun s =>
    match m s with
    | (Ok a, s1) => k a s1
    | (Raise e, s1) => (Raise e, s1)
    end.

Notation "'let*' x := m 'in' k" := (bind m (fun x => k))
  (at level 10, x name, m at level 100, k at level 200).

(** [try: m except Exception as e: h e] *)
Definition try_except {A} (m : M A) (h : exn -> M A) : M A :=
  fun s =>
    match m s with
    | (Ok a, s1) => (Ok a, s1)
    | (Raise e, s1) => h e s1
    end.

(** [for x in xs: body x], over a list that the body cannot change. *)
Fixpoint for_each {A} (xs : list A) (body : A -> M unit) : M unit :=
  match xs with
  | [] => ret tt
  | x :: xs' => let* _ := body x in for_each xs' body
  end.

Definition sleep (secs : Z) : M unit :=
  fun s => (Ok tt, set_world (record_event (EvSleep secs) (world s)) s).

(* --------------------------------------------------------------------- *)
(** ** Node calls *)
(* --------------------------------------------------------------------- *)

(** One call to the node: it is recorded, and it raises when the next
    entry of the fault script says so; otherwise the node answers. *)
Definition rpc {A} (ev : event) (answer : World -> Res A * World) : M A :=
  fun s =>
    let w := record_event ev (world s) in
    match rpc_faults w with
    | true :: fs => (Raise RpcError, set_world (set_rpc_faults fs w) s)
    | false :: fs =>
        let '(r, w1) := answer (set_rpc_faults fs w) in (r, set_world w1 s)
    | [] => let '(r, w1) := answer w in (r, set_world w1 s)
    end.

(** [w3.eth.block_number]: the head moves on to the next scripted value,
    and stays at the last one. *)
Definition block_number : M Z :=
  rpc EvBlockNumber (fun w =>
    match node_heads w with
    | [] => (Ok 0, w)
    | [h] => (Ok h, w)
    | h :: hs => (Ok h, set_node_heads hs w)
    end).

(** [w3.eth.get_logs] for the two watched topics over a block range. *)
Definition get_logs (from_block to_block : Z) : M (list Log) :=
  rpc (EvGetLogs from_block to_block)
      (fun w => (Ok (node_logs w from_block to_block), w)).

Definition get_transaction (tx_hash : string) : M Tx :=
  rpc (EvGetTransaction tx_hash) (fun w =>
    match node_tx w tx_hash with
    | Some tx => (Ok tx, w)
    | None => (Raise TransactionNotFound, w)
    end).

Definition get_block (bn : Z) : M Block :=
  rpc (EvGetBlock bn) (fun w =>
    match node_block w bn with
    | Some b => (Ok b, w)
    | None => (Raise BlockNotFound, w)
    end).

(* --------------------------------------------------------------------- *)
(** ** [with_retries] *)
(* --------------------------------------------------------------------- *)

(** [range(a, b)] and [range(a, b, step)] for a positive step. *)
Definition py_range_step (a b step : Z) : list Z :=
  map (fun i => a + step * Z.of_nat i)
      (seq 0 (Z.to_nat ((b - a + step - 1) / step))).

Definition py_range (a b : Z) : list Z := py_range_step a b 1.

Section WithRetries.
Context {A : Type}.
Variable fn : M A.
Variables retries delay : Z.

(** The body of the [for attempt in ...] loop.  Falling off the end of
    the loop returns [None]. *)
Fixpoint with_retries_loop (attempts : list Z) : M (option A) :=
  match attempts with
  | [] => ret None
  | attempt :: rest =>
      fun s =>
        match fn s with
        | (Ok v, s1) => (Ok (Some v), s1)
        | (Raise e, s1) =>
            if attempt =? retries then (Raise e, s1)
            else (let* _ := sleep delay in with_retries_loop rest) s1
        end
  end.

Definition with_retries : M (option A) :=
  with_retries_loop (py_range 1 (retries + 1)).
End WithRetries.

(** Using the result of [with_retries]: a [None] has none of the members
    the callers go on to use. *)
Definition required {A} (o : option A) : M A :=
  match o with
  | Some a => ret a
  | None => raise (RuntimeError "NoneType")
  end.

(* --------------------------------------------------------------------- *)
(** ** The document store *)
(* --------------------------------------------------------------------- *)

(** [UpdateOne({"_id": id}, {"$set": doc}, upsert=True)] *)
Record Op : Type := { op_filter_id : string; op_set : Doc }.

(** One upsert: the stored document with that [_id] gets every field of
    [doc] (all thirteen fields are in the [$set]); when there is none,
    [doc] is inserted. *)
Fixpoint upsert (id : string) (doc : Doc) (l : list Doc) : list Doc :=
  match l with
  | [] => [doc]
  | d :: l' =>
      if String.eqb (_id d) id then doc :: l' else d :: upsert id doc l'
  end.

Definition apply_op (l : list Doc) (op : Op) : list Doc :=
  upsert (op_filter_id op) (op_set op) l.

Definition apply_ops (ops : list Op) (l : list Doc) : list Doc :=
  fold_left apply_op ops l.

(** The operations a failing write still applied. *)
Fixpoint masked (ops : list Op) (applied : list bool) : list Op :=
  match ops, applied with
  | op :: ops', true :: m => op :: masked ops' m
  | _ :: ops', false :: m => masked ops' m
  | _, _ => []
  end.

(** [collection.bulk_write(ops, ordered=False)] *)
Definition bulk_write (ops : list Op) : M unit :=
  fun s =>
    let w := world s in
    let ids := map op_filter_id ops in
    match write_faults w with
    | [] =>
        (Ok tt, set_world (record_event (EvBulkWrite ids true)
                    (set_store [] (apply_ops ops (ledger w)) w)) s)
    | WriteOk :: fs =>
        (Ok tt, set_world (record_event (EvBulkWrite ids true)
                    (set_store fs (apply_ops ops (ledger w)) w)) s)
    | WriteErr applied :: fs =>
        (Raise BulkWriteError,
         set_world (record_event (EvBulkWrite ids false)
           (set_store fs (apply_ops (masked ops applied) (ledger w)) w)) s)
    end.

(** [find_one(sort=[("blockNumber", -1)])]: a stored document whose
    [blockNumber] is the largest, [None] on an empty collection. *)
Fixpoint find_one_sort_desc (l : list Doc) : option Doc :=
  match l with
  | [] => None
  | d :: l' =>
      match find_one_sort_desc l' with
      | Some d' => if blockNumber d <? blockNumber d' then Some d' else Some d
      | None => Some d
      end
  end.

(* ===================================================================== *)
(** * The listener *)
(* ===================================================================== *)

(** [Web3.to_checksum_address] belongs to the web3 library: it returns the
    mixed-case form of an address, or raises on a text that is not one. *)
Class Web3Lib : Type := { to_checksum_address : string -> Res string }.

Section Listener.
Context `{Web3Lib}.

(** The list is built when the module loads; a raise there would keep
    the program from starting, and leaves the list empty here. *)
Definition TREASURY_ADDRESSES : list string :=
  match to_checksum_address "0x245db945c485b68fDc429e4F7085a1761Aa4d45d" with
  | Ok a => [a]
  | Raise _ => []
  end.

Definition TREASURY_SET : list string := TREASURY_ADDRESSES.

(** [a in TREASURY_SET] *)
Definition in_treasury (a : string) : bool := bool_decide (a ∈ TREASURY_SET).

(** [Web3.to_checksum_address("0x" + log["topics"][i].hex()[-40:])] *)
Definition topic_address (log : Log) (i : nat) : Res string :=
  t <-? index (log_topics log) i;
  to_checksum_address ("0x" +:+ str_last 40 (HexBytes_hex t)).

Definition doc_id_of (log : Log) : string :=
  HexBytes_hex (log_transactionHash log) +:+ "-" +:+ str (log_logIndex log).

(** The body of [for log in logs], on the map built so far. *)
Definition classify_step (docs : dict Item) (log : Log) : Res (dict Item) :=
  let doc_id := doc_id_of log in
  t0 <-? index (log_topics log) 0;
  let log_topic := HexBytes_hex t0 in
  if String.eqb log_topic TRANSFER_TOPIC then
    frm <-? topic_address log 1;
    to <-? topic_address log 2;
    if (in_treasury frm || in_treasury to)
       && negb (in_treasury frm && in_treasury to)
    then Ok (dict_set doc_id
               {| item_type := erc20_log; item_data := log |} docs)
    else Ok docs
  else if String.eqb log_topic NATIVE_RON_TRANSFER_TOPIC then
    log_emitter <-? to_checksum_address (log_address log);
    if in_treasury log_emitter
    then Ok (dict_set doc_id
               {| item_type := native_ron_log; item_data := log |} docs)
    else Ok docs
  else Ok docs.

Fixpoint classify_logs (docs : dict Item) (logs : list Log) : Res (dict Item) :=
  match logs with
  | [] => Ok docs
  | log :: logs' =>
      docs' <-? classify_step docs log;
      classify_logs docs' logs'
  end.

(** The timestamp of a block, through [block_ts_cache]. *)
Definition cached_timestamp (bn : Z) : M Z :=
  fun s =>
    match block_ts_cache s !! bn with
    | Some ts => (Ok ts, s)
    | None =>
        (let* o := with_retries (get_block bn) 3 5 in
         let* block := required o in
         fun s1 =>
           (Ok (block_timestamp block),
            set_block_ts_cache
              (<[bn := block_timestamp block]> (block_ts_cache s1)) s1)) s
    end.

(** The direction, the magnitude and the three addresses of a record:
    [(is_out, amt_raw, tokenAddress, fromAddress, toAddress)]. *)
Definition transfer_fields (item : Item)
  : Res (bool * Z * string * string * string) :=
  let log := item_data item in
  match item_type item with
  | erc20_log =>
      frm <-? topic_address log 1;
      to <-? topic_address log 2;
      let is_out := in_treasury frm in
      amt_raw <-? int_base16 (HexBytes_hex (log_data log));
      token <-? to_checksum_address (log_address log);
      Ok (is_out, amt_raw, token, frm, to)
  | native_ron_log =>
      to_addr <-? to_checksum_address (log_address log);
      let is_out := false in
      amt_raw <-? int_base16 (HexBytes_hex (log_data log));
      from_addr <-? topic_address log 1;
      Ok (is_out, amt_raw, ZERO_ADDRESS, from_addr, to_addr)
  end.

(** The document of an item, from the transaction and the timestamp
    that were looked up for it. *)
Definition build_doc (item : Item) (tx_hash : string) (tx_details : Tx)
    (block_timestamp : Z) : Res Doc :=
  let log := item_data item in
  fields <-? transfer_fields item;
  let '(is_out, amt_raw, token, frm, to) := fields in
  t0 <-? index (log_topics log) 0;
  Ok {| _id := str (log_blockNumber log) +:+ "-" +:+ str (log_logIndex log);
        txHash := tx_hash;
        blockNumber := log_blockNumber log;
        timestamp := block_timestamp;
        logIndex := log_logIndex log;
        eventTopic := HexBytes_hex t0;
        amountRaw := str amt_raw;
        amount := str (if is_out then - amt_raw else amt_raw);
        isOutgoing := is_out;
        method := safe_selector (tx_get_input tx_details);
        tokenAddress := token;
        fromAddress := frm;
        toAddress := to |}.

(** The [try] block of the enrichment loop: the upsert operation of one
    item.  (Both item kinds build a document, so [if doc:] holds.) *)
Definition enrich (item : Item) : M Op :=
  let log := item_data item in
  let tx_hash := HexBytes_hex (log_transactionHash log) in
  let* o := with_retries (get_transaction tx_hash) 3 5 in
  let* tx_details := required o in
  let bn := log_blockNumber log in
  let* block_timestamp := cached_timestamp bn in
  let* doc := lift (build_doc item tx_hash tx_details block_timestamp) in
  ret {| op_filter_id := _id doc; op_set := doc |}.

(** [for item in docs_to_upsert.values()], whose handler stores into the
    very dict that is being iterated.  The iterator remembers the size
    the dict had when the loop started ([used]) and its position; each
    step first compares the size, raising [RuntimeError] when it
    differs, and stops after the last entry ([n] entries are left). *)
Fixpoint enrich_loop (n pos used : nat) (docs : dict Item) (ops : list Op)
  : M (list Op) :=
  if negb (length docs =? used)%nat
  then raise (RuntimeError "dictionary changed size during iteration")
  else
    match n with
    | O => ret ops
    | S n' =>
        match docs !! pos with
        | None => ret ops
        | Some (_, item) =>
            fun s =>
              match enrich item s with
              | (Ok op, s1) =>
                  enrich_loop n' (S pos) used docs (ops ++ [op]) s1
              | (Raise e, s1) =>
                  let key := HexBytes_hex (log_transactionHash (item_data item)) in
                  enrich_loop n' (S pos) used (dict_set key item docs) ops s1
              end
        end
    end.

Definition advance (b : Z) : M unit :=
  fun s => (Ok tt, set_start_block b s).

(** The first part of an iteration of [for b_idx, batch_start in ...]:
    the logs of the batch are fetched and classified, and the accepted
    ones are enriched into upsert operations.  [None] stands for the
    two [continue] statements: the fetch failed for good, or the batch
    map is empty. *)
Definition collect_ops (batch_start batch_end : Z) : M (option (list Op)) :=
  fun s =>
    match with_retries (get_logs batch_start batch_end) 3 5 s with
    | (Raise e, s1) => (Ok None, s1)                     (* continue *)
    | (Ok o, s1) =>
        (let* logs := required o in
         let* docs_to_upsert := lift (classify_logs [] logs) in
         match docs_to_upsert with
         | [] => ret None                                 (* continue *)
         | _ =>
             let n := length docs_to_upsert in
             let* ops := enrich_loop n 0 n docs_to_upsert [] in
             ret (Some ops)
         end) s1
    end.

(** The second part, [if ops: ...]: one bulk write, and the cursor
    moves only when it succeeds. *)
Definition write_ops (batch_end : Z) (ops : list Op) : M unit :=
  match ops with
  | [] => ret tt
  | _ =>
      try_except
        (let* _ := bulk_write ops in advance (batch_end + 1))
        (fun e => ret tt)
  end.

(** One iteration of [for b_idx, batch_start in ...]. *)
Definition process_batch (batch_start batch_end : Z) : M unit :=
  let* collected := collect_ops batch_start batch_end in
  match collected with
  | None => ret tt
  | Some ops => write_ops batch_end ops
  end.

(** The batches of a cycle: [(batch_start, batch_end)] in order. *)
Definition batches (start effective_end : Z) : list (Z * Z) :=
  map (fun batch_start =>
         (batch_start, Z.min (batch_start + BATCH_SIZE - 1) effective_end))
      (py_range_step start (effective_end + 1) BATCH_SIZE).

Definition run_batches (bs : list (Z * Z)) : M unit :=
  for_each bs (fun b => process_batch (fst b) (snd b)).

(** One iteration of [while True], handler included. *)
Definition run_cycle : M unit :=
  try_except
    (let* head_block := block_number in
     let effective_end := Z.max 0 (head_block - CONFIRMATIONS) in
     fun s =>
       if start_block s >? effective_end
       then sleep POLL_INTERVAL s
       else
         (let* _ := run_batches (batches (start_block s) effective_end) in
          sleep CYCLE_DELAY) s)
    (fun e => sleep RETRY_DELAY).

Fixpoint run_cycles (n : nat) (s : State) : State :=
  match n with
  | O => s
  | S n' => run_cycles n' (snd (run_cycle s))
  end.

(** [w3.is_connected()]: a node call that answers [False] instead of
    raising. *)
Definition is_connected : M bool :=
  try_except (rpc EvIsConnected (fun w => (Ok true, w))) (fun e => ret false).

(** The start of [process_and_store_transactions], up to the loop: the
    connections are checked and the resume point is read from the
    ledger.  A raise here goes to the supervisor in [__main__]. *)
Definition startup : M unit :=
  let* connected := is_connected in
  if negb connected then raise (StartupError "Failed to connect to Ronin node")
  else
    let* _ := block_number in                     (* printed *)
    fun s =>
      match mongo_uri (world s) with
      | None | Some "" => (Raise (StartupError "MONGO_URI not set."), s)
      | Some _ =>
          if negb (mongo_ping (world s))
          then (Raise (StartupError "MongoDB connection failed"), s)
          else
            match find_one_sort_desc (ledger (world s)) with
            | Some last_doc => advance (blockNumber last_doc + 1) s
            | None => (let* head := block_number in advance head) s
            end
      end.

(** [process_and_store_transactions], for the first [cycles] iterations
    of its endless loop, from a fresh process. *)
Definition process_and_store_transactions (cycles : nat) (w : World)
  : Res unit * State :=
  let s0 := {| start_block := 0; block_ts_cache := ∅; world := w |} in
  match startup s0 with
  | (Ok _, s1) => (Ok tt, run_cycles cycles s1)
  | (Raise e, s1) => (Raise e, s1)
  end.
End Listener.

(* ===================================================================== *)
(** * A test double of the node and of the library *)
(* ===================================================================== *)

(** Reading test data: the bytes a hex text denotes (digits in pairs). *)
Fixpoint unhex_chars (cs : list ascii) : list byte :=
  match cs with
  | hi :: lo :: cs' =>
      match hex_val hi, hex_val lo with
      | Some h, Some l =>
          match Byte.of_N (Z.to_N (h * 16 + l)) with
          | Some b => b :: unhex_chars cs'
          | None => []
          end
      | _, _ => []
      end
  | _ => []
  end.

Definition unhex (s : string) : list byte := unhex_chars (chars s).

Definition treasury_lower : string := "0x245db945c485b68fdc429e4f7085a1761aa4d45d".
Definition treasury_checksum : string := "0x245db945c485b68fDc429e4F7085a1761Aa4d45d".

(** A stand-in for the library's checksum: it rejects what is not [0x]
    and forty hex digits, knows the mixed-case form of the treasury
    address, and leaves other addresses as they are. *)
Definition test_checksum (s : string) : Res string :=
  match chars s with
  | "0"%char :: "x"%char :: ds =>
      if (length ds =? 40)%nat && forallb is_hex_char ds then
        if String.eqb s treasury_lower then Ok treasury_checksum else Ok s
      else Raise ValueError
  | _ => Raise ValueError
  end.

Definition test_web3 : Web3Lib := {| to_checksum_address := test_checksum |}.

Definition pad_topic (addr40 : string) : list byte :=
  unhex ("000000000000000000000000" +:+ addr40).

Definition transfer_topic_bytes : list byte :=
  unhex "ddf252ad1be2c89b69c2b068fc378daa952ba7f163c4a11628f55a4df523b3ef".
Definition native_topic_bytes : list byte :=
  unhex "3d0ce9bfc3ed7d6862dbb28b2dea94561fe714a1b4d019aa8af39730d1ad7c3d".

Definition treasury40 : string := "245db945c485b68fdc429e4f7085a1761aa4d45d".
Definition alice40 : string := "00000000000000000000000000000000000a11ce".
Definition bob40 : string := "0000000000000000000000000000000000000b0b".
Definition token_address : string := "0x0000000000000000000000000000000000c0ffee".

(** An ERC-20 transfer log. *)
Definition erc20_transfer (tx : string) (bn idx : Z) (from40 to40 : string)
    (value : string) : Log :=
  {| log_transactionHash := unhex tx; log_logIndex := idx;
     log_blockNumber := bn; log_address := token_address;
     log_topics := [transfer_topic_bytes; pad_topic from40; pad_topic to40];
     log_data := unhex value |}.

(** A native-asset transfer log, emitted by [emitter]. *)
Definition native_transfer (tx : string) (bn idx : Z) (emitter from40 : string)
    (value : string) : Log :=
  {| log_transactionHash := unhex tx; log_logIndex := idx;
     log_blockNumber := bn; log_address := emitter;
     log_topics := [native_topic_bytes; pad_topic from40];
     log_data := unhex value |}.

(** A node that holds the given logs, answers every transaction lookup
    with the same input and every block lookup with [1700000000 + bn]. *)
Definition test_world (head : Z) (logs : list Log) (rpc_script : list bool)
    (write_script : list write_fault) (stored : list Doc) : World :=
  {| node_heads := [head];
     node_logs := fun a b =>
       filter (fun l => a <= log_blockNumber l /\ log_blockNumber l <= b) logs;
     node_tx := fun _ => Some {| tx_input := Some (PyHexBytes (unhex "a9059cbb0000")) |};
     node_block := fun bn => Some {| block_timestamp := 1700000000 + bn |};
     rpc_faults := rpc_script;
     write_faults := write_script;
     ledger := stored;
     mongo_uri := Some "mongodb://localhost";
     mongo_ping := true;
     trace := [] |}.

Definition test_state (start : Z) (w : World) : State :=
  {| start_block := start; block_ts_cache := ∅; world := w |}.

(* --------------------------------------------------------------------- *)
(** ** Sample logs and states *)
(* --------------------------------------------------------------------- *)

(** Treasury to Alice, 1000 units, block 100. *)
Definition log_out : Log :=
  erc20_transfer "aa01" 100 3 treasury40 alice40 "03e8".
(** Alice to treasury, 5 units, block 101. *)
Definition log_in : Log :=
  erc20_transfer "aa02" 101 0 alice40 treasury40 "05".
(** Alice to Bob: no treasury side. *)
Definition log_foreign : Log :=
  erc20_transfer "aa03" 101 1 alice40 bob40 "05".
(** Treasury to treasury. *)
Definition log_internal : Log :=
  erc20_transfer "aa05" 101 2 treasury40 treasury40 "09".
(** A native transfer that the treasury address emits, block 102. *)
Definition log_native : Log :=
  native_transfer "aa04" 102 0 treasury_checksum alice40 "07".

Definition item_out : Item := {| item_type := erc20_log; item_data := log_out |}.
Definition item_native : Item :=
  {| item_type := native_ron_log; item_data := log_native |}.

Definition sample_tx : Tx :=
  {| tx_input := Some (PyHexBytes (unhex "a9059cbb0000")) |}.

(** The record of [log_out]. *)
Definition doc_out : Doc :=
  {| _id := "100-3";
     txHash := "0xaa01";
     blockNumber := 100;
     timestamp := 1700000100;
     logIndex := 3;
     eventTopic := TRANSFER_TOPIC;
     amountRaw := "1000";
     amount := "-1000";
     isOutgoing := true;
     method := "0xa9059cbb";
     tokenAddress := token_address;
     fromAddress := treasury_checksum;
     toAddress := "0x00000000000000000000000000000000000a11ce" |}.

(** The record of [log_native]. *)
Definition doc_native : Doc :=
  {| _id := "102-0";
     txHash := "0xaa04";
     blockNumber := 102;
     timestamp := 1700000102;
     logIndex := 0;
     eventTopic := NATIVE_RON_TRANSFER_TOPIC;
     amountRaw := "7";
     amount := "7";
     isOutgoing := false;
     method := "0xa9059cbb";
     tokenAddress := ZERO_ADDRESS;
     fromAddress := "0x00000000000000000000000000000000000a11ce";
     toAddress := treasury_checksum |}.

(** A document stored for a given block, for ledgers to resume from. *)
Definition stored_at (bn : Z) : Doc :=
  {| _id := str bn +:+ "-0"; txHash := "0x00"; blockNumber := bn;
     timestamp := 1700000000 + bn; logIndex := 0;
     eventTopic := TRANSFER_TOPIC; amountRaw := "1"; amount := "1";
     isOutgoing := false; method := "0x"; tokenAddress := token_address;
     fromAddress := ZERO_ADDRESS; toAddress := treasury_checksum |}.

(** Head 105, the five sample logs, nothing failing, an empty ledger. *)
Definition calm_state : State :=
  test_state 100
    (test_world 105 [log_out; log_in; log_foreign; log_internal; log_native]
                [] [] []).

(** The same chain with a node that fails the three attempts of the first
    transaction lookup (the log fetch before it succeeds). *)
Definition flaky_state : State :=
  test_state 100
    (test_world 105 [log_out; log_in] [false; true; true; true] [] []).

(** The same, seen from a whole cycle: the head and the log fetch
    succeed, the three attempts of the first transaction lookup fail. *)
Definition flaky_cycle_state : State :=
  test_state 100
    (test_world 105 [log_out; log_in] [false; false; true; true; true] [] []).


(** Two batches in one cycle: head 251, a transfer in block 150 and one
    in block 220; the store fails the first bulk write, applying nothing,
    and accepts the second.  The head then moves to 400. *)
Definition log_150 : Log :=
  erc20_transfer "bb01" 150 0 treasury40 alice40 "0a".
Definition log_220 : Log :=
  erc20_transfer "bb02" 220 0 alice40 treasury40 "0b".

Definition skip_state : State :=
  test_state 100
    (set_node_heads [251; 400]
       (test_world 251 [log_150; log_220] [] [WriteErr []; WriteOk] [])).

(** A ledger that was filled out of block order. *)
Definition resumed_state : State :=
  test_state 0 (test_world 105 [] [] [] [stored_at 7; stored_at 42; stored_at 9]).

Definition first_start_state : State :=
  test_state 0 (test_world 105 [] [] [] []).

(* ===================================================================== *)
(** * The specification's notions *)
(* ===================================================================== *)

(** The retry policy in the specification's words: attempt; on a failure
    sleep the fixed delay and attempt again; the N-th failure propagates.
    [retry_policy fn delay n s k r s'] reads: with [n] attempts allowed
    from state [s], [fn] was attempted exactly [k] times and the outcome is
    [r], in state [s']. *)
Inductive retry_policy {A} (fn : M A) (delay : Z)
  : nat -> State -> nat -> Res A -> State -> Prop :=
| retry_success n s v s1 :
    fn s = (Ok v, s1) ->
    retry_policy fn delay (S n) s 1 (Ok v) s1
| retry_exhausted s e s1 :
    fn s = (Raise e, s1) ->
    retry_policy fn delay 1 s 1 (Raise e) s1
| retry_again n s e s1 k r s2 :
    fn s = (Raise e, s1) ->
    retry_policy fn delay (S n) (snd (sleep delay s1)) k r s2 ->
    retry_policy fn delay (S (S n)) s (S k) r s2.

(** What the caller of [with_retries] gets for an outcome of the policy. *)
Definition retried {A} (r : Res A) : Res (option A) :=
  match r with
  | Ok v => Ok (Some v)
  | Raise e => Raise e
  end.

(** A decimal digit. *)
Definition is_decimal_digit (c : ascii) : bool :=
  let n := Z.of_N (N_of_ascii c) in (48 <=? n) && (n <=? 57).

(** Exactly one of two addresses is a treasury address. *)
Definition exactly_one (a b : bool) : bool := xorb a b.

(** The maximum [blockNumber] stored in the ledger, if it holds any
    document. *)
Definition max_stored_block (l : list Doc) : option Z :=
  match l with
  | [] => None
  | d :: l' => Some (foldr (fun x acc => Z.max (blockNumber x) acc) (blockNumber d) l')
  end.

(** The head that the node reports at its second reading. *)
Definition head_at_second_read (w : World) : Z :=
  match node_heads w with
  | [] => 0
  | [h] => h
  | _ :: h2 :: _ => h2
  end.

(** The successful bulk writes recorded so far. *)
Definition is_write_ok (ev : event) : bool :=
  match ev with
  | EvBulkWrite _ true => true
  | _ => false
  end.

Definition writes_ok (w : World) : nat :=
  length (List.filter is_write_ok (trace w)).

(** The timestamp the process will use for a block: the cached one, and
    the node's when the cache has none. *)
Definition ts_view (s : State) (bn : Z) : option Z :=
  match block_ts_cache s !! bn with
  | Some ts => Some ts
  | None => option_map block_timestamp (node_block (world s) bn)
  end.

(** What every step other than a bulk write leaves as it is: the cursor,
    the ledger, the chain data, the count of successful writes, the
    absence of pending node faults, and the timestamps in use. *)
Record frame (s s' : State) : Prop := {
  frame_start_block : start_block s' = start_block s;
  frame_ledger : ledger (world s') = ledger (world s);
  frame_write_faults : write_faults (world s') = write_faults (world s);
  frame_logs : node_logs (world s') = node_logs (world s);
  frame_tx : node_tx (world s') = node_tx (world s);
  frame_block : node_block (world s') = node_block (world s);
  frame_writes_ok : writes_ok (world s') = writes_ok (world s);
  frame_no_faults : rpc_faults (world s) = [] -> rpc_faults (world s') = [];
  frame_ts_view : forall bn, ts_view s' bn = ts_view s bn
}.

(** The cursor is held: it has not moved and no write has succeeded. *)
Definition held (s s' : State) : Prop :=
  start_block s' = start_block s /\ writes_ok (world s') = writes_ok (world s).

(** The trace only grows. *)
Definition grows (s s' : State) : Prop :=
  exists tr, trace (world s') = (trace (world s) ++ tr)%list.

(** A node call that the fault script lets through. *)
Definition fault_free (s : State) : Prop := rpc_faults (world s) = [].

(** The answers of a node without faults. *)
Definition tx_answer (w : World) (tx_hash : string) : Res Tx :=
  match node_tx w tx_hash with
  | Some tx => Ok tx
  | None => Raise TransactionNotFound
  end.

Definition block_answer (w : World) (bn : Z) : Res Block :=
  match node_block w bn with
  | Some b => Ok b
  | None => Raise BlockNotFound
  end.

(** The operation of an item as a function of what the node holds for its
    transaction and of the timestamp in use for its block. *)
Definition pure_enrich `{Web3Lib} (txs : string -> option Tx)
    (tsv : Z -> option Z) (item : Item) : Res Op :=
  let log := item_data item in
  let tx_hash := HexBytes_hex (log_transactionHash log) in
  match txs tx_hash with
  | None => Raise TransactionNotFound
  | Some tx_details =>
      match tsv (log_blockNumber log) with
      | None => Raise BlockNotFound
      | Some ts =>
          doc <-? build_doc item tx_hash tx_details ts;
          Ok {| op_filter_id := _id doc; op_set := doc |}
      end
  end.

(** Two states in which the enrichment of any item goes the same way. *)
Definition same_view (s t : State) : Prop :=
  fault_free s /\ fault_free t
  /\ node_tx (world s) = node_tx (world t)
  /\ forall bn, ts_view s bn = ts_view t bn.

(** An upsert whose filter is the [_id] of the document it sets. *)
Definition op_wf (op : Op) : Prop := op_filter_id op = _id (op_set op).

(** The [_id]s stored in a ledger, and the invariant of the store: no two
    documents share one. *)
Definition ids (l : list Doc) : list string := map _id l.

Definition unique_ids (l : list Doc) : Prop := List.NoDup (ids l).

(** The document that the last operation on key [k] sets. *)
Fixpoint last_set (ops : list Op) (k : string) : option Doc :=
  match ops with
  | [] => None
  | op :: ops' =>
      match last_set ops' k with
      | Some d => Some d
      | None => if String.eqb (op_filter_id op) k then Some (op_set op) else None
      end
  end.

Definition override (ops : list Op) (x : Doc) : Doc :=
  match last_set ops (_id x) with
  | Some d => d
  | None => x
  end.

(** Two states that see the same chain: no node faults pending, the same
    logs and transactions, the same timestamps in use. *)
Definition same_chain (s t : State) : Prop :=
  same_view s t
  /\ node_logs (world s) = node_logs (world t)
  /\ node_block (world s) = node_block (world t).

(** The store accepts the next writes. *)
Definition store_up (s : State) : Prop := write_faults (world s) = [].

(** The cache holds nothing but what the node reports. *)
Definition cache_agrees (s : State) : Prop :=
  forall bn ts, block_ts_cache s !! bn = Some ts ->
    option_map block_timestamp (node_block (world s) bn) = Some ts.

(** A process that starts afresh on the same world: an empty cache and a
    cursor of its own. *)
Definition fresh_process (start : Z) (s : State) : State :=
  {| start_block := start; block_ts_cache := ∅; world := world s |}.

(** A key that holds a dash, as every [doc_id] does and no hex text
    does. *)
Definition dashed (k : string) : Prop := In "-"%char (chars k).

Definition size_changed : exn :=
  RuntimeError "dictionary changed size during iteration".

(** A computation preserves a relation on states when every run of it
    ends in a state related to the one it started in. *)
Definition preserves (R : State -> State -> Prop) {A} (m : M A) : Prop :=
  forall s, R s (snd (m s)).

(** What [k] attempts of a node call leave in the trace: the call, [k]
    times, with a sleep of the delay between two of them. *)
Fixpoint attempts_trace (ev : event) (delay : Z) (k : nat) : list event :=
  match k with
  | O => []
  | 1%nat => [ev]
  | S k' => ev :: EvSleep delay :: attempts_trace ev delay k'
  end.

(** A node call run under [with_retries] as the listener does: [k]
    attempts, one to three, recorded with the sleeps between them; fewer
    than three attempts only on a success, and a raise only after the
    third. *)
Definition retried_call {A} (fn : M A) (ev : event) (s : State) : Prop :=
  exists k : nat,
    (1 <= k <= 3)%nat
    /\ trace (world (snd (with_retries fn 3 5 s)))
       = (trace (world s) ++ attempts_trace ev 5 k)%list
    /\ ((k < 3)%nat -> is_ok (fst (with_retries fn 3 5 s)) = true)
    /\ (is_ok (fst (with_retries fn 3 5 s)) = false -> k = 3%nat).

(** What the classification has checked of an entry of the batch map. *)
Definition accepted `{Web3Lib} (item : Item) : Prop :=
  let log := item_data item in
  exists t0, index (log_topics log) 0 = Ok t0 /\
    match item_type item with
    | erc20_log =>
        HexBytes_hex t0 = TRANSFER_TOPIC
        /\ exists frm to,
             topic_address log 1 = Ok frm /\ topic_address log 2 = Ok to
             /\ exactly_one (in_treasury frm) (in_treasury to) = true
    | native_ron_log =>
        HexBytes_hex t0 = NATIVE_RON_TRANSFER_TOPIC
        /\ exists emitter,
             to_checksum_address (log_address log) = Ok emitter
             /\ in_treasury emitter = true
    end.

(** The [_id] of the record of a log. *)
Definition record_id (log : Log) : string :=
  str (log_blockNumber log) +:+ "-" +:+ str (log_logIndex log).

(** A transfer event whose addresses are not indexed: one topic only. *)
Definition log_bare : Log :=
  {| log_transactionHash := unhex "aa06"; log_logIndex := 4;
     log_blockNumber := 103; log_address := token_address;
     log_topics := [transfer_topic_bytes];
     log_data := unhex "01" |}.

Definition bare_state : State :=
  test_state 100 (test_world 105 [log_out; log_bare; log_in] [] [] []).

(** The upsert operation that belongs to an entry of the batch map: its
    filter and its document carry the [_id] and the block of the log. *)
Definition built_from (item : Item) (op : Op) : Prop :=
  op_filter_id op = record_id (item_data item)
  /\ _id (op_set op) = record_id (item_data item)
  /\ blockNumber (op_set op) = log_blockNumber (item_data item).

(** The operation came out of a successful enrichment of the item. *)
Definition enriched `{Web3Lib} (s : State) (item : Item) (op : Op) : Prop :=
  exists s0 s0', frame s s0 /\ enrich item s0 = (Ok op, s0').

(** An NFT transfer out of the treasury: the token id is the fourth
    topic and the data payload is empty. *)
Definition log_nft : Log :=
  {| log_transactionHash := unhex "aa07"; log_logIndex := 5;
     log_blockNumber := 103; log_address := token_address;
     log_topics := [transfer_topic_bytes; pad_topic treasury40;
                    pad_topic alice40; pad_topic bob40];
     log_data := [] |}.

Definition item_nft : Item := {| item_type := erc20_log; item_data := log_nft |}.

Definition nft_state : State :=
  test_state 100 (test_world 105 [log_in; log_nft] [] [] []).


(** What a run of the listener leaves of the ledger: no [_id] is lost,
    unique [_id]s stay unique, and the collection does not shrink. *)
Definition ledger_kept (l l' : list Doc) : Prop :=
  (forall k, In k (ids l) -> In k (ids l'))
  /\ (unique_ids l -> unique_ids l')
  /\ (length l <= length l')%nat.

(** The timestamp of a document is the one the node reports for its
    block. *)
Definition stamped (w : World) (x : Doc) : Prop :=
  option_map block_timestamp (node_block w (blockNumber x)) = Some (timestamp x).

(** The document is the record of a log that the node returned for some
    block range and that the classification accepted. *)
Definition recorded_from `{Web3Lib} (w : World) (x : Doc) : Prop :=
  exists a b item,
    In (item_data item) (node_logs w a b)
    /\ accepted item
    /\ _id x = record_id (item_data item)
    /\ blockNumber x = log_blockNumber (item_data item)
    /\ stamped w x.

(** Between two states of a run: the chain data is the same, and when
    the cache agreed with the node it still does, and every document of
    the ledger was there before or is such a record. *)
Definition provenance `{Web3Lib} (s s' : State) : Prop :=
  node_logs (world s') = node_logs (world s)
  /\ node_block (world s') = node_block (world s)
  /\ (cache_agrees s ->
      cache_agrees s'
      /\ forall x, In x (ledger (world s')) ->
           In x (ledger (world s)) \/ recorded_from (world s) x).

(** [__main__]: the listener is started again, after [RETRY_DELAY]
    seconds, each time it raises; every start is a fresh call, with
    variables of its own.  [restarts] bounds the number of starts and
    [cycles] the iterations of the loop of a start that succeeded. *)
Fixpoint main `{Web3Lib} (restarts cycles : nat) (w : World) : World :=
  match restarts with
  | O => w
  | S restarts' =>
      match process_and_store_transactions cycles w with
      | (Ok _, s) => world s
      | (Raise e, s) => main restarts' cycles (world (snd (sleep RETRY_DELAY s)))
      end
  end.

(** A ledger to resume from at block 100, on the sample chain. *)
Definition resuming_world : World :=
  test_world 105 [log_out; log_in; log_foreign; log_internal; log_native]
             [] [] [stored_at 99].

(** What a part of a run adds to the trace: events that all satisfy
    [P]. *)
Definition emits (P : event -> Prop) (s s' : State) : Prop :=
  exists tr, trace (world s') = (trace (world s) ++ tr)%list /\ Forall P tr.

(** The events between the head read and the final sleep of a cycle
    whose cursor is [lo] and whose effective end is [hi]: log fetches
    stay inside the range, a batch at a time; the only sleeps are those
    between the attempts of a node call; the head is not read again. *)
Definition in_cycle (lo hi : Z) (ev : event) : Prop :=
  match ev with
  | EvGetLogs a b => lo <= a /\ a <= b /\ b <= hi /\ b - a < BATCH_SIZE
  | EvSleep d => d = 5
  | EvBlockNumber | EvIsConnected => False
  | EvGetTransaction _ | EvGetBlock _ | EvBulkWrite _ _ => True
  end.

(** The sample chain behind a node that fails the three attempts of the
    first log fetch. *)
Definition unreachable_logs_state : State :=
  test_state 100
    (test_world 105 [log_out; log_in] [true; true; true] [] []).

(** The same world with the [MONGO_URI] variable as given. *)
Definition with_mongo_uri (uri : option string) (w : World) : World :=
  {| node_heads := node_heads w; node_logs := node_logs w;
     node_tx := node_tx w; node_block := node_block w;
     rpc_faults := rpc_faults w; write_faults := write_faults w;
     ledger := ledger w; mongo_uri := uri;
     mongo_ping := mongo_ping w; trace := trace w |}.

(** The store is configured and answers the ping. *)
Definition store_reachable (w : World) : Prop :=
  exists uri, mongo_uri w = Some uri /\ uri <> "" /\ mongo_ping w = true.

(** What one failed start leaves in the trace when the node answers: the
    connection check, the head read for the greeting, and the sleep of
    the supervisor. *)
Definition failed_start : list event :=
  [EvIsConnected; EvBlockNumber; EvSleep RETRY_DELAY].

(** The sides of a document: a token transfer has the treasury on
    exactly one side and is outgoing when the treasury sends; a native
    transfer has the treasury as receiver, is never outgoing and carries
    the zero address as its token. *)
Definition treasury_sided `{Web3Lib} (d : Doc) : Prop :=
  (eventTopic d = TRANSFER_TOPIC
   /\ exactly_one (in_treasury (fromAddress d)) (in_treasury (toAddress d)) = true
   /\ isOutgoing d = in_treasury (fromAddress d))
  \/ (eventTopic d = NATIVE_RON_TRANSFER_TOPIC
      /\ in_treasury (toAddress d) = true
      /\ isOutgoing d = false
      /\ tokenAddress d = ZERO_ADDRESS).

(** A chain with one outgoing token transfer and one native transfer. *)
Definition two_sided_state : State :=
  test_state 100 (test_world 105 [log_out; log_native] [] [] []).








(* ===================================================================== *)
(** * Properties *)
(* ===================================================================== *)

(* --------------------------------------------------------------------- *)
(** ** Text and hexadecimal digits *)
(* --------------------------------------------------------------------- *)

Lemma chars_text (l : list ascii) : chars (text l) = l.
Proof. apply list_ascii_of_string_of_list_ascii. Qed.

Lemma text_chars (s : string) : text (chars s) = s.
Proof. apply string_of_list_ascii_of_string. Qed.

Lemma chars_app (a b : string) : chars (a +:+ b) = (chars a ++ chars b)%list.
Proof.
  induction a as [|c a IH]; simpl; [reflexivity|].
  unfold chars in *. simpl. now rewrite IH.
Qed.

Lemma chars_length (s : string) : length (chars s) = String.length s.
Proof.
  induction s as [|c s IH]; simpl; [reflexivity|].
  unfold chars in *. simpl. now rewrite IH.
Qed.

Lemma chars_HexBytes_hex (bs : list byte) :
  chars (HexBytes_hex bs) = "0"%char :: "x"%char :: concat (map byte_hex bs).
Proof.
  unfold HexBytes_hex, bytes_hex. rewrite chars_app, chars_text. reflexivity.
Qed.

Lemma byte_hex_val (b : byte) :
  map hex_val (byte_hex b)
  = [Some (Z.of_N (Byte.to_N b / 16)); Some (Z.of_N (Byte.to_N b mod 16))].
Proof. destruct b; reflexivity. Qed.

Lemma byte_hex_is_hex (b : byte) : forallb is_hex_char (byte_hex b) = true.
Proof. destruct b; reflexivity. Qed.

Lemma bytes_hex_is_hex (bs : list byte) :
  forallb is_hex_char (concat (map byte_hex bs)) = true.
Proof.
  induction bs as [|b bs IH]; simpl; [reflexivity|].
  rewrite IH. pose proof (byte_hex_is_hex b) as Hb. simpl in Hb.
  rewrite andb_true_r in Hb. apply andb_prop in Hb as [-> ->]. reflexivity.
Qed.

Lemma byte_hex_not_dash (b : byte) : ~ In "-"%char (byte_hex b).
Proof.
  intros Hin.
  assert (Hall : forallb (fun c => negb (Ascii.eqb c "-")) (byte_hex b) = true)
    by (destruct b; reflexivity).
  rewrite forallb_forall in Hall. apply Hall in Hin.
  now rewrite Ascii.eqb_refl in Hin.
Qed.

Lemma HexBytes_hex_not_dash (bs : list byte) :
  ~ In "-"%char (chars (HexBytes_hex bs)).
Proof.
  rewrite chars_HexBytes_hex. simpl. intros [H | [H | H]]; try discriminate.
  apply in_concat in H as (l & Hl & Hin).
  apply in_map_iff in Hl as (b & <- & _).
  exact (byte_hex_not_dash b Hin).
Qed.

(** Reading the digits of a byte string gives its big-endian value. *)
Lemma hex_digits_value_bytes (bs : list byte) (acc : Z) :
  hex_digits_value acc (concat (map byte_hex bs))
  = Some (fold_left (fun a b => a * 256 + Z.of_N (Byte.to_N b)) bs acc).
Proof.
  revert acc. induction bs as [|b bs IH]; intros acc; [reflexivity|].
  pose proof (byte_hex_val b) as Hv.
  cbn [map concat app byte_hex hex_digits_value fold_left] in *.
  injection Hv as -> ->.
  rewrite IH. do 2 f_equal.
  pose proof (N.div_mod (Byte.to_N b) 16 ltac:(discriminate)) as Hdm.
  rewrite N2Z.inj_div, N2Z.inj_mod. change (Z.of_N 16) with 16.
  pose proof (Z.div_mod (Z.of_N (Byte.to_N b)) 16 ltac:(discriminate)).
  lia.
Qed.

Lemma be_value_nonneg (bs : list byte) : 0 <= be_value bs.
Proof.
  unfold be_value.
  assert (Hgen : forall acc, 0 <= acc ->
    0 <= fold_left (fun a b => a * 256 + Z.of_N (Byte.to_N b)) bs acc).
  { induction bs as [|b bs IH]; intros acc Hacc; simpl; [exact Hacc|].
    apply IH. lia. }
  apply Hgen. lia.
Qed.

(** [int(data.hex(), 16)]: the value of the bytes, and a [ValueError] on
    an empty byte string. *)
Lemma int_base16_HexBytes (bs : list byte) :
  int_base16 (HexBytes_hex bs)
  = match bs with [] => Raise ValueError | _ => Ok (be_value bs) end.
Proof.
  unfold int_base16. rewrite chars_HexBytes_hex.
  destruct bs as [|b bs]; [reflexivity|].
  rewrite hex_digits_value_bytes.
  cbn [map concat byte_hex app]. reflexivity.
Qed.

(** [str] can be read back. *)
Lemma int_of_str_str (z : Z) : int_of_str (str z) = Some z.
Proof.
  unfold int_of_str, str.
  rewrite NilZero.isi.
  - simpl. now rewrite DecimalZ.of_to.
  - destruct z; simpl; try discriminate.
    intros [= Hp]. exact (DecimalPos.Unsigned.to_uint_nonnil _ Hp).
  - destruct z; simpl; try discriminate.
    intros [= Hp]. exact (DecimalPos.Unsigned.to_uint_nonnil _ Hp).
Qed.

Lemma str_inj (a b : Z) : str a = str b -> a = b.
Proof.
  intros Heq. pose proof (int_of_str_str a) as Ha.
  rewrite Heq, int_of_str_str in Ha. now injection Ha.
Qed.

Example str_zero : str 0 = "0".
Proof. reflexivity. Qed.

Example str_neg : str (-1000) = "-1000".
Proof. reflexivity. Qed.

Example int_base16_data :
  int_base16 (HexBytes_hex [x00; x03; xe8]) = Ok 1000.
Proof. reflexivity. Qed.

Example int_base16_empty : int_base16 (HexBytes_hex []) = Raise ValueError.
Proof. reflexivity. Qed.

(* --------------------------------------------------------------------- *)
(** ** The method selector *)
(* --------------------------------------------------------------------- *)

Example safe_selector_transfer :
  safe_selector (PyHexBytes [xa9; x05; x9c; xbb; x00; x01]) = "0xa9059cbb".
Proof. reflexivity. Qed.

Example safe_selector_short :
  safe_selector (PyHexBytes [xa9; x05; x9c]) = "0x".
Proof. reflexivity. Qed.

Example safe_selector_empty : safe_selector (PyStr "") = "0x".
Proof. reflexivity. Qed.

Example safe_selector_none : safe_selector PyNone = "0x".
Proof. reflexivity. Qed.

Lemma startswith_0x (s : string) :
  startswith "0x" s = true -> exists rest, chars s = "0"%char :: "x"%char :: rest.
Proof.
  unfold startswith.
  destruct s as [|a [|b s]]; cbn [String.prefix]; try discriminate.
  - destruct (ascii_dec "0" a); intros Hf; discriminate Hf.
  - destruct (ascii_dec "0" a) as [<-|]; [|intros Hf; discriminate Hf].
    destruct (ascii_dec "x" b) as [<-|]; [|intros Hf; discriminate Hf].
    intros _. now exists (chars s).
Qed.

(** On the bytes of a transaction input the selector is the hex text of
    the first four bytes, and [0x] when there are fewer. *)
Lemma safe_selector_HexBytes (bs : list byte) :
  safe_selector (PyHexBytes bs)
  = if (4 <=? length bs)%nat then HexBytes_hex (take 4 bs) else "0x".
Proof.
  destruct bs as [|a [|b [|c [|d bs]]]]; try reflexivity.
Qed.

Lemma is_selector_HexBytes4 (bs : list byte) :
  length bs = 4%nat -> is_selector (HexBytes_hex bs) = true.
Proof.
  intros Hlen. unfold is_selector. rewrite chars_HexBytes_hex.
  rewrite bytes_hex_is_hex, andb_true_r.
  destruct bs as [|a [|b [|c [|d [|e bs]]]]]; try discriminate. reflexivity.
Qed.

(** Plain [bytes] render without the [0x] prefix, so they never pass the
    prefix test. *)
Lemma safe_selector_bytes (bs : list byte) : safe_selector (PyBytes bs) = "0x".
Proof.
  destruct bs as [|b bs]; [reflexivity|].
  unfold safe_selector, hex_if_has_attr, bytes_hex.
  cbn [map concat byte_hex app text string_of_list_ascii].
  assert (Hx : Ascii.eqb (hex_digit (Byte.to_N b mod 16)) "x" = false)
    by (destruct b; reflexivity).
  cbn [String.eqb]. unfold startswith. cbn [String.prefix].
  destruct (ascii_dec "0" (hex_digit (Byte.to_N b / 16))); [|reflexivity].
  destruct (ascii_dec "x" (hex_digit (Byte.to_N b mod 16))) as [Heq|]; [|reflexivity].
  rewrite <- Heq in Hx. discriminate.
Qed.

(** On a text, the selector is its first ten characters when it starts
    with [0x] and has at least ten, whatever the eight that follow. *)
Lemma safe_selector_text (s : string) :
  safe_selector (PyStr s) = "0x" \/
  (startswith "0x" s = true /\ (10 <= String.length s)%nat /\
   safe_selector (PyStr s) = str_take 10 s /\
   exists ds, chars (str_take 10 s) = "0"%char :: "x"%char :: ds /\
              length ds = 8%nat /\ ds = take 8 (drop 2 (chars s))).
Proof.
  unfold safe_selector, hex_if_has_attr.
  destruct (String.eqb s ""); [now left|].
  destruct (startswith "0x" s) eqn:Hpre; [|now left].
  destruct (10 <=? String.length s)%nat eqn:Hlen; [|now left].
  right. apply Nat.leb_le in Hlen.
  repeat split; try assumption.
  destruct (startswith_0x s Hpre) as [rest Hs].
  unfold str_take. rewrite chars_text, Hs.
  exists (take 8 rest). repeat split.
  - rewrite length_take. rewrite <- chars_length, Hs in Hlen. simpl in Hlen. lia.
Qed.

(** The function does not check that a text is hexadecimal: such a text
    keeps its first ten characters.  (The node library hands over the
    bytes of the call data, never a text.) *)
Lemma safe_selector_text_not_checked :
  safe_selector (PyStr "0xZZZZZZZZZZ") = "0xZZZZZZZZ"
  /\ ~ (is_selector (safe_selector (PyStr "0xZZZZZZZZZZ")) = true
        \/ safe_selector (PyStr "0xZZZZZZZZZZ") = "0x").
Proof.
  split; [reflexivity|].
  intros [H | H]; vm_compute in H; discriminate.
Qed.

(** Over the modelled values: the method is [0x] followed by eight
    hexadecimal characters, or the bare [0x], or - on a text input whose
    eight characters after [0x] are not all hexadecimal - the first ten
    characters of that text; on the bytes of a transaction input it is
    the hex text of the first four bytes, and [0x] when there are
    fewer. *)
Lemma safe_selector_values :
  (forall v : pyval,
     is_selector (safe_selector v) = true
     \/ safe_selector v = "0x"
     \/ exists s, v = PyStr s /\ startswith "0x" s = true
          /\ (10 <= String.length s)%nat
          /\ forallb is_hex_char (take 8 (drop 2 (chars s))) = false
          /\ safe_selector v = str_take 10 s)
  /\ (forall bs : list byte,
        safe_selector (PyHexBytes bs)
        = if (4 <=? length bs)%nat then HexBytes_hex (take 4 bs) else "0x")
  /\ (forall bs : list byte,
        is_selector (safe_selector (PyHexBytes bs)) = true
        \/ safe_selector (PyHexBytes bs) = "0x").
Proof.
  assert (Hhex : forall bs : list byte,
            is_selector (safe_selector (PyHexBytes bs)) = true
            \/ safe_selector (PyHexBytes bs) = "0x").
  { intros bs. rewrite safe_selector_HexBytes.
    destruct (4 <=? length bs)%nat eqn:Hlen; [left|now right].
    apply Nat.leb_le in Hlen.
    apply is_selector_HexBytes4. rewrite length_take. lia. }
  split; [|split; [exact safe_selector_HexBytes | exact Hhex]].
  intros [|s|bs|bs|n].
  - right; left; reflexivity.
  - destruct (safe_selector_text s) as [H0 | (Hpre & Hlen & Hsel & ds & Hds & Hl & Heq)].
    + right; left; exact H0.
    + destruct (forallb is_hex_char (take 8 (drop 2 (chars s)))) eqn:Hall.
      * left. rewrite Hsel. unfold is_selector. rewrite Hds, Hl, Heq, Hall.
        reflexivity.
      * right; right. exists s. repeat split; assumption.
  - destruct (Hhex bs) as [H1 | H1]; [now left | now right; left].
  - right; left. apply safe_selector_bytes.
  - right; left; reflexivity.
Qed.

(* --------------------------------------------------------------------- *)
(** ** Retries *)
(* --------------------------------------------------------------------- *)

Lemma py_range_1_4 : py_range 1 (3 + 1) = [1; 2; 3].
Proof. reflexivity. Qed.

Lemma with_retries_first_ok {A} (fn : M A) (delay : Z) s v s1 :
  fn s = (Ok v, s1) -> with_retries fn 3 delay s = (Ok (Some v), s1).
Proof.
  intros Hfn. unfold with_retries. rewrite py_range_1_4. simpl. now rewrite Hfn.
Qed.

(** With three retries, any operation meets the policy. *)
Lemma with_retries_three {A} (fn : M A) (delay : Z) (s : State) :
  exists (k : nat) (r : Res A) (s' : State),
    retry_policy fn delay 3 s k r s'
    /\ (1 <= k <= 3)%nat
    /\ with_retries fn 3 delay s = (retried r, s').
Proof.
  unfold with_retries. rewrite py_range_1_4. cbn [with_retries_loop].
  destruct (fn s) as [[v1|e1] s1] eqn:H1.
  { exists 1%nat, (Ok v1), s1. repeat split; try lia. now constructor. }
  change (1 =? 3) with false. cbv iota.
  unfold bind at 1. cbn [sleep fst snd].
  set (s1' := set_world (record_event (EvSleep delay) (world s1)) s1).
  destruct (fn s1') as [[v2|e2] s2] eqn:H2.
  { exists 2%nat, (Ok v2), s2. repeat split; try lia.
    eapply retry_again; [exact H1|]. now constructor. }
  change (2 =? 3) with false. cbv iota.
  unfold bind at 1. cbn [sleep fst snd].
  set (s2' := set_world (record_event (EvSleep delay) (world s2)) s2).
  destruct (fn s2') as [[v3|e3] s3] eqn:H3.
  { exists 3%nat, (Ok v3), s3. repeat split; try lia.
    eapply retry_again; [exact H1|].
    eapply retry_again; [exact H2|]. now constructor. }
  change (3 =? 3) with true. cbv iota.
  exists 3%nat, (Raise e3), s3. repeat split; try lia.
  eapply retry_again; [exact H1|].
  eapply retry_again; [exact H2|]. now constructor.
Qed.

(* --------------------------------------------------------------------- *)
(** ** Amount text *)
(* --------------------------------------------------------------------- *)

Lemma string_of_uint_digits (d : Decimal.uint) :
  forallb is_decimal_digit (chars (NilEmpty.string_of_uint d)) = true.
Proof. induction d; simpl; auto. Qed.

(** The text of a non-negative integer has digits only: no sign, no
    point, no exponent. *)
Lemma str_nonneg_digits (n : Z) :
  0 <= n -> forallb is_decimal_digit (chars (str n)) = true.
Proof.
  intros Hn. unfold str.
  destruct n as [|p|p]; [reflexivity| |lia].
  simpl. unfold NilZero.string_of_uint.
  destruct (Pos.to_uint p) eqn:Hp; try apply string_of_uint_digits.
  reflexivity.
Qed.

(* --------------------------------------------------------------------- *)
(** ** Classification and record construction *)
(* --------------------------------------------------------------------- *)




Section Classification.
Context `{Web3Lib}.

Lemma build_doc_fields (item : Item) (h : string) (tx : Tx) (ts : Z) (doc : Doc) :
  build_doc item h tx ts = Ok doc ->
  exists is_out amt_raw token frm to,
    transfer_fields item = Ok (is_out, amt_raw, token, frm, to)
    /\ isOutgoing doc = is_out
    /\ amountRaw doc = str amt_raw
    /\ amount doc = str (if is_out then - amt_raw else amt_raw)
    /\ tokenAddress doc = token
    /\ fromAddress doc = frm
    /\ toAddress doc = to
    /\ method doc = safe_selector (tx_get_input tx)
    /\ _id doc = str (log_blockNumber (item_data item)) +:+ "-"
                 +:+ str (log_logIndex (item_data item))
    /\ blockNumber doc = log_blockNumber (item_data item)
    /\ timestamp doc = ts.
Proof.
  unfold build_doc.
  destruct (transfer_fields item) as [[[[[is_out amt_raw] token] frm] to]|e];
    [|discriminate].
  cbn [res_bind].
  destruct (index (log_topics (item_data item)) 0) as [t0|e]; [|discriminate].
  cbn [res_bind]. intros [= <-].
  exists is_out, amt_raw, token, frm, to. cbn. repeat split.
Qed.



Lemma transfer_fields_amount (item : Item) is_out amt_raw token frm to :
  transfer_fields item = Ok (is_out, amt_raw, token, frm, to) ->
  int_base16 (HexBytes_hex (log_data (item_data item))) = Ok amt_raw.
Proof.
  unfold transfer_fields. destruct (item_type item).
  - destruct (topic_address _ 1); [|discriminate]. cbn [res_bind].
    destruct (topic_address _ 2); [|discriminate]. cbn [res_bind].
    destruct (int_base16 _); [|discriminate]. cbn [res_bind].
    destruct (to_checksum_address _); [|discriminate]. cbn [res_bind].
    now intros [= _ <- _ _ _].
  - destruct (to_checksum_address _); [|discriminate]. cbn [res_bind].
    destruct (int_base16 _); [|discriminate]. cbn [res_bind].
    destruct (topic_address _ 1); [|discriminate]. cbn [res_bind].
    now intros [= _ <- _ _ _].
Qed.

(** C5: in every record that is built, [amountRaw] is the decimal text
    (digits only) of the non-negative integer that the bytes of the
    log's data payload denote, and [amount] is the decimal text of its
    negation when [isOutgoing] holds and of the same integer otherwise;
    both are integers throughout and read back exactly. *)
Theorem amount_fields (item : Item) (h : string) (tx : Tx) (ts : Z) (doc : Doc) :
  build_doc item h tx ts = Ok doc ->
  let n := be_value (log_data (item_data item)) in
  int_base16 (HexBytes_hex (log_data (item_data item))) = Ok n
  /\ 0 <= n
  /\ amountRaw doc = str n
  /\ forallb is_decimal_digit (chars (amountRaw doc)) = true
  /\ int_of_str (amountRaw doc) = Some n
  /\ amount doc = str (if isOutgoing doc then - n else n)
  /\ int_of_str (amount doc) = Some (if isOutgoing doc then - n else n).
Proof.
  intros Hdoc n.
  apply build_doc_fields in Hdoc
    as (is_out & amt & token & f & t & Hf & Hout & Hraw & Hamt & _).
  apply transfer_fields_amount in Hf.
  rewrite int_base16_HexBytes in Hf.
  destruct (log_data (item_data item)) as [|b bs] eqn:Hdata; [discriminate|].
  injection Hf as <-. fold n.
  pose proof (be_value_nonneg (b :: bs)) as Hn. fold n in Hn.
  rewrite Hraw, Hamt, Hout, !int_of_str_str.
  repeat split; try assumption; try reflexivity.
  - subst n. now rewrite int_base16_HexBytes.
  - now apply str_nonneg_digits.
Qed.
End Classification.

(* --------------------------------------------------------------------- *)
(** ** The resume point *)
(* --------------------------------------------------------------------- *)

Lemma max_stored_block_spec (l : list Doc) (B : Z) :
  max_stored_block l = Some B <->
  (exists d, In d l /\ blockNumber d = B) /\ (forall d, In d l -> blockNumber d <= B).
Proof.
  destruct l as [|d0 l].
  { split; [discriminate|]. intros [(d & [] & _) _]. }
  cbn [max_stored_block].
  assert (Hgen : forall (l : list Doc) (b0 : Z),
    let m := foldr (fun x acc => Z.max (blockNumber x) acc) b0 l in
    (m = b0 \/ exists d, In d l /\ blockNumber d = m)
    /\ b0 <= m /\ forall d, In d l -> blockNumber d <= m).
  { clear. induction l as [|x l IH]; intros b0; cbn.
    - split; [now left|]. split; [lia|]. intros d [].
    - destruct (IH b0) as (Hm & Hb & Hall).
      set (m := foldr _ b0 l) in *. split; [|split].
      + destruct (Z.max_spec (blockNumber x) m) as [[_ ->] | [_ ->]].
        * destruct Hm as [Hm | (d & Hd & Hm)]; [now left|].
          right. exists d. auto.
        * right. exists x. auto.
      + lia.
      + intros d [<- | Hd]; [lia|]. specialize (Hall d Hd). lia. }
  specialize (Hgen l (blockNumber d0)). cbn zeta in Hgen.
  destruct Hgen as (Hm & Hb & Hall).
  set (m := foldr _ (blockNumber d0) l) in *.
  split.
  - intros [= <-]. split.
    + destruct Hm as [Hm | (d & Hd & Hm)].
      * exists d0. split; [now left | now symmetry].
      * exists d. split; [now right | assumption].
    + intros d [<- | Hd]; [assumption | now apply Hall].
  - intros [(d & Hd & HB) Hle]. f_equal.
    assert (m <= B).
    { destruct Hm as [-> | (d' & Hd' & <-)]; apply Hle; [now left | now right]. }
    assert (B <= m).
    { subst B. destruct Hd as [<- | Hd]; [assumption | now apply Hall]. }
    lia.
Qed.

(** The maximum does not depend on the order in which the documents were
    stored. *)
Lemma max_stored_block_perm (l l' : list Doc) :
  Permutation l l' -> max_stored_block l = max_stored_block l'.
Proof.
  intros Hperm.
  destruct (max_stored_block l) as [B|] eqn:Hl.
  - symmetry. apply max_stored_block_spec.
    apply max_stored_block_spec in Hl as [(d & Hd & HB) Hle]. split.
    + exists d. split; [|assumption]. eapply Permutation_in; eassumption.
    + intros d' Hd'. apply Hle.
      eapply Permutation_in; [symmetry|]; eassumption.
  - destruct l; [|discriminate].
    apply Permutation_nil in Hperm. now subst.
Qed.

(** The sorted lookup returns a document that carries the maximum. *)
Lemma find_one_sort_desc_max (l : list Doc) :
  match find_one_sort_desc l with
  | Some d => max_stored_block l = Some (blockNumber d)
  | None => l = []
  end.
Proof.
  assert (Hnone : forall l, find_one_sort_desc l = None -> l = []).
  { clear. intros [|x l]; [reflexivity|]. cbn.
    destruct (find_one_sort_desc l) as [d1|]; [|discriminate].
    destruct (blockNumber x <? blockNumber d1); discriminate. }
  assert (Hspec : forall l d, find_one_sort_desc l = Some d ->
            In d l /\ forall d', In d' l -> blockNumber d' <= blockNumber d).
  { clear - Hnone. induction l as [|x l IH]; intros d; cbn; [discriminate|].
    destruct (find_one_sort_desc l) as [d1|] eqn:Hf.
    - destruct (IH d1 eq_refl) as [Hin Hle].
      destruct (blockNumber x <? blockNumber d1) eqn:Hlt; intros [= <-].
      + apply Z.ltb_lt in Hlt. split; [now right|].
        intros d' [<- | Hd']; [lia | now apply Hle].
      + apply Z.ltb_ge in Hlt. split; [now left|].
        intros d' [<- | Hd']; [lia|]. specialize (Hle d' Hd'). lia.
    - intros [= <-]. apply Hnone in Hf. subst l.
      split; [now left|]. intros d' [<- | []]. lia. }
  destruct (find_one_sort_desc l) as [d|] eqn:Hf.
  - destruct (Hspec l d Hf) as [Hin Hle].
    apply max_stored_block_spec. split; [now exists d | assumption].
  - now apply Hnone.
Qed.

Section Resume.
Context `{Web3Lib}.

(** C6: when the start of the process succeeds, the resume point is the
    maximum stored block number plus one if the ledger holds any
    document - whatever the order in which the documents were stored -
    and the head the node reports at that moment if the ledger is
    empty. *)
Theorem resume_point (s s' : State) :
  startup s = (Ok tt, s') ->
  match max_stored_block (ledger (world s)) with
  | Some B =>
      start_block s' = B + 1
      /\ forall l', Permutation (ledger (world s)) l' ->
           max_stored_block l' = Some B
  | None =>
      ledger (world s) = []
      /\ start_block s' = head_at_second_read (world s)
  end.
Proof.
  unfold startup, is_connected, block_number, head_at_second_read.
  unfold bind, try_except, rpc, ret, raise, advance.
  pose proof (find_one_sort_desc_max (ledger (world s))) as Hfind.
  destruct s as [sb cache w]. cbn [world start_block] in *.
  destruct w as [heads logs txs blocks faults wfaults led uri ping tr].
  cbn [rpc_faults node_heads ledger mongo_uri mongo_ping record_event
       set_rpc_faults set_node_heads set_world world start_block trace] in *.
  assert (Hperm : forall B, max_stored_block led = Some B ->
            forall l', Permutation led l' -> max_stored_block l' = Some B).
  { intros B HB l' Hp. now rewrite <- (max_stored_block_perm led l' Hp). }
  destruct faults as [|[|] [|[|] [|[|] faults]]];
    destruct heads as [|h1 [|h2 [|h3 heads]]];
    cbn -[find_one_sort_desc max_stored_block];
    try discriminate;
    (destruct uri as [[|c u]|]; cbn -[find_one_sort_desc max_stored_block];
     try discriminate);
    (destruct ping; cbn -[find_one_sort_desc max_stored_block];
     try discriminate);
    destruct (find_one_sort_desc led) as [d|];
    cbn -[find_one_sort_desc max_stored_block];
    try discriminate.
  all: intros Heq; apply (f_equal snd) in Heq; cbn [snd] in Heq;
    rewrite <- Heq.
  all: try (rewrite Hfind; cbn; split; [reflexivity | now apply Hperm]).
  all: subst led; cbn; split; reflexivity.
Qed.
End Resume.

(* --------------------------------------------------------------------- *)
(** ** Relations that the steps of a computation preserve *)
(* --------------------------------------------------------------------- *)

Section Preserved.
Variable R : State -> State -> Prop.
Hypothesis R_refl : forall s, R s s.
Hypothesis R_trans : forall s1 s2 s3, R s1 s2 -> R s2 s3 -> R s1 s3.

Local Abbreviation preserves := (preserves R).

Lemma preserves_ret {A} (a : A) : preserves (ret a).
Proof. intros s. apply R_refl. Qed.

Lemma preserves_raise {A} (e : exn) : preserves (@raise A e).
Proof. intros s. apply R_refl. Qed.

Lemma preserves_lift {A} (r : Res A) : preserves (lift r).
Proof. intros s. apply R_refl. Qed.

Lemma preserves_bind {A B} (m : M A) (k : A -> M B) :
  preserves m -> (forall a, preserves (k a)) -> preserves (bind m k).
Proof.
  intros Hm Hk s. unfold bind. specialize (Hm s).
  destruct (m s) as [[a|e] s1]; cbn [snd] in *; [|exact Hm].
  eapply R_trans; [exact Hm | apply Hk].
Qed.

Lemma preserves_try_except {A} (m : M A) (h : exn -> M A) :
  preserves m -> (forall e, preserves (h e)) -> preserves (try_except m h).
Proof.
  intros Hm Hh s. unfold try_except. specialize (Hm s).
  destruct (m s) as [[a|e] s1]; cbn [snd] in *; [exact Hm|].
  eapply R_trans; [exact Hm | apply Hh].
Qed.

Lemma preserves_for_each {A} (xs : list A) (body : A -> M unit) :
  (forall x, preserves (body x)) -> preserves (for_each xs body).
Proof.
  intros Hbody. induction xs as [|x xs IH]; cbn [for_each].
  - apply preserves_ret.
  - apply preserves_bind; [apply Hbody | intros _; exact IH].
Qed.

Lemma preserves_required {A} (o : option A) : preserves (required o).
Proof. destruct o; [apply preserves_ret | apply preserves_raise]. Qed.

Lemma preserves_with_retries_loop {A} (fn : M A) (retries delay : Z)
    (attempts : list Z) :
  preserves fn -> preserves (sleep delay) ->
  preserves (with_retries_loop fn retries delay attempts).
Proof.
  intros Hfn Hsleep. induction attempts as [|a rest IH]; cbn [with_retries_loop].
  - apply preserves_ret.
  - intros s. specialize (Hfn s).
    destruct (fn s) as [[v|e] s1]; cbn [snd] in *; [exact Hfn|].
    destruct (a =? retries); cbn [snd]; [exact Hfn|].
    eapply R_trans; [exact Hfn|].
    apply (preserves_bind (sleep delay) (fun _ => with_retries_loop fn retries delay rest));
      [exact Hsleep | intros _; exact IH].
Qed.

Lemma preserves_with_retries {A} (fn : M A) (retries delay : Z) :
  preserves fn -> preserves (sleep delay) ->
  preserves (with_retries fn retries delay).
Proof. intros. now apply preserves_with_retries_loop. Qed.

(** The outcome of a retried operation is the outcome of its last
    attempt, made in a state that the earlier attempts and sleeps led
    to. *)
Lemma retry_policy_last {A} (fn : M A) (delay : Z) n s k r s' :
  preserves fn -> preserves (sleep delay) ->
  retry_policy fn delay n s k r s' ->
  exists s0, R s s0 /\ fn s0 = (r, s').
Proof.
  intros Hfn Hsleep Hpol.
  induction Hpol as [n s v s1 Hs | s e s1 Hs | n s e s1 k r s2 Hs Hpol IH].
  - exists s. auto.
  - exists s. auto.
  - destruct IH as (s0 & HR & Hlast). exists s0. split; [|exact Hlast].
    eapply R_trans; [|exact HR].
    eapply R_trans; [|apply Hsleep].
    pose proof (Hfn s) as H1. now rewrite Hs in H1.
Qed.
End Preserved.

(* --------------------------------------------------------------------- *)
(** ** What the steps other than a bulk write leave alone *)
(* --------------------------------------------------------------------- *)

Lemma frame_refl (s : State) : frame s s.
Proof. constructor; auto. Qed.

Lemma frame_trans (s1 s2 s3 : State) : frame s1 s2 -> frame s2 s3 -> frame s1 s3.
Proof.
  intros [] []. constructor; try congruence; auto.
Qed.

Lemma frame_held (s s' : State) : frame s s' -> held s s'.
Proof. intros []. split; assumption. Qed.

Lemma writes_ok_record_event (ev : event) (w : World) :
  writes_ok (record_event ev w)
  = (writes_ok w + if is_write_ok ev then 1 else 0)%nat.
Proof.
  unfold writes_ok. cbn [trace record_event].
  rewrite List.filter_app, length_app. cbn [List.filter].
  destruct (is_write_ok ev); reflexivity.
Qed.

(** Recording an event that is not a successful write, and consuming
    entries of the fault script, is a framed step. *)
Lemma frame_event (ev : event) (s : State) :
  is_write_ok ev = false ->
  frame s (set_world (record_event ev (world s)) s).
Proof.
  intros Hev. constructor; try reflexivity; auto.
  cbn [world set_world]. rewrite writes_ok_record_event, Hev. lia.
Qed.

Lemma frame_world_step (ev : event) (s : State) (w' : World) :
  is_write_ok ev = false ->
  ledger w' = ledger (world s) ->
  write_faults w' = write_faults (world s) ->
  node_logs w' = node_logs (world s) ->
  node_tx w' = node_tx (world s) ->
  node_block w' = node_block (world s) ->
  trace w' = (trace (world s) ++ [ev])%list ->
  (rpc_faults (world s) = [] -> rpc_faults w' = []) ->
  frame s (set_world w' s).
Proof.
  intros Hev Hl Hw Hlogs Htx Hblock Htr Hf.
  constructor; cbn [world set_world start_block]; auto.
  - unfold writes_ok. rewrite Htr, List.filter_app, length_app.
    cbn [List.filter]. rewrite Hev. cbn. lia.
  - intros bn. unfold ts_view. cbn [world set_world block_ts_cache].
    now rewrite Hblock.
Qed.

(** A node call whose answer only moves the head on is a framed step. *)
Lemma frame_rpc {A} (ev : event) (answer : World -> Res A * World) :
  is_write_ok ev = false ->
  (forall w, snd (answer w) = w
             \/ exists hs, snd (answer w) = set_node_heads hs w) ->
  preserves frame (rpc ev answer).
Proof.
  intros Hev Hans s. unfold rpc.
  change (rpc_faults (record_event ev (world s))) with (rpc_faults (world s)).
  destruct (rpc_faults (world s)) as [|[|] fs] eqn:Hf.
  - destruct (Hans (record_event ev (world s))) as [Hw | [hs Hw]];
      destruct (answer (record_event ev (world s))) as [r w3];
      cbn [snd] in *; subst w3;
      apply (frame_world_step ev); auto.
  - cbn [snd]. apply (frame_world_step ev); auto.
    intros Hnil; congruence.
  - destruct (Hans (set_rpc_faults fs (record_event ev (world s)))) as [Hw | [hs Hw]];
      destruct (answer (set_rpc_faults fs (record_event ev (world s)))) as [r w3];
      cbn [snd] in *; subst w3;
      apply (frame_world_step ev); auto; intros Hnil; congruence.
Qed.

Lemma frame_sleep (secs : Z) : preserves frame (sleep secs).
Proof. intros s. apply frame_event. reflexivity. Qed.

Lemma frame_block_number : preserves frame block_number.
Proof.
  apply frame_rpc; [reflexivity|]. intros w.
  destruct (node_heads w) as [|h [|h2 hs]]; cbn [snd]; eauto.
Qed.

Lemma frame_get_logs (a b : Z) : preserves frame (get_logs a b).
Proof. apply frame_rpc; [reflexivity|]. intros w. now left. Qed.

Lemma frame_get_transaction (h : string) : preserves frame (get_transaction h).
Proof.
  apply frame_rpc; [reflexivity|]. intros w. left.
  now destruct (node_tx w h).
Qed.

Lemma frame_get_block (bn : Z) : preserves frame (get_block bn).
Proof.
  apply frame_rpc; [reflexivity|]. intros w. left.
  now destruct (node_block w bn).
Qed.

Lemma frame_with_retries {A} (fn : M A) (retries delay : Z) :
  preserves frame fn -> preserves frame (with_retries fn retries delay).
Proof.
  intros Hfn.
  apply (preserves_with_retries frame frame_refl frame_trans);
    [exact Hfn | apply frame_sleep].
Qed.

(* --------------------------------------------------------------------- *)
(** ** What the node calls return *)
(* --------------------------------------------------------------------- *)

Lemma with_retries_outcome {A} (fn : M A) (delay : Z) (s : State) :
  preserves frame fn ->
  exists s0 r s', frame s s0 /\ fn s0 = (r, s')
                  /\ with_retries fn 3 delay s = (retried r, s').
Proof.
  intros Hfn.
  destruct (with_retries_three fn delay s) as (k & r & s' & Hpol & _ & Heq).
  destruct (retry_policy_last frame frame_refl frame_trans fn delay 3 s k r s'
              Hfn (frame_sleep delay) Hpol) as (s0 & Hfr & Hlast).
  exists s0, r, s'. auto.
Qed.

Lemma retry_policy_bounds {A} (fn : M A) (delay : Z) n s k r s' :
  retry_policy fn delay n s k r s' ->
  (1 <= k <= n)%nat /\ (is_ok r = false -> k = n).
Proof.
  induction 1 as [n s v s1 Hs | s e s1 Hs | n s e s1 k r s2 Hs Hpol IH].
  - split; [lia | discriminate].
  - split; [lia | reflexivity].
  - destruct IH as [Hk Hr]. split; [lia|]. intros Hf. now rewrite (Hr Hf).
Qed.

Lemma retry_policy_trace {A} (fn : M A) (ev : event) (delay : Z) n s k r s' :
  (forall s0, trace (world (snd (fn s0))) = (trace (world s0) ++ [ev])%list) ->
  retry_policy fn delay n s k r s' ->
  trace (world s') = (trace (world s) ++ attempts_trace ev delay k)%list.
Proof.
  intros Hfn.
  induction 1 as [n s v s1 Hs | s e s1 Hs | n s e s1 k r s2 Hs Hpol IH].
  - specialize (Hfn s). now rewrite Hs in Hfn.
  - specialize (Hfn s). now rewrite Hs in Hfn.
  - destruct (retry_policy_bounds _ _ _ _ _ _ _ Hpol) as [Hk _].
    rewrite IH. cbn [sleep snd world set_world record_event trace].
    specialize (Hfn s). rewrite Hs in Hfn. cbn [snd] in Hfn. rewrite Hfn.
    destruct k as [|k]; [lia|]. cbn [attempts_trace].
    rewrite <- !app_assoc. reflexivity.
Qed.

Lemma rpc_trace {A} (ev : event) (answer : World -> Res A * World) (s : State) :
  (forall w, trace (snd (answer w)) = trace w) ->
  trace (world (snd (rpc ev answer s))) = (trace (world s) ++ [ev])%list.
Proof.
  intros Hans. unfold rpc.
  change (rpc_faults (record_event ev (world s))) with (rpc_faults (world s)).
  destruct (rpc_faults (world s)) as [|[|] fs].
  - specialize (Hans (record_event ev (world s))).
    destruct (answer (record_event ev (world s))) as [r w1].
    cbn [snd world set_world] in *. now rewrite Hans.
  - reflexivity.
  - specialize (Hans (set_rpc_faults fs (record_event ev (world s)))).
    destruct (answer (set_rpc_faults fs (record_event ev (world s)))) as [r w1].
    cbn [snd world set_world] in *. now rewrite Hans.
Qed.

Lemma retried_call_rpc {A} (ev : event) (answer : World -> Res A * World)
    (s : State) :
  (forall w, trace (snd (answer w)) = trace w) ->
  retried_call (rpc ev answer) ev s.
Proof.
  intros Hans.
  destruct (with_retries_three (rpc ev answer) 5 s) as (k & r & s' & Hpol & Hk & Heq).
  destruct (retry_policy_bounds _ _ _ _ _ _ _ Hpol) as [_ Hraise].
  exists k. rewrite Heq. cbn [fst snd]. split; [exact Hk|]. split; [|split].
  - eapply retry_policy_trace; [|exact Hpol].
    intros s0. now apply rpc_trace.
  - intros Hlt. destruct r as [v|e]; [reflexivity|].
    specialize (Hraise eq_refl). lia.
  - intros Hf. apply Hraise. now destruct r.
Qed.

(** C9: an operation run under [with_retries] with three retries is
    attempted at least once and at most three times, with a sleep of the
    fixed delay between two attempts; the first success ends the run with
    its result, and the third failure in a row is raised to the caller.
    The three retried node calls of the listener (the log fetch, the
    transaction lookup and the block lookup) run under that one policy:
    each leaves one to three calls in the trace with a sleep of five
    seconds between two of them, fewer than three only on a success. *)
Theorem with_retries_policy :
  (forall (A : Type) (fn : M A) (delay : Z) (s : State),
     exists (k : nat) (r : Res A) (s' : State),
       retry_policy fn delay 3 s k r s'
       /\ (1 <= k <= 3)%nat
       /\ with_retries fn 3 delay s = (retried r, s'))
  /\ (forall a b s, retried_call (get_logs a b) (EvGetLogs a b) s)
  /\ (forall h s, retried_call (get_transaction h) (EvGetTransaction h) s)
  /\ (forall bn s, retried_call (get_block bn) (EvGetBlock bn) s).
Proof.
  split; [intros A fn delay s; apply with_retries_three|].
  split; [|split].
  - intros a b s. apply retried_call_rpc. reflexivity.
  - intros h s. apply retried_call_rpc. intros w.
    now destruct (node_tx w h).
  - intros bn s. apply retried_call_rpc. intros w.
    now destruct (node_block w bn).
Qed.

Example retries_exhausted :
  trace (world (snd (with_retries (get_block 7) 3 5
                       (test_state 0 (test_world 9 [] [true; true; true] [] [])))))
  = [EvGetBlock 7; EvSleep 5; EvGetBlock 7; EvSleep 5; EvGetBlock 7]
  /\ fst (with_retries (get_block 7) 3 5
            (test_state 0 (test_world 9 [] [true; true; true] [] [])))
     = Raise RpcError.
Proof. vm_compute. split; reflexivity. Qed.

Example retries_second_attempt :
  trace (world (snd (with_retries (get_block 7) 3 5
                       (test_state 0 (test_world 9 [] [true; false] [] [])))))
  = [EvGetBlock 7; EvSleep 5; EvGetBlock 7]
  /\ fst (with_retries (get_block 7) 3 5
            (test_state 0 (test_world 9 [] [true; false] [] [])))
     = Ok (Some {| block_timestamp := 1700000007 |}).
Proof. vm_compute. split; reflexivity. Qed.

Lemma rpc_fault_free {A} (ev : event) (answer : World -> Res A * World) (s : State) :
  fault_free s ->
  rpc ev answer s
  = (let '(r, w1) := answer (record_event ev (world s)) in (r, set_world w1 s)).
Proof.
  unfold fault_free, rpc. intros Hf.
  change (rpc_faults (record_event ev (world s))) with (rpc_faults (world s)).
  now rewrite Hf.
Qed.

Lemma rpc_ok_answer {A} (ev : event) (answer : World -> Res A * World)
    (s s' : State) (v : A) :
  rpc ev answer s = (Ok v, s') ->
  exists w, fst (answer w) = Ok v
            /\ node_logs w = node_logs (world s)
            /\ node_tx w = node_tx (world s)
            /\ node_block w = node_block (world s).
Proof.
  unfold rpc.
  change (rpc_faults (record_event ev (world s))) with (rpc_faults (world s)).
  destruct (rpc_faults (world s)) as [|[|] fs]; try discriminate.
  - destruct (answer (record_event ev (world s))) as [r w1] eqn:Ha.
    intros [= -> _]. exists (record_event ev (world s)). now rewrite Ha.
  - destruct (answer (set_rpc_faults fs (record_event ev (world s)))) as [r w1] eqn:Ha.
    intros [= -> _]. exists (set_rpc_faults fs (record_event ev (world s))).
    now rewrite Ha.
Qed.

Lemma get_logs_ok (a b : Z) (s s' : State) (logs : list Log) :
  get_logs a b s = (Ok logs, s') -> logs = node_logs (world s) a b.
Proof.
  intros Hg. apply rpc_ok_answer in Hg as (w & Hans & Hl & _).
  cbn in Hans. injection Hans as <-. now rewrite Hl.
Qed.

Lemma get_block_ok (bn : Z) (s s' : State) (b : Block) :
  get_block bn s = (Ok b, s') -> node_block (world s) bn = Some b.
Proof.
  intros Hg. apply rpc_ok_answer in Hg as (w & Hans & _ & _ & Hb).
  rewrite <- Hb. destruct (node_block w bn); cbn in Hans; congruence.
Qed.

Lemma get_transaction_fault_free (h : string) (s : State) :
  fault_free s ->
  fst (get_transaction h s) = tx_answer (world s) h.
Proof.
  intros Hf. unfold get_transaction. rewrite (rpc_fault_free _ _ s Hf).
  unfold tx_answer. cbn [node_tx record_event].
  now destruct (node_tx (world s) h).
Qed.

Lemma get_block_fault_free (bn : Z) (s : State) :
  fault_free s ->
  fst (get_block bn s) = block_answer (world s) bn.
Proof.
  intros Hf. unfold get_block. rewrite (rpc_fault_free _ _ s Hf).
  unfold block_answer. cbn [node_block record_event].
  now destruct (node_block (world s) bn).
Qed.

Lemma get_logs_fault_free (a b : Z) (s : State) :
  fault_free s ->
  fst (get_logs a b s) = Ok (node_logs (world s) a b).
Proof.
  intros Hf. unfold get_logs. now rewrite (rpc_fault_free _ _ s Hf).
Qed.

(** Without node faults a retried lookup returns what the node holds. *)
Lemma with_retries_fault_free {A} (fn : M A) (answer : State -> Res A)
    (delay : Z) (s : State) :
  preserves frame fn ->
  (forall s0, fault_free s0 -> fst (fn s0) = answer s0) ->
  (forall s0, frame s s0 -> answer s0 = answer s) ->
  fault_free s ->
  exists s', with_retries fn 3 delay s = (retried (answer s), s')
             /\ frame s s'.
Proof.
  intros Hfn Hans Hstable Hf.
  destruct (with_retries_outcome fn delay s Hfn) as (s0 & r & s' & Hfr & Hlast & Heq).
  exists s'. split.
  - rewrite Heq. do 2 f_equal.
    rewrite <- (Hstable s0 Hfr), <- (Hans s0).
    + now rewrite Hlast.
    + apply (frame_no_faults _ _ Hfr Hf).
  - eapply frame_trans; [exact Hfr|].
    pose proof (Hfn s0) as H0. now rewrite Hlast in H0.
Qed.

Lemma frame_cache_insert (s : State) (bn ts : Z) :
  ts_view s bn = Some ts ->
  frame s (set_block_ts_cache (<[bn := ts]> (block_ts_cache s)) s).
Proof.
  intros Hv. constructor; try reflexivity; auto.
  intros bn'. unfold ts_view. cbn [block_ts_cache set_block_ts_cache world].
  destruct (decide (bn = bn')) as [<-|Hne].
  - rewrite lookup_insert_eq. symmetry. exact Hv.
  - now rewrite lookup_insert_ne.
Qed.

(* --------------------------------------------------------------------- *)
(** ** Enrichment *)
(* --------------------------------------------------------------------- *)

Lemma same_view_frames (s t s' t' : State) :
  same_view s t -> frame s s' -> frame t t' -> same_view s' t'.
Proof.
  intros (Hs & Ht & Htx & Hv) Hfs Hft. repeat split.
  - apply (frame_no_faults _ _ Hfs Hs).
  - apply (frame_no_faults _ _ Hft Ht).
  - rewrite (frame_tx _ _ Hfs), (frame_tx _ _ Hft). exact Htx.
  - intros bn. rewrite (frame_ts_view _ _ Hfs), (frame_ts_view _ _ Hft). apply Hv.
Qed.

Section Enrichment.
Context `{Web3Lib}.

Lemma cached_timestamp_frame (bn : Z) : preserves frame (cached_timestamp bn).
Proof.
  intros s. unfold cached_timestamp.
  destruct (block_ts_cache s !! bn) as [ts|] eqn:Hc; [apply frame_refl|].
  unfold bind.
  destruct (with_retries_outcome (get_block bn) 5 s (frame_get_block bn))
    as (s0 & r & s1 & Hfr & Hlast & ->).
  assert (Hfr1 : frame s s1).
  { eapply frame_trans; [exact Hfr|].
    pose proof (frame_get_block bn s0) as H0. now rewrite Hlast in H0. }
  destruct r as [b|e]; cbn [retried required ret raise snd]; [|exact Hfr1].
  eapply frame_trans; [exact Hfr1|]. apply frame_cache_insert.
  rewrite (frame_ts_view _ _ Hfr1). unfold ts_view. rewrite Hc.
  apply get_block_ok in Hlast. rewrite <- (frame_block _ _ Hfr), Hlast.
  reflexivity.
Qed.

Lemma cached_timestamp_fault_free (bn : Z) (s : State) :
  fault_free s ->
  fst (cached_timestamp bn s)
  = match ts_view s bn with Some ts => Ok ts | None => Raise BlockNotFound end.
Proof.
  intros Hf. unfold cached_timestamp, ts_view.
  destruct (block_ts_cache s !! bn) as [ts|] eqn:Hc; [reflexivity|].
  unfold bind.
  destruct (with_retries_fault_free (get_block bn)
              (fun s0 => block_answer (world s0) bn) 5 s
              (frame_get_block bn) (get_block_fault_free bn))
    as (s1 & -> & Hfr); [|exact Hf|].
  { intros s0 Hfr0. unfold block_answer. now rewrite (frame_block _ _ Hfr0). }
  unfold block_answer.
  destruct (node_block (world s) bn) as [b|]; reflexivity.
Qed.

Lemma enrich_frame (item : Item) : preserves frame (enrich item).
Proof.
  unfold enrich.
  apply (preserves_bind frame frame_trans);
    [apply frame_with_retries, frame_get_transaction|].
  intros o. apply (preserves_bind frame frame_trans);
    [apply (preserves_required frame frame_refl)|].
  intros tx. apply (preserves_bind frame frame_trans);
    [apply cached_timestamp_frame|].
  intros ts. apply (preserves_bind frame frame_trans);
    [apply (preserves_lift frame frame_refl)|].
  intros doc. apply (preserves_ret frame frame_refl).
Qed.

(** Without node faults, the outcome of an enrichment is a function of
    the chain and of the timestamps in use. *)
Lemma enrich_fault_free (item : Item) (s : State) :
  fault_free s ->
  fst (enrich item s) = pure_enrich (node_tx (world s)) (ts_view s) item.
Proof.
  intros Hf. unfold enrich, pure_enrich.
  set (tx_hash := HexBytes_hex (log_transactionHash (item_data item))).
  set (bn := log_blockNumber (item_data item)).
  unfold bind at 1.
  destruct (with_retries_fault_free (get_transaction tx_hash)
              (fun s0 => tx_answer (world s0) tx_hash) 5 s
              (frame_get_transaction tx_hash)
              (get_transaction_fault_free tx_hash))
    as (s1 & -> & Hfr); [|exact Hf|].
  { intros s0 Hfr0. unfold tx_answer. now rewrite (frame_tx _ _ Hfr0). }
  unfold tx_answer.
  destruct (node_tx (world s) tx_hash) as [tx|]; cbn [retried]; [|reflexivity].
  unfold bind at 1. cbn [required ret].
  unfold bind at 1.
  pose proof (cached_timestamp_fault_free bn s1
                (frame_no_faults _ _ Hfr Hf)) as Hts.
  rewrite (frame_ts_view _ _ Hfr) in Hts.
  destruct (cached_timestamp bn s1) as [rts s2]. cbn [fst] in Hts. subst rts.
  destruct (ts_view s bn) as [ts|]; [|reflexivity].
  unfold bind, lift, ret.
  destruct (build_doc item tx_hash tx ts); reflexivity.
Qed.

Lemma enrich_op_wf (item : Item) (s s' : State) (op : Op) :
  enrich item s = (Ok op, s') -> op_wf op.
Proof.
  unfold enrich, bind.
  destruct (with_retries _ _ _ s) as [[o|e] s1]; [|discriminate].
  destruct (required o s1) as [[tx|e] s2]; [|discriminate].
  destruct (cached_timestamp _ s2) as [[ts|e] s3]; [|discriminate].
  unfold lift, ret.
  destruct (build_doc _ _ _ _); [|discriminate].
  intros [= <- _]. reflexivity.
Qed.

Lemma enrich_loop_frame (n pos used : nat) (docs : dict Item) (ops : list Op) :
  preserves frame (enrich_loop n pos used docs ops).
Proof.
  revert pos docs ops.
  induction n as [|n IH]; intros pos docs ops s; cbn [enrich_loop];
    destruct (negb (length docs =? used)%nat); try apply frame_refl.
  destruct (docs !! pos) as [[k item]|]; [|apply frame_refl].
  pose proof (enrich_frame item s) as Hs.
  destruct (enrich item s) as [[op|e] s1]; cbn [snd] in Hs;
    (eapply frame_trans; [exact Hs | apply IH]).
Qed.

Lemma enrich_loop_same_view (n pos used : nat) (docs : dict Item)
    (ops : list Op) (s t : State) :
  same_view s t ->
  fst (enrich_loop n pos used docs ops s)
  = fst (enrich_loop n pos used docs ops t).
Proof.
  revert pos docs ops s t.
  induction n as [|n IH]; intros pos docs ops s t Hv; cbn [enrich_loop];
    destruct (negb (length docs =? used)%nat); try reflexivity.
  destruct (docs !! pos) as [[k item]|]; [|reflexivity].
  pose proof Hv as (Hs & Ht & Htx & Hview).
  pose proof (enrich_fault_free item s Hs) as Hrs.
  pose proof (enrich_fault_free item t Ht) as Hrt.
  pose proof (enrich_frame item s) as Hfs.
  pose proof (enrich_frame item t) as Hft.
  assert (Hsame : fst (enrich item s) = fst (enrich item t)).
  { rewrite Hrs, Hrt, Htx. unfold pure_enrich.
    now rewrite (Hview (log_blockNumber (item_data item))). }
  clear Hrs Hrt.
  destruct (enrich item s) as [rs s1], (enrich item t) as [rt t1].
  cbn [fst snd] in *. subst rt.
  pose proof (same_view_frames s t s1 t1 Hv Hfs Hft) as Hv1.
  destruct rs as [op|e]; now apply IH.
Qed.

Lemma enrich_loop_ops_wf (n pos used : nat) (docs : dict Item)
    (ops ops' : list Op) (s s' : State) :
  Forall op_wf ops ->
  enrich_loop n pos used docs ops s = (Ok ops', s') ->
  Forall op_wf ops'.
Proof.
  revert pos docs ops s.
  induction n as [|n IH]; intros pos docs ops s Hwf; cbn [enrich_loop];
    destruct (negb (length docs =? used)%nat); try discriminate.
  - intros [= <- _]. exact Hwf.
  - destruct (docs !! pos) as [[k item]|]; [|intros [= <- _]; exact Hwf].
    destruct (enrich item s) as [[op|e] s1] eqn:He.
    + apply IH. apply Forall_app. split; [exact Hwf|].
      constructor; [|constructor]. eapply enrich_op_wf; eassumption.
    + now apply IH.
Qed.
End Enrichment.

(* --------------------------------------------------------------------- *)
(** ** The ledger under upserts *)
(* --------------------------------------------------------------------- *)

Lemma in_upsert (k : string) (d x : Doc) (l : list Doc) :
  In x (upsert k d l) -> x = d \/ In x l.
Proof.
  induction l as [|y l IH]; cbn [upsert].
  - intros [<- | []]. now left.
  - destruct (String.eqb (_id y) k).
    + intros [<- | Hx]; [now left | right; now right].
    + intros [<- | Hx]; [right; now left|].
      destruct (IH Hx); [now left | right; now right].
Qed.

Lemma ids_upsert (k : string) (d : Doc) (l : list Doc) :
  _id d = k ->
  (In k (ids l) /\ ids (upsert k d l) = ids l)
  \/ (~ In k (ids l) /\ ids (upsert k d l) = (ids l ++ [k])%list).
Proof.
  intros Hd. induction l as [|y l IH]; cbn [upsert ids map].
  - right. split; [intros []|]. cbn. now rewrite Hd.
  - destruct (String.eqb_spec (_id y) k) as [Hy | Hy].
    + left. split; [now left|]. cbn [map]. congruence.
    + cbn [map]. fold (ids (upsert k d l)). fold (ids l).
      destruct IH as [[Hin ->] | [Hin ->]].
      * left. split; [now right | reflexivity].
      * right. split; [|reflexivity]. intros [? | ?]; contradiction.
Qed.

Lemma in_ids_upsert (k k' : string) (d : Doc) (l : list Doc) :
  _id d = k -> In k' (ids l) \/ k' = k -> In k' (ids (upsert k d l)).
Proof.
  intros Hd Hk.
  destruct (ids_upsert k d l Hd) as [[Hin ->] | [Hin ->]].
  - destruct Hk as [Hk | ->]; assumption.
  - apply in_or_app. destruct Hk as [Hk | ->]; [now left | right; now left].
Qed.

(** An upsert keeps the [_id]s unique. *)
Lemma unique_ids_upsert (k : string) (d : Doc) (l : list Doc) :
  _id d = k -> unique_ids l -> unique_ids (upsert k d l).
Proof.
  unfold unique_ids. intros Hd Hnd.
  destruct (ids_upsert k d l Hd) as [[Hin ->] | [Hin ->]]; [exact Hnd|].
  apply List.NoDup_app; [exact Hnd | |].
  - constructor; [intros [] | constructor].
  - intros x Hx [<- | []]. contradiction.
Qed.

Lemma apply_ops_cons (op : Op) (ops : list Op) (l : list Doc) :
  apply_ops (op :: ops) l
  = apply_ops ops (upsert (op_filter_id op) (op_set op) l).
Proof. reflexivity. Qed.

Lemma unique_ids_apply_ops (ops : list Op) (l : list Doc) :
  Forall op_wf ops -> unique_ids l -> unique_ids (apply_ops ops l).
Proof.
  intros Hwf. revert l. induction Hwf as [|op ops Hop Hwf IH]; intros l Hnd.
  - exact Hnd.
  - rewrite apply_ops_cons. apply IH.
    apply unique_ids_upsert; [now symmetry | exact Hnd].
Qed.

Lemma in_ids_apply_ops (ops : list Op) (l : list Doc) (k : string) :
  Forall op_wf ops ->
  In k (ids l) \/ In k (map op_filter_id ops) ->
  In k (ids (apply_ops ops l)).
Proof.
  intros Hwf. revert l. induction Hwf as [|op ops Hop Hwf IH]; intros l Hk.
  - destruct Hk as [Hk | []]. exact Hk.
  - rewrite apply_ops_cons. apply IH. cbn [map] in Hk.
    destruct Hk as [Hk | [Hk | Hk]]; [left | left | now right].
    + apply in_ids_upsert; [now symmetry | now left].
    + apply in_ids_upsert; [now symmetry | right; now symmetry].
Qed.

(** With unique [_id]s, an upsert on a stored key rewrites the one
    document that has it. *)
Lemma upsert_present (k : string) (d : Doc) (l : list Doc) :
  unique_ids l -> In k (ids l) ->
  upsert k d l = map (fun x => if String.eqb (_id x) k then d else x) l.
Proof.
  unfold unique_ids. induction l as [|y l IH]; cbn [upsert ids map];
    intros Hnd Hin; [destruct Hin|].
  apply List.NoDup_cons_iff in Hnd as [Hy Hnd].
  destruct (String.eqb_spec (_id y) k) as [Hyk | Hyk].
  - f_equal. symmetry. rewrite <- (map_id l) at 2. apply map_ext_in.
    intros x Hx. destruct (String.eqb_spec (_id x) k) as [Hxk | _]; [|reflexivity].
    exfalso. apply Hy. rewrite Hyk, <- Hxk. now apply in_map.
  - f_equal. apply IH; [exact Hnd|]. destruct Hin as [Hin | Hin]; [contradiction | exact Hin].
Qed.

Lemma upsert_own (k : string) (d x : Doc) (l : list Doc) :
  unique_ids l -> In x (upsert k d l) -> _id x = k -> x = d.
Proof.
  unfold unique_ids. induction l as [|y l IH]; cbn [upsert ids map];
    intros Hnd Hx Hk.
  - destruct Hx as [<- | []]. reflexivity.
  - apply List.NoDup_cons_iff in Hnd as [Hy Hnd].
    destruct (String.eqb_spec (_id y) k) as [Hyk | Hyk].
    + destruct Hx as [<- | Hx]; [reflexivity|].
      exfalso. apply Hy. rewrite Hyk, <- Hk. now apply in_map.
    + destruct Hx as [<- | Hx]; [contradiction|]. now apply IH.
Qed.

Lemma apply_ops_untouched (ops : list Op) (l : list Doc) (x : Doc) :
  Forall op_wf ops ->
  last_set ops (_id x) = None -> In x (apply_ops ops l) -> In x l.
Proof.
  intros Hwf. revert l. induction Hwf as [|op ops Hop Hwf IH]; intros l Hlast Hx.
  - exact Hx.
  - rewrite apply_ops_cons in Hx. cbn [last_set] in Hlast.
    destruct (last_set ops (_id x)) eqn:Hl; [discriminate|].
    destruct (String.eqb_spec (op_filter_id op) (_id x)) as [Heq | Hne];
      [discriminate|].
    specialize (IH _ eq_refl Hx).
    apply in_upsert in IH as [-> | IH]; [|exact IH].
    exfalso. apply Hne. exact Hop.
Qed.

(** When every key is stored already, a bulk write rewrites each document
    with what the last operation on its key sets. *)
Lemma apply_ops_present (ops : list Op) (l : list Doc) :
  Forall op_wf ops -> unique_ids l ->
  (forall k, In k (map op_filter_id ops) -> In k (ids l)) ->
  apply_ops ops l = map (override ops) l.
Proof.
  intros Hwf. revert l. induction Hwf as [|op ops Hop Hwf IH]; intros l Hnd Hkeys.
  - cbn. symmetry. rewrite <- (map_id l) at 2. now apply map_ext.
  - rewrite apply_ops_cons.
    assert (Hk : In (op_filter_id op) (ids l)) by (apply Hkeys; now left).
    rewrite IH.
    + rewrite (upsert_present _ _ l Hnd Hk), map_map. apply map_ext.
      intros x. unfold override. cbn [last_set].
      destruct (String.eqb_spec (_id x) (op_filter_id op)) as [Hx | Hx].
      * rewrite <- Hop, <- Hx.
        destruct (last_set ops (_id x)); [reflexivity|].
        now rewrite Hx, String.eqb_refl.
      * destruct (last_set ops (_id x)); [reflexivity|].
        destruct (String.eqb_spec (op_filter_id op) (_id x)); congruence.
    + apply unique_ids_upsert; [now symmetry | exact Hnd].
    + intros k Hin. apply in_ids_upsert; [now symmetry|].
      left. apply Hkeys. now right.
Qed.

(** After a bulk write every stored document is what the last operation
    on its key sets, if there is one. *)
Lemma apply_ops_fixed (ops : list Op) (l : list Doc) (x : Doc) :
  Forall op_wf ops -> unique_ids l ->
  In x (apply_ops ops l) -> override ops x = x.
Proof.
  intros Hwf. revert l. induction Hwf as [|op ops Hop Hwf IH]; intros l Hnd Hx.
  - reflexivity.
  - rewrite apply_ops_cons in Hx.
    assert (Hnd1 : unique_ids (upsert (op_filter_id op) (op_set op) l))
      by (apply unique_ids_upsert; [now symmetry | exact Hnd]).
    pose proof (IH _ Hnd1 Hx) as Hfix.
    unfold override in *. cbn [last_set].
    destruct (last_set ops (_id x)) eqn:Hl; [exact Hfix|].
    destruct (String.eqb_spec (op_filter_id op) (_id x)) as [Heq | Hne];
      [|reflexivity].
    symmetry.
    apply (upsert_own (op_filter_id op) (op_set op) x l Hnd); [|now symmetry].
    eapply apply_ops_untouched; eassumption.
Qed.

(** Writing the same operations a second time changes nothing. *)
Lemma apply_ops_idempotent (ops : list Op) (l : list Doc) :
  Forall op_wf ops -> unique_ids l ->
  apply_ops ops (apply_ops ops l) = apply_ops ops l.
Proof.
  intros Hwf Hnd.
  rewrite (apply_ops_present ops (apply_ops ops l) Hwf).
  - rewrite <- (map_id (apply_ops ops l)) at 2. apply map_ext_in.
    intros x Hx. eapply apply_ops_fixed; eassumption.
  - now apply unique_ids_apply_ops.
  - intros k Hk. apply in_ids_apply_ops; [exact Hwf | now right].
Qed.

(* --------------------------------------------------------------------- *)
(** ** One batch *)
(* --------------------------------------------------------------------- *)

Lemma same_chain_refl (s : State) : fault_free s -> same_chain s s.
Proof. intros Hf. repeat split; auto. Qed.

Lemma same_chain_sym (s t : State) : same_chain s t -> same_chain t s.
Proof. intros [(Hs & Ht & Htx & Hv) [Hl Hb]]. repeat split; auto. Qed.

Lemma same_chain_trans (s t u : State) :
  same_chain s t -> same_chain t u -> same_chain s u.
Proof.
  intros [(Hs & Ht & Htx & Hv) [Hl Hb]] [(_ & Hu & Htx' & Hv') [Hl' Hb']].
  repeat split; auto; try congruence.
Qed.

Lemma same_chain_frame (s s' : State) :
  fault_free s -> frame s s' -> same_chain s s'.
Proof.
  intros Hf Hfr. repeat split; auto.
  - apply (frame_no_faults _ _ Hfr Hf).
  - symmetry. apply (frame_tx _ _ Hfr).
  - intros bn. symmetry. apply (frame_ts_view _ _ Hfr).
  - symmetry. apply (frame_logs _ _ Hfr).
  - symmetry. apply (frame_block _ _ Hfr).
Qed.

Section Batch.
Context `{Web3Lib}.

Lemma collect_ops_frame (a b : Z) : preserves frame (collect_ops a b).
Proof.
  intros s. unfold collect_ops.
  pose proof (frame_with_retries (get_logs a b) 3 5 (frame_get_logs a b) s) as H1.
  destruct (with_retries (get_logs a b) 3 5 s) as [[o|e] s1];
    cbn [snd] in *; [|exact H1].
  eapply frame_trans; [exact H1|].
  apply (preserves_bind frame frame_trans);
    [apply (preserves_required frame frame_refl)|].
  intros logs. apply (preserves_bind frame frame_trans);
    [apply (preserves_lift frame frame_refl)|].
  intros [|kv docs]; [apply (preserves_ret frame frame_refl)|].
  apply (preserves_bind frame frame_trans); [apply enrich_loop_frame|].
  intros ops. apply (preserves_ret frame frame_refl).
Qed.

Lemma collect_ops_wf (a b : Z) (s s' : State) (ops : list Op) :
  collect_ops a b s = (Ok (Some ops), s') -> Forall op_wf ops.
Proof.
  unfold collect_ops.
  destruct (with_retries (get_logs a b) 3 5 s) as [[o|e] s1]; [|discriminate].
  unfold bind, lift, ret.
  destruct (required o s1) as [[logs|e] s2]; [|discriminate].
  destruct (classify_logs [] logs) as [[|kv docs]|e]; try discriminate.
  destruct (enrich_loop _ _ _ _ _ s2) as [[ops'|e] s3] eqn:Hloop; [|discriminate].
  intros [= <- _]. eapply enrich_loop_ops_wf; [constructor | exact Hloop].
Qed.

(** Two states that see the same chain collect the same operations. *)
Lemma collect_ops_same_chain (a b : Z) (s t : State) :
  same_chain s t -> fst (collect_ops a b s) = fst (collect_ops a b t).
Proof.
  intros [Hv [Hlogs _]]. pose proof Hv as (Hs & Ht & _).
  unfold collect_ops.
  destruct (with_retries_fault_free (get_logs a b)
              (fun s0 => Ok (node_logs (world s0) a b)) 5 s
              (frame_get_logs a b) (get_logs_fault_free a b))
    as (s1 & -> & Hfs); [|exact Hs|].
  { intros s0 Hfr0. now rewrite (frame_logs _ _ Hfr0). }
  destruct (with_retries_fault_free (get_logs a b)
              (fun s0 => Ok (node_logs (world s0) a b)) 5 t
              (frame_get_logs a b) (get_logs_fault_free a b))
    as (t1 & -> & Hft); [|exact Ht|].
  { intros s0 Hfr0. now rewrite (frame_logs _ _ Hfr0). }
  cbn [retried]. rewrite <- Hlogs.
  unfold bind, required, ret, lift.
  destruct (classify_logs [] (node_logs (world s) a b)) as [[|kv docs]|e];
    try reflexivity.
  pose proof (enrich_loop_same_view (length (kv :: docs)) 0
                (length (kv :: docs)) (kv :: docs) [] s1 t1
                (same_view_frames s t s1 t1 Hv Hfs Hft)) as Hloop.
  destruct (enrich_loop _ _ _ _ _ s1) as [r1 s2],
           (enrich_loop _ _ _ _ _ t1) as [r2 t2].
  cbn [fst] in Hloop. subst r2. destruct r1; reflexivity.
Qed.

(** The bulk write of a batch: the cursor moves to [batch_end + 1]
    exactly when the write succeeds, and stays otherwise. *)
Lemma write_ops_cursor (batch_end : Z) (ops : list Op) (s : State) :
  fst (write_ops batch_end ops s) = Ok tt
  /\ (held s (snd (write_ops batch_end ops s))
      \/ (ops <> []
          /\ start_block (snd (write_ops batch_end ops s)) = batch_end + 1
          /\ writes_ok (world (snd (write_ops batch_end ops s)))
             = S (writes_ok (world s)))).
Proof.
  unfold write_ops. destruct ops as [|op ops].
  { split; [reflexivity|]. left. split; reflexivity. }
  unfold try_except, bind, bulk_write, advance, ret.
  destruct (write_faults (world s)) as [|[|applied] fs]; cbn [fst snd];
    (split; [reflexivity|]).
  - right. split; [discriminate|]. split; [reflexivity|].
    cbn [world set_world set_start_block]. rewrite writes_ok_record_event.
    cbn. unfold writes_ok. cbn [trace set_store]. lia.
  - right. split; [discriminate|]. split; [reflexivity|].
    cbn [world set_world set_start_block]. rewrite writes_ok_record_event.
    cbn. unfold writes_ok. cbn [trace set_store]. lia.
  - left. split; [reflexivity|].
    cbn [world set_world]. rewrite writes_ok_record_event.
    cbn. unfold writes_ok. cbn [trace set_store]. lia.
Qed.

(** On a store that is up, the write applies every operation, and the
    chain is seen as before. *)
Lemma write_ops_store_up (batch_end : Z) (ops : list Op) (s : State) :
  store_up s ->
  let s' := snd (write_ops batch_end ops s) in
  ledger (world s') = apply_ops ops (ledger (world s))
  /\ store_up s'
  /\ (fault_free s -> same_chain s s').
Proof.
  unfold store_up, write_ops. intros Hup. destruct ops as [|op ops].
  { cbn. repeat split; auto. }
  unfold try_except, bind, bulk_write, advance, ret. rewrite Hup.
  cbn. repeat split; auto.
Qed.

(** After a batch the cursor is [batch_end + 1] if its bulk write
    succeeded, and what it was before the batch in every other case. *)
Lemma process_batch_cursor (a b : Z) (s : State) :
  let s' := snd (process_batch a b s) in
  held s s'
  \/ (start_block s' = b + 1
      /\ writes_ok (world s') = S (writes_ok (world s))
      /\ fst (process_batch a b s) = Ok tt).
Proof.
  unfold process_batch, bind.
  pose proof (collect_ops_frame a b s) as Hfr. apply frame_held in Hfr.
  destruct (collect_ops a b s) as [[[ops|]|e] s1]; cbn [snd fst] in *;
    try (left; exact Hfr).
  destruct (write_ops_cursor b ops s1) as [Hok [Hheld | (_ & Hsb & Hw)]].
  - left. destruct Hfr, Hheld. split; congruence.
  - right. destruct Hfr as [_ Hw1]. repeat split; [exact Hsb | congruence | exact Hok].
Qed.
End Batch.

(* --------------------------------------------------------------------- *)
(** ** Re-ingestion *)
(* --------------------------------------------------------------------- *)

Section Idempotence.
Context `{Web3Lib}.

(** Every operation is keyed by the [_id] of its document, which is the
    block number and the log index joined by a dash. *)
Lemma enrich_op_key (item : Item) (s s' : State) (op : Op) :
  enrich item s = (Ok op, s') ->
  op_filter_id op = _id (op_set op)
  /\ _id (op_set op)
     = str (blockNumber (op_set op)) +:+ "-" +:+ str (logIndex (op_set op)).
Proof.
  unfold enrich, bind.
  destruct (with_retries _ _ _ s) as [[o|e] s1]; [|discriminate].
  destruct (required o s1) as [[tx|e] s2]; [|discriminate].
  destruct (cached_timestamp _ s2) as [[ts|e] s3]; [|discriminate].
  unfold lift, ret.
  destruct (build_doc _ _ _ _) as [doc|e] eqn:Hdoc; [|discriminate].
  intros [= <- _]. split; [reflexivity|]. cbn [op_set].
  unfold build_doc in Hdoc.
  destruct (transfer_fields item) as [[[[[is_out amt] token] frm] to]|e];
    [|discriminate].
  cbn [res_bind] in Hdoc.
  destruct (index _ 0); [|discriminate]. cbn [res_bind] in Hdoc.
  injection Hdoc as <-. reflexivity.
Qed.

(** On a store that is up and a node without faults, a batch leaves the
    chain as it is seen, and the ledger is the old one with the
    collected operations applied. *)
Lemma process_batch_store_up (a b : Z) (s : State) :
  fault_free s -> store_up s ->
  let s1 := snd (process_batch a b s) in
  same_chain s s1 /\ store_up s1
  /\ ledger (world s1)
     = match fst (collect_ops a b s) with
       | Ok (Some ops) => apply_ops ops (ledger (world s))
       | _ => ledger (world s)
       end.
Proof.
  intros Hf Hup. unfold process_batch, bind, ret.
  pose proof (collect_ops_frame a b s) as Hfr.
  destruct (collect_ops a b s) as [[[ops|]|e] s'] eqn:Hc; cbn [fst snd] in *.
  - assert (Hup' : store_up s')
      by (unfold store_up; now rewrite (frame_write_faults _ _ Hfr)).
    destruct (write_ops_store_up b ops s' Hup') as (Hl & Hup1 & Hch).
    split; [|split; [exact Hup1|]].
    + eapply same_chain_trans; [apply same_chain_frame; eassumption|].
      apply Hch. apply (frame_no_faults _ _ Hfr Hf).
    + now rewrite Hl, (frame_ledger _ _ Hfr).
  - split; [now apply same_chain_frame|]. split.
    + unfold store_up. now rewrite (frame_write_faults _ _ Hfr).
    + apply (frame_ledger _ _ Hfr).
  - split; [now apply same_chain_frame|]. split.
    + unfold store_up. now rewrite (frame_write_faults _ _ Hfr).
    + apply (frame_ledger _ _ Hfr).
Qed.

(** Processing the batch once more, from any state that sees the same
    chain and holds the ledger that the first pass left, leaves that
    ledger as it is. *)
Lemma process_batch_again (a b : Z) (s t : State) :
  fault_free s -> store_up s -> unique_ids (ledger (world s)) ->
  let s1 := snd (process_batch a b s) in
  same_chain s1 t -> store_up t -> ledger (world t) = ledger (world s1) ->
  ledger (world (snd (process_batch a b t))) = ledger (world s1).
Proof.
  intros Hf Hup Hnd s1 Hch1 Hupt Hlt.
  destruct (process_batch_store_up a b s Hf Hup) as (Hch & _ & Hl).
  fold s1 in Hch, Hl.
  assert (Hst : same_chain s t) by (eapply same_chain_trans; eassumption).
  assert (Hft : fault_free t) by (destruct Hst as [(_ & Ht & _) _]; exact Ht).
  destruct (process_batch_store_up a b t Hft Hupt) as (_ & _ & Hl2).
  rewrite Hl2, <- (collect_ops_same_chain a b s t Hst), Hlt.
  destruct (collect_ops a b s) as [[[ops|]|e] s'] eqn:Hc; cbn [fst] in *;
    try reflexivity.
  rewrite Hl. apply apply_ops_idempotent; [|exact Hnd].
  eapply collect_ops_wf; eassumption.
Qed.

Lemma same_chain_fresh_process (start : Z) (s s1 : State) :
  cache_agrees s -> same_chain s s1 -> same_chain s1 (fresh_process start s1).
Proof.
  intros Hag [(Hs & Hs1 & Htx & Hv) [Hl Hb]].
  repeat split; auto.
  intros bn. rewrite <- Hv. unfold ts_view at 2.
  cbn [fresh_process block_ts_cache world]. rewrite lookup_empty, <- Hb.
  unfold ts_view. destruct (block_ts_cache s !! bn) as [ts|] eqn:Hc;
    [|reflexivity].
  symmetry. now apply Hag.
Qed.

(** C1: with the node and the store answering, processing a block range
    a second time - in the same process, or in a fresh one after a
    restart - leaves the ledger exactly as the first pass left it: the
    same documents with the same fields, one per [_id].  Every write is
    an upsert keyed by the [_id] of its document, which is
    [blockNumber-logIndex], and a bulk write applied twice equals the
    bulk write applied once. *)
Theorem reingestion_idempotent (a b : Z) (s : State) :
  fault_free s -> store_up s -> unique_ids (ledger (world s)) ->
  let s1 := snd (process_batch a b s) in
  unique_ids (ledger (world s1))
  /\ ledger (world (snd (process_batch a b s1))) = ledger (world s1)
  /\ (cache_agrees s -> forall start,
        ledger (world (snd (process_batch a b (fresh_process start s1))))
        = ledger (world s1))
  /\ (forall item s0 s0' op, enrich item s0 = (Ok op, s0') ->
        op_filter_id op = _id (op_set op)
        /\ _id (op_set op)
           = str (blockNumber (op_set op)) +:+ "-" +:+ str (logIndex (op_set op)))
  /\ (forall ops l, Forall op_wf ops -> unique_ids l ->
        apply_ops ops (apply_ops ops l) = apply_ops ops l
        /\ unique_ids (apply_ops ops l)).
Proof.
  intros Hf Hup Hnd s1.
  destruct (process_batch_store_up a b s Hf Hup) as (Hch & Hup1 & Hl).
  fold s1 in Hch, Hup1, Hl.
  assert (Hf1 : fault_free s1) by (destruct Hch as [(_ & H1 & _) _]; exact H1).
  split; [|split; [|split; [|split]]].
  - rewrite Hl.
    destruct (collect_ops a b s) as [[[ops|]|e] s'] eqn:Hc; cbn [fst];
      try exact Hnd.
    apply unique_ids_apply_ops; [|exact Hnd].
    eapply collect_ops_wf; eassumption.
  - apply (process_batch_again a b s s1 Hf Hup Hnd);
      [now apply same_chain_refl | exact Hup1 | reflexivity].
  - intros Hag start.
    apply (process_batch_again a b s (fresh_process start s1) Hf Hup Hnd);
      [now apply (same_chain_fresh_process start s) | exact Hup1 | reflexivity].
  - intros item s0 s0' op. apply enrich_op_key.
  - intros ops l Hwf Hl'. split;
      [now apply apply_ops_idempotent | now apply unique_ids_apply_ops].
Qed.
End Idempotence.

(* --------------------------------------------------------------------- *)
(** ** The cursor over a cycle *)
(* --------------------------------------------------------------------- *)

Lemma in_batches (c e a b : Z) :
  In (a, b) (batches c e) <->
  exists i : nat, (i < Z.to_nat ((e + 1 - c + BATCH_SIZE - 1) / BATCH_SIZE))%nat
    /\ a = c + BATCH_SIZE * Z.of_nat i
    /\ b = Z.min (a + BATCH_SIZE - 1) e.
Proof.
  unfold batches, py_range_step. rewrite map_map, in_map_iff. split.
  - intros (i & [= <- <-] & Hi). apply in_seq in Hi. exists i.
    repeat split. lia.
  - intros (i & Hi & -> & ->). exists i. split; [reflexivity|].
    apply in_seq. lia.
Qed.


Section Cursor.
Context `{Web3Lib}.

(** Over the batches of a cycle the cursor either is held, or stands
    right after a batch of the cycle whose write succeeded. *)
Lemma run_batches_cursor (bs : list (Z * Z)) (s : State) :
  let s' := snd (run_batches bs s) in
  held s s'
  \/ exists b, In b bs /\ start_block s' = snd b + 1
               /\ (writes_ok (world s) < writes_ok (world s'))%nat.
Proof.
  revert s. induction bs as [|[a b] bs IH]; intros s; cbn zeta.
  { left. split; reflexivity. }
  unfold run_batches in *. cbn [for_each fst snd]. unfold bind.
  pose proof (process_batch_cursor a b s) as Hb. cbn zeta in Hb.
  destruct (process_batch a b s) as [[[]|e] s1]; cbn [fst snd] in *.
  - specialize (IH s1). cbn zeta in IH.
    destruct IH as [[Hsb Hw] | (b' & Hin & Hsb & Hw)].
    + destruct Hb as [[Hsb1 Hw1] | (Hsb1 & Hw1 & _)].
      * left. split; congruence.
      * right. exists (a, b). split; [now left|]. cbn [snd].
        split; [congruence | lia].
    + right. exists b'. split; [now right|]. split; [exact Hsb|].
      destruct Hb as [[_ Hw1] | (_ & Hw1 & _)]; lia.
  - destruct Hb as [Hheld | (_ & _ & Hr)]; [now left | discriminate].
Qed.



(** Whatever happens in a batch, the cursor moves only with a
    successful write. *)
Lemma process_batch_no_write (a b : Z) (s : State) :
  writes_ok (world (snd (process_batch a b s))) = writes_ok (world s) ->
  start_block (snd (process_batch a b s)) = start_block s.
Proof.
  intros Hw. destruct (process_batch_cursor a b s) as [[Hsb _] | (_ & Hw1 & _)];
    [exact Hsb | lia].
Qed.
End Cursor.

(* --------------------------------------------------------------------- *)
(** ** A log whose enrichment fails *)
(* --------------------------------------------------------------------- *)

Lemma in_dict_set {V} (k : string) (v : V) (d : dict V) (kv : string * V) :
  In kv (dict_set k v d) -> kv = (k, v) \/ In kv d.
Proof.
  induction d as [|[k' v'] d IH]; cbn [dict_set].
  - intros [<- | []]. now left.
  - destruct (String.eqb k' k).
    + intros [<- | Hin]; [now left | right; now right].
    + intros [<- | Hin]; [right; now left|].
      destruct (IH Hin); [now left | right; now right].
Qed.

(** Storing under a key that the dict does not have makes it one entry
    longer. *)
Lemma dict_set_fresh_length {V} (k : string) (v : V) (d : dict V) :
  (forall kv, In kv d -> fst kv <> k) ->
  length (dict_set k v d) = S (length d).
Proof.
  induction d as [|[k' v'] d IH]; intros Hfresh; cbn [dict_set length];
    [reflexivity|].
  destruct (String.eqb_spec k' k) as [Heq | Hne].
  - exfalso. apply (Hfresh (k', v')); [now left | exact Heq].
  - cbn [length]. rewrite IH; [reflexivity|].
    intros kv Hin. apply Hfresh. now right.
Qed.

Section Requeue.
Context `{Web3Lib}.

Lemma doc_id_dashed (log : Log) : dashed (doc_id_of log).
Proof.
  unfold dashed, doc_id_of. rewrite !chars_app.
  apply in_or_app. right. now left.
Qed.

Lemma classify_step_dashed (docs docs' : dict Item) (log : Log) :
  classify_step docs log = Ok docs' ->
  (forall kv, In kv docs -> dashed (fst kv)) ->
  forall kv, In kv docs' -> dashed (fst kv).
Proof.
  unfold classify_step. intros Hstep Hdocs kv Hin.
  assert (Hset : forall item, In kv (dict_set (doc_id_of log) item docs) ->
            dashed (fst kv)).
  { intros item Hi. apply in_dict_set in Hi as [-> | Hi];
      [apply doc_id_dashed | now apply Hdocs]. }
  destruct (index (log_topics log) 0) as [t0|e]; [|discriminate].
  cbn [res_bind] in Hstep.
  destruct (String.eqb (HexBytes_hex t0) TRANSFER_TOPIC).
  - destruct (topic_address log 1) as [frm|e]; [|discriminate].
    cbn [res_bind] in Hstep.
    destruct (topic_address log 2) as [to|e]; [|discriminate].
    cbn [res_bind] in Hstep.
    destruct ((in_treasury frm || in_treasury to)
              && negb (in_treasury frm && in_treasury to));
      injection Hstep as <-; eauto.
  - destruct (String.eqb (HexBytes_hex t0) NATIVE_RON_TRANSFER_TOPIC).
    + destruct (to_checksum_address (log_address log)) as [em|e]; [|discriminate].
      cbn [res_bind] in Hstep.
      destruct (in_treasury em); injection Hstep as <-; eauto.
    + injection Hstep as <-. eauto.
Qed.

(** Every key of the batch map holds a dash. *)
Lemma classify_logs_dashed (logs : list Log) (docs docs' : dict Item) :
  classify_logs docs logs = Ok docs' ->
  (forall kv, In kv docs -> dashed (fst kv)) ->
  forall kv, In kv docs' -> dashed (fst kv).
Proof.
  revert docs. induction logs as [|log logs IH]; intros docs; cbn [classify_logs].
  - intros [= <-] Hdocs. exact Hdocs.
  - destruct (classify_step docs log) as [docs1|e] eqn:Hstep; [|discriminate].
    cbn [res_bind]. intros Hrest Hdocs. apply (IH docs1 Hrest).
    now apply (classify_step_dashed docs docs1 log).
Qed.

Lemma enrich_loop_size_changed (n pos used : nat) (docs : dict Item)
    (ops : list Op) (s : State) :
  length docs <> used ->
  enrich_loop n pos used docs ops s = (Raise size_changed, s).
Proof.
  intros Hne. apply Nat.eqb_neq in Hne.
  destruct n; cbn [enrich_loop]; now rewrite Hne.
Qed.

(** C3, as the code has it: when the enrichment of an accepted log
    raises, the handler stores the log into the batch map under a new
    key (the bare transaction hash), and the very next step of the
    iteration over that map raises [RuntimeError]: the loop ends there,
    with no further log processed and no operation returned. *)
Theorem per_log_failure_aborts_batch (logs : list Log) (docs : dict Item)
    (pos : nat) (k : string) (item : Item) (e : exn) (ops : list Op)
    (s s1 : State) :
  classify_logs [] logs = Ok docs ->
  docs !! pos = Some (k, item) ->
  enrich item s = (Raise e, s1) ->
  length (dict_set (HexBytes_hex (log_transactionHash (item_data item)))
                   item docs) = S (length docs)
  /\ enrich_loop (length docs - pos) pos (length docs) docs ops s
     = (Raise size_changed, s1).
Proof.
  intros Hclass Hpos Hfail.
  assert (Hlen : length (dict_set (HexBytes_hex (log_transactionHash (item_data item)))
                   item docs) = S (length docs)).
  { apply dict_set_fresh_length. intros kv Hin Heq.
    assert (Hd : dashed (fst kv)).
    { eapply (classify_logs_dashed logs [] docs Hclass); [|exact Hin].
      intros ? []. }
    rewrite Heq in Hd. exact (HexBytes_hex_not_dash _ Hd). }
  split; [exact Hlen|].
  pose proof (lookup_lt_Some docs pos _ Hpos) as Hlt.
  destruct (length docs - pos)%nat as [|n] eqn:Hn; [lia|].
  cbn [enrich_loop]. rewrite Nat.eqb_refl. cbn [negb].
  rewrite Hpos, Hfail.
  apply enrich_loop_size_changed. lia.
Qed.
End Requeue.

(* --------------------------------------------------------------------- *)
(** ** The properties on the sample chain *)
(* --------------------------------------------------------------------- *)

Lemma pair_of_fst {A B} (p : A * B) (a : A) : fst p = a -> p = (a, snd p).
Proof. destruct p as [x y]. cbn. now intros ->. Qed.

Example erc20_both_sides_rejected :
  classify_step (H:=test_web3) [] log_internal = Ok [].
Proof. vm_compute. reflexivity. Qed.

Example erc20_no_side_rejected :
  classify_step (H:=test_web3) [] log_foreign = Ok [].
Proof. vm_compute. reflexivity. Qed.

Example native_record :
  build_doc (H:=test_web3) item_native "0xaa04" sample_tx 1700000102
  = Ok doc_native.
Proof. vm_compute. reflexivity. Qed.

Lemma amount_fields_witness :
  build_doc (H:=test_web3) item_out "0xaa01" sample_tx 1700000100 = Ok doc_out
  /\ be_value (log_data log_out) = 1000
  /\ amountRaw doc_out = str 1000
  /\ amount doc_out = str (- 1000).
Proof.
  assert (H0 : build_doc (H:=test_web3) item_out "0xaa01" sample_tx 1700000100
               = Ok doc_out) by (vm_compute; reflexivity).
  destruct (amount_fields (H:=test_web3) item_out "0xaa01" sample_tx 1700000100
              doc_out H0) as (_ & _ & Hraw & _ & _ & Hamt & _).
  assert (Hv : be_value (log_data log_out) = 1000) by (vm_compute; reflexivity).
  cbn [item_out item_data] in Hraw, Hamt. rewrite Hv in Hraw, Hamt.
  split; [exact H0|]. split; [exact Hv|]. split; [exact Hraw | exact Hamt].
Defined.

Lemma resume_point_witness :
  startup resumed_state = (Ok tt, snd (startup resumed_state))
  /\ max_stored_block (ledger (world resumed_state)) = Some 42
  /\ start_block (snd (startup resumed_state)) = 42 + 1.
Proof.
  assert (H0 : startup resumed_state = (Ok tt, snd (startup resumed_state)))
    by (apply pair_of_fst; vm_compute; reflexivity).
  pose proof (resume_point resumed_state _ H0) as Hres.
  assert (Hmax : max_stored_block (ledger (world resumed_state)) = Some 42)
    by (vm_compute; reflexivity).
  rewrite Hmax in Hres. destruct Hres as [Hsb _].
  split; [exact H0|]. split; [exact Hmax | exact Hsb].
Defined.

Example resume_point_first_start :
  startup first_start_state = (Ok tt, snd (startup first_start_state))
  /\ start_block (snd (startup first_start_state)) = 105.
Proof. split; [apply pair_of_fst|]; vm_compute; reflexivity. Qed.

Lemma reingestion_idempotent_witness :
  fault_free calm_state /\ store_up calm_state
  /\ unique_ids (ledger (world calm_state))
  /\ ids (ledger (world (snd (process_batch (H:=test_web3) 100 104 calm_state))))
     = ["100-3"; "101-0"; "102-0"]
  /\ ledger (world (snd (process_batch (H:=test_web3) 100 104
                           (snd (process_batch (H:=test_web3) 100 104 calm_state)))))
     = ledger (world (snd (process_batch (H:=test_web3) 100 104 calm_state))).
Proof.
  assert (H0 : fault_free calm_state) by reflexivity.
  assert (H1 : store_up calm_state) by reflexivity.
  assert (H2 : unique_ids (ledger (world calm_state))) by constructor.
  destruct (reingestion_idempotent (H:=test_web3) 100 104 calm_state H0 H1 H2)
    as (_ & Hagain & _).
  split; [exact H0|]. split; [exact H1|]. split; [exact H2|]. split.
  - vm_compute. reflexivity.
  - exact Hagain.
Defined.

Lemma per_log_failure_aborts_batch_witness :
  classify_logs (H:=test_web3) [] [log_out; log_in]
  = Ok [("0xaa01-3", item_out);
        ("0xaa02-0", {| item_type := erc20_log; item_data := log_in |})]
  /\ fst (enrich (H:=test_web3) item_out
            (snd (with_retries (get_logs 100 104) 3 5 flaky_state)))
     = Raise RpcError
  /\ process_batch (H:=test_web3) 100 104 flaky_state
     = (Raise size_changed,
        snd (enrich (H:=test_web3) item_out
               (snd (with_retries (get_logs 100 104) 3 5 flaky_state)))).
Proof.
  set (docs := [("0xaa01-3", item_out);
                ("0xaa02-0", {| item_type := erc20_log; item_data := log_in |})]).
  set (s := snd (with_retries (get_logs 100 104) 3 5 flaky_state)).
  assert (H0 : classify_logs (H:=test_web3) [] [log_out; log_in] = Ok docs)
    by (vm_compute; reflexivity).
  assert (H1 : docs !! 0%nat = Some ("0xaa01-3", item_out)) by reflexivity.
  assert (H2 : enrich (H:=test_web3) item_out s
               = (Raise RpcError, snd (enrich (H:=test_web3) item_out s)))
    by (apply pair_of_fst; vm_compute; reflexivity).
  destruct (per_log_failure_aborts_batch (H:=test_web3) [log_out; log_in] docs
              0 "0xaa01-3" item_out RpcError [] s _ H0 H1 H2) as (_ & Hloop).
  split; [exact H0|]. split; [now rewrite H2|].
  assert (Hlogs : with_retries (get_logs 100 104) 3 5 flaky_state
                  = (Ok (Some [log_out; log_in]), s))
    by (apply pair_of_fst; vm_compute; reflexivity).
  unfold process_batch, bind, collect_ops. rewrite Hlogs.
  unfold bind, required, ret, lift. rewrite H0.
  change (length docs - 0)%nat with (length docs) in Hloop.
  unfold docs in *. rewrite Hloop. reflexivity.
Defined.

(** The cycle that contains such a batch: the [RuntimeError] reaches the
    handler of the cycle, which sleeps [RETRY_DELAY]; the second accepted
    log was never looked up, nothing was written and the cursor has not
    moved. *)
Example per_log_failure_ends_cycle :
  let s1 := snd (run_cycle (H:=test_web3) flaky_cycle_state) in
  trace (world s1)
  = [EvBlockNumber; EvGetLogs 100 104;
     EvGetTransaction "0xaa01"; EvSleep 5;
     EvGetTransaction "0xaa01"; EvSleep 5;
     EvGetTransaction "0xaa01"; EvSleep RETRY_DELAY]
  /\ ledger (world s1) = []
  /\ start_block s1 = 100.
Proof. vm_compute. repeat split; reflexivity. Qed.

(** C2, on the code: the first of two batches of a cycle (blocks 100 to
    199) has a qualifying transfer and its bulk write fails; the cursor
    stays at 100 after that batch, but the second batch (blocks 200 to
    250) writes successfully and moves the cursor to 251.  The next cycle
    starts at 251: the range 100 to 199 is never fetched again and its
    record [150-0] never reaches the ledger. *)
Theorem failed_write_skipped_by_later_batch :
  let s1 := snd (run_cycle (H:=test_web3) skip_state) in
  let s2 := snd (run_cycle (H:=test_web3) s1) in
  batches 100 250 = [(100, 199); (200, 250)]
  /\ start_block (snd (process_batch (H:=test_web3) 100 199
                         (snd (block_number skip_state)))) = 100
  /\ trace (world s1)
     = [EvBlockNumber;
        EvGetLogs 100 199; EvGetTransaction "0xbb01"; EvGetBlock 150;
        EvBulkWrite ["150-0"] false;
        EvGetLogs 200 250; EvGetTransaction "0xbb02"; EvGetBlock 220;
        EvBulkWrite ["220-0"] true;
        EvSleep CYCLE_DELAY]
  /\ start_block s1 = 251
  /\ ids (ledger (world s1)) = ["220-0"]
  /\ trace (world s2)
     = (trace (world s1)
        ++ [EvBlockNumber; EvGetLogs 251 350; EvGetLogs 351 399;
            EvSleep CYCLE_DELAY])%list
  /\ ids (ledger (world s2)) = ["220-0"].
Proof. vm_compute. repeat split; reflexivity. Qed.

(* ===================================================================== *)
(** * Further properties of the listener *)
(* ===================================================================== *)

(* --------------------------------------------------------------------- *)
(** ** The batches of a cycle *)
(* --------------------------------------------------------------------- *)

Lemma batches_length (start e : Z) :
  length (batches start e)
  = Z.to_nat ((e + 1 - start + BATCH_SIZE - 1) / BATCH_SIZE).
Proof. unfold batches, py_range_step. now rewrite !length_map, length_seq. Qed.

Lemma batches_lookup (start e : Z) (i : nat) :
  (i < length (batches start e))%nat ->
  batches start e !! i
  = Some (start + BATCH_SIZE * Z.of_nat i,
          Z.min (start + BATCH_SIZE * Z.of_nat i + BATCH_SIZE - 1) e).
Proof.
  rewrite batches_length. intros Hi. unfold batches, py_range_step.
  rewrite !list_lookup_fmap, lookup_seq_lt by exact Hi. reflexivity.
Qed.

(** X1: when there are blocks to process, the batches of a cycle split
    the range from the cursor to the effective end into consecutive
    pieces of at most [BATCH_SIZE] blocks, in increasing order: the i-th
    batch starts [BATCH_SIZE * i] blocks after the cursor, every batch
    lies inside the range, every block of the range is in one batch and
    in no other, and there are [ceil(total_blocks / BATCH_SIZE)] of
    them. *)
Theorem batches_partition (start e : Z) :
  start <= e ->
  length (batches start e) = Z.to_nat ((e - start + 1 + BATCH_SIZE - 1) / BATCH_SIZE)
  /\ (forall i : nat, (i < length (batches start e))%nat ->
        batches start e !! i
        = Some (start + BATCH_SIZE * Z.of_nat i,
                Z.min (start + BATCH_SIZE * Z.of_nat i + BATCH_SIZE - 1) e))
  /\ (forall a b, In (a, b) (batches start e) ->
        start <= a /\ a <= b /\ b <= e /\ b - a < BATCH_SIZE)
  /\ (forall n, start <= n <= e ->
        exists a b, In (a, b) (batches start e) /\ a <= n <= b)
  /\ (forall n a b a' b',
        In (a, b) (batches start e) -> In (a', b') (batches start e) ->
        a <= n <= b -> a' <= n <= b' -> (a, b) = (a', b')).
Proof.
  intros Hle. unfold BATCH_SIZE in *.
  assert (Hcount : forall i : nat,
            (i < Z.to_nat ((e + 1 - start + 100 - 1) / 100))%nat <->
            start + 100 * Z.of_nat i <= e).
  { intros i.
    assert (0 <= (e + 1 - start + 100 - 1) / 100)
      by (apply Z.div_pos; lia).
    split; intros Hi.
    - assert (Z.of_nat i < (e + 1 - start + 100 - 1) / 100) by lia.
      assert (Z.of_nat i + 1 <= (e + 1 - start + 100 - 1) / 100) by lia.
      pose proof (Z.mul_div_le (e + 1 - start + 100 - 1) 100 ltac:(lia)).
      nia.
    - assert (Z.of_nat i + 1 <= (e + 1 - start + 100 - 1) / 100); [|lia].
      apply Z.div_le_lower_bound; lia. }
  split; [|split; [|split; [|split]]].
  - rewrite batches_length. unfold BATCH_SIZE. do 2 f_equal. lia.
  - intros i Hi. now apply batches_lookup.
  - intros a b Hin. apply in_batches in Hin as (i & Hi & -> & ->).
    unfold BATCH_SIZE in *. apply Hcount in Hi. lia.
  - intros n Hn.
    set (i := Z.to_nat ((n - start) / 100)).
    assert (Hq : 0 <= (n - start) / 100) by (apply Z.div_pos; lia).
    pose proof (Z.mul_div_le (n - start) 100 ltac:(lia)) as Hlo.
    pose proof (Z.mul_succ_div_gt (n - start) 100 ltac:(lia)) as Hhi.
    assert (Hi : Z.of_nat i = (n - start) / 100) by (unfold i; lia).
    exists (start + 100 * Z.of_nat i),
           (Z.min (start + 100 * Z.of_nat i + 100 - 1) e).
    split.
    + apply in_batches. exists i. unfold BATCH_SIZE. split; [|split; reflexivity].
      apply Hcount. lia.
    + lia.
  - intros n a b a' b' Hin Hin' Hn Hn'.
    apply in_batches in Hin as (i & _ & -> & ->).
    apply in_batches in Hin' as (j & _ & -> & ->).
    unfold BATCH_SIZE in *.
    assert (i = j) by lia. now subst.
Qed.

Lemma batches_partition_witness :
  100 <= 250
  /\ batches 100 250 = [(100, 199); (200, 250)]
  /\ length (batches 100 250) = 2%nat.
Proof.
  destruct (batches_partition 100 250 ltac:(lia)) as (Hlen & _).
  split; [lia|]. split; [reflexivity|].
  rewrite Hlen. reflexivity.
Defined.


(* --------------------------------------------------------------------- *)
(** ** [with_retries] for any number of retries *)
(* --------------------------------------------------------------------- *)

Lemma py_range_from_1 (n : nat) :
  py_range 1 (Z.of_nat n + 1) = map Z.of_nat (seq 1 n).
Proof.
  unfold py_range, py_range_step.
  replace ((Z.of_nat n + 1 - 1 + 1 - 1) / 1) with (Z.of_nat n)
    by (rewrite Z.div_1_r; lia).
  rewrite Nat2Z.id, <- seq_shift, map_map. apply map_ext.
  intros i. lia.
Qed.

Lemma py_range_empty (a b : Z) : b <= a -> py_range a b = [].
Proof.
  intros Hle. unfold py_range, py_range_step.
  replace (Z.to_nat ((b - a + 1 - 1) / 1)) with 0%nat; [reflexivity|].
  rewrite Z.div_1_r. lia.
Qed.

Lemma with_retries_loop_policy {A} (fn : M A) (delay : Z) (m j : nat) (s : State) :
  exists (k : nat) (r : Res A) (s' : State),
    retry_policy fn delay (S m) s k r s'
    /\ with_retries_loop fn (Z.of_nat (j + m)) delay
         (map Z.of_nat (seq j (S m))) s = (retried r, s').
Proof.
  revert j s. induction m as [|m IH]; intros j s; cbn [seq map with_retries_loop];
    destruct (fn s) as [[v|e] s1] eqn:Hs.
  - exists 1%nat, (Ok v), s1. split; [now constructor | reflexivity].
  - exists 1%nat, (Raise e), s1. split; [now constructor|].
    replace (j + 0)%nat with j by lia. now rewrite Z.eqb_refl.
  - exists 1%nat, (Ok v), s1. split; [now constructor | reflexivity].
  - replace (Z.of_nat j =? Z.of_nat (j + S m)) with false
      by (symmetry; apply Z.eqb_neq; lia).
    unfold bind. cbn [sleep].
    destruct (IH (S j) (set_world (record_event (EvSleep delay) (world s1)) s1))
      as (k & r & s' & Hpol & Heq).
    exists (S k), r, s'. split.
    + eapply retry_again; [exact Hs | exact Hpol].
    + replace (j + S m)%nat with (S j + m)%nat by lia. exact Heq.
Qed.

(** X2: [with_retries] with any positive number [n] of retries attempts
    the operation between one and [n] times, sleeping the delay between
    two attempts, returns the first success at once and raises the
    [n]-th failure; with zero or a negative number of retries it does not
    call the operation at all and returns [None], leaving the state as it
    was. *)
Theorem with_retries_any_count {A} (fn : M A) (delay : Z) :
  (forall (n : nat) (s : State),
     exists (k : nat) (r : Res A) (s' : State),
       retry_policy fn delay (S n) s k r s'
       /\ (1 <= k <= S n)%nat
       /\ (is_ok r = false -> k = S n)
       /\ with_retries fn (Z.of_nat (S n)) delay s = (retried r, s'))
  /\ (forall (retries : Z) (s : State),
        retries <= 0 -> with_retries fn retries delay s = (Ok None, s)).
Proof.
  split.
  - intros n s. unfold with_retries. rewrite py_range_from_1.
    destruct (with_retries_loop_policy fn delay n 1 s) as (k & r & s' & Hpol & Heq).
    destruct (retry_policy_bounds _ _ _ _ _ _ _ Hpol) as [Hk Hraise].
    exists k, r, s'. repeat split; try assumption; lia.
  - intros retries s Hle. unfold with_retries.
    rewrite py_range_empty by lia. reflexivity.
Qed.

(* --------------------------------------------------------------------- *)
(** ** The shape of a selector *)
(* --------------------------------------------------------------------- *)

Lemma safe_selector_as_text (v : pyval) :
  safe_selector v = "0x"
  \/ exists ds, chars (safe_selector v) = "0"%char :: "x"%char :: ds
                /\ length ds = 8%nat.
Proof.
  assert (Htext : forall s, safe_selector (PyStr s) = "0x"
            \/ exists ds, chars (safe_selector (PyStr s)) = "0"%char :: "x"%char :: ds
                          /\ length ds = 8%nat).
  { intros s. destruct (safe_selector_text s)
      as [H0 | (_ & _ & Hsel & ds & Hds & Hl & _)]; [now left|].
    right. exists ds. now rewrite Hsel. }
  destruct v as [|s|bs|bs|n]; try (left; reflexivity).
  - apply Htext.
  - apply (Htext (HexBytes_hex bs)).
  - apply (Htext (bytes_hex bs)).
Qed.

(** X3: whatever the input, the method that [safe_selector] returns
    starts with [0x] and has two or ten characters, and it is a fixed
    point: extracting the selector of a method gives that method back. *)
Theorem safe_selector_fixed_point (v : pyval) :
  startswith "0x" (safe_selector v) = true
  /\ (String.length (safe_selector v) = 2%nat
      \/ String.length (safe_selector v) = 10%nat)
  /\ safe_selector (PyStr (safe_selector v)) = safe_selector v.
Proof.
  destruct (safe_selector_as_text v) as [-> | (ds & Hds & Hlen)].
  { repeat split. now left. }
  rewrite <- (text_chars (safe_selector v)), Hds.
  destruct ds as [|c1 [|c2 [|c3 [|c4 [|c5 [|c6 [|c7 [|c8 [|c9 ds]]]]]]]]];
    try discriminate.
  repeat split. now right.
Qed.

(* --------------------------------------------------------------------- *)
(** ** The batch map *)
(* --------------------------------------------------------------------- *)

Lemma dict_set_keys {V} (k : string) (v : V) (d : dict V) :
  (In k (map fst d) /\ map fst (dict_set k v d) = map fst d)
  \/ (~ In k (map fst d) /\ map fst (dict_set k v d) = (map fst d ++ [k])%list).
Proof.
  induction d as [|[k' v'] d IH]; cbn [dict_set map fst].
  - right. split; [intros [] | reflexivity].
  - destruct (String.eqb_spec k' k) as [Heq | Hne].
    + left. split; [now left|]. cbn [map fst]. now rewrite Heq.
    + cbn [map fst]. destruct IH as [[Hin ->] | [Hin ->]].
      * left. split; [now right | reflexivity].
      * right. split; [|reflexivity]. intros [? | ?]; contradiction.
Qed.

Lemma dict_set_keys_nodup {V} (k : string) (v : V) (d : dict V) :
  List.NoDup (map fst d) -> List.NoDup (map fst (dict_set k v d)).
Proof.
  intros Hnd. destruct (dict_set_keys k v d) as [[_ ->] | [Hin ->]]; [exact Hnd|].
  apply List.NoDup_app; [exact Hnd | |].
  - constructor; [intros [] | constructor].
  - intros x Hx [<- | []]. contradiction.
Qed.

Lemma dict_set_length_le {V} (k : string) (v : V) (d : dict V) :
  (length (dict_set k v d) <= S (length d))%nat.
Proof.
  rewrite <- (length_map fst (dict_set k v d)), <- (length_map fst d).
  destruct (dict_set_keys k v d) as [[_ ->] | [_ ->]];
    [|rewrite length_app; cbn]; lia.
Qed.

Section BatchMap.
Context `{Web3Lib}.

Lemma classify_step_cases (docs docs' : dict Item) (log : Log) :
  classify_step docs log = Ok docs' ->
  docs' = docs
  \/ exists item, item_data item = log /\ accepted item
                  /\ docs' = dict_set (doc_id_of log) item docs.
Proof.
  unfold classify_step.
  destruct (index (log_topics log) 0) as [t0|e] eqn:Ht0; [|discriminate].
  cbn [res_bind].
  destruct (String.eqb_spec (HexBytes_hex t0) TRANSFER_TOPIC) as [Ht | Ht].
  - destruct (topic_address log 1) as [frm|e] eqn:Hfrm; [|discriminate].
    cbn [res_bind].
    destruct (topic_address log 2) as [to|e] eqn:Hto; [|discriminate].
    cbn [res_bind].
    destruct ((in_treasury frm || in_treasury to)
              && negb (in_treasury frm && in_treasury to)) eqn:Hacc;
      intros [= <-]; [right | now left].
    eexists. split; [|split; [|reflexivity]]; [reflexivity|].
    exists t0. cbn [item_data item_type]. split; [exact Ht0|].
    split; [exact Ht|]. exists frm, to. repeat split; try assumption.
    unfold exactly_one. now destruct (in_treasury frm), (in_treasury to).
  - destruct (String.eqb_spec (HexBytes_hex t0) NATIVE_RON_TRANSFER_TOPIC)
      as [Hn | Hn]; [|intros [= <-]; now left].
    destruct (to_checksum_address (log_address log)) as [em|e] eqn:Hem;
      [|discriminate].
    cbn [res_bind].
    destruct (in_treasury em) eqn:Hin; intros [= <-]; [right | now left].
    eexists. split; [|split; [|reflexivity]]; [reflexivity|].
    exists t0. cbn [item_data item_type]. split; [exact Ht0|].
    split; [exact Hn|]. exists em. now split.
Qed.

Lemma classify_logs_invariant (logs seen : list Log) (docs docs' : dict Item) :
  classify_logs docs logs = Ok docs' ->
  List.NoDup (map fst docs) ->
  (forall k item, In (k, item) docs ->
     In (item_data item) seen /\ k = doc_id_of (item_data item) /\ accepted item) ->
  List.NoDup (map fst docs')
  /\ (length docs' <= length docs + length logs)%nat
  /\ (forall k item, In (k, item) docs' ->
        In (item_data item) (seen ++ logs) /\ k = doc_id_of (item_data item)
        /\ accepted item).
Proof.
  revert seen docs. induction logs as [|log logs IH]; intros seen docs;
    cbn [classify_logs].
  - intros [= <-] Hnd Hinv. split; [exact Hnd|]. split; [lia|].
    intros k item Hin. rewrite app_nil_r. now apply Hinv.
  - destruct (classify_step docs log) as [docs1|e] eqn:Hstep; [|discriminate].
    cbn [res_bind]. intros Hrest Hnd Hinv.
    assert (Hinv1 : forall k item, In (k, item) docs1 ->
              In (item_data item) (seen ++ [log])
              /\ k = doc_id_of (item_data item) /\ accepted item).
    { intros k item Hin.
      destruct (classify_step_cases docs docs1 log Hstep)
        as [-> | (item0 & Hdata & Hacc & ->)].
      - destruct (Hinv k item Hin) as (Hs & Hk & Ha).
        split; [apply in_or_app; now left | now split].
      - apply in_dict_set in Hin as [[= -> ->] | Hin].
        + rewrite Hdata. split; [apply in_or_app; right; now left | now split].
        + destruct (Hinv k item Hin) as (Hs & Hk & Ha).
          split; [apply in_or_app; now left | now split]. }
    assert (Hnd1 : List.NoDup (map fst docs1)).
    { destruct (classify_step_cases docs docs1 log Hstep)
        as [-> | (item0 & _ & _ & ->)];
        [exact Hnd | now apply dict_set_keys_nodup]. }
    assert (Hlen1 : (length docs1 <= S (length docs))%nat).
    { destruct (classify_step_cases docs docs1 log Hstep)
        as [-> | (item0 & _ & _ & ->)]; [lia | apply dict_set_length_le]. }
    destruct (IH (seen ++ [log])%list docs1 Hrest Hnd1 Hinv1) as (Hnd' & Hlen' & Hinv').
    split; [exact Hnd'|]. split; [cbn [length]; lia|].
    intros k item Hin. specialize (Hinv' k item Hin).
    rewrite <- app_assoc in Hinv'. exact Hinv'.
Qed.

(** X4: the batch map that the classification of the fetched logs builds
    has one entry per key; each entry is one of the fetched logs, stored
    under the key [txhash-logIndex] of that log, and has passed the test
    of its signature (exactly one treasury side for an ERC-20 transfer, a
    treasury emitter for a native one); so the map never has more entries
    than there are logs. *)
Theorem classified_map (logs : list Log) (docs : dict Item) :
  classify_logs [] logs = Ok docs ->
  List.NoDup (map fst docs)
  /\ (length docs <= length logs)%nat
  /\ (forall k item, In (k, item) docs ->
        In (item_data item) logs /\ k = doc_id_of (item_data item)
        /\ accepted item).
Proof.
  intros Hclass.
  destruct (classify_logs_invariant logs [] [] docs Hclass)
    as (Hnd & Hlen & Hinv).
  - constructor.
  - intros k item [].
  - split; [exact Hnd|]. split; [exact Hlen | exact Hinv].
Qed.

Lemma classify_step_short_topics (docs : dict Item) (log : Log) (t0 : list byte) :
  index (log_topics log) 0 = Ok t0 ->
  HexBytes_hex t0 = TRANSFER_TOPIC ->
  (length (log_topics log) < 3)%nat ->
  is_ok (classify_step docs log) = false.
Proof.
  intros Ht0 Ht Hlen. unfold classify_step. rewrite Ht0. cbn [res_bind].
  rewrite Ht, String.eqb_refl.
  destruct (topic_address log 1) as [frm|e]; [|reflexivity]. cbn [res_bind].
  unfold topic_address, index.
  rewrite (lookup_ge_None_2 (log_topics log) 2) by lia. reflexivity.
Qed.

Lemma classify_logs_raises (logs : list Log) (log : Log) (docs : dict Item) :
  In log logs ->
  (forall docs0, is_ok (classify_step docs0 log) = false) ->
  is_ok (classify_logs docs logs) = false.
Proof.
  intros Hin Hbad. revert docs.
  induction logs as [|l logs IH]; intros docs; [destruct Hin|].
  cbn [classify_logs].
  destruct (classify_step docs l) as [docs1|e] eqn:Hstep; [|reflexivity].
  cbn [res_bind]. destruct Hin as [-> | Hin].
  - specialize (Hbad docs). rewrite Hstep in Hbad. discriminate.
  - now apply IH.
Qed.

(** X5: a fetched log that carries the transfer signature but fewer than
    three topics (a transfer event whose addresses are not indexed) makes
    the classification raise, outside every handler of the batch: the
    batch raises to the handler of the cycle, whatever the other logs
    are, with nothing written and the cursor where it was. *)
Theorem transfer_log_without_addresses (a b : Z) (s s1 : State)
    (logs : list Log) (log : Log) (t0 : list byte) :
  with_retries (get_logs a b) 3 5 s = (Ok (Some logs), s1) ->
  In log logs ->
  index (log_topics log) 0 = Ok t0 ->
  HexBytes_hex t0 = TRANSFER_TOPIC ->
  (length (log_topics log) < 3)%nat ->
  exists e, process_batch a b s = (Raise e, s1)
            /\ start_block s1 = start_block s
            /\ ledger (world s1) = ledger (world s)
            /\ writes_ok (world s1) = writes_ok (world s).
Proof.
  intros Hlogs Hin Ht0 Ht Hlen.
  assert (Hbad : is_ok (classify_logs [] logs) = false).
  { apply (classify_logs_raises logs log); [exact Hin|].
    intros docs0. now apply (classify_step_short_topics docs0 log t0). }
  destruct (classify_logs [] logs) as [docs|e] eqn:Hclass; [discriminate|].
  pose proof (frame_with_retries (get_logs a b) 3 5 (frame_get_logs a b) s) as Hfr.
  rewrite Hlogs in Hfr. cbn [snd] in Hfr.
  exists e. split; [|split; [|split]].
  - unfold process_batch, bind, collect_ops. rewrite Hlogs.
    unfold bind, required, ret, lift. now rewrite Hclass.
  - apply (frame_start_block _ _ Hfr).
  - apply (frame_ledger _ _ Hfr).
  - apply (frame_writes_ok _ _ Hfr).
Qed.
End BatchMap.

Lemma classified_map_witness :
  classify_logs (H:=test_web3) []
    [log_out; log_in; log_foreign; log_internal; log_native; log_out]
  = Ok [("0xaa01-3", item_out);
        ("0xaa02-0", {| item_type := erc20_log; item_data := log_in |});
        ("0xaa04-0", item_native)]
  /\ List.NoDup ["0xaa01-3"; "0xaa02-0"; "0xaa04-0"].
Proof.
  assert (H0 : classify_logs (H:=test_web3) []
                 [log_out; log_in; log_foreign; log_internal; log_native; log_out]
               = Ok [("0xaa01-3", item_out);
                     ("0xaa02-0", {| item_type := erc20_log; item_data := log_in |});
                     ("0xaa04-0", item_native)])
    by (vm_compute; reflexivity).
  destruct (classified_map (H:=test_web3) _ _ H0) as (Hnd & _).
  split; [exact H0 | exact Hnd].
Defined.

Lemma transfer_log_without_addresses_witness :
  fst (with_retries (get_logs 100 104) 3 5 bare_state)
  = Ok (Some [log_out; log_bare; log_in])
  /\ In log_bare [log_out; log_bare; log_in]
  /\ index (log_topics log_bare) 0 = Ok transfer_topic_bytes
  /\ HexBytes_hex transfer_topic_bytes = TRANSFER_TOPIC
  /\ (length (log_topics log_bare) < 3)%nat
  /\ fst (process_batch (H:=test_web3) 100 104 bare_state) = Raise IndexError.
Proof.
  assert (H0 : with_retries (get_logs 100 104) 3 5 bare_state
               = (Ok (Some [log_out; log_bare; log_in]),
                  snd (with_retries (get_logs 100 104) 3 5 bare_state)))
    by (apply pair_of_fst; vm_compute; reflexivity).
  assert (H1 : In log_bare [log_out; log_bare; log_in]) by (right; now left).
  assert (H2 : index (log_topics log_bare) 0 = Ok transfer_topic_bytes)
    by reflexivity.
  assert (H3 : HexBytes_hex transfer_topic_bytes = TRANSFER_TOPIC)
    by (vm_compute; reflexivity).
  assert (H4 : (length (log_topics log_bare) < 3)%nat) by (cbn; lia).
  destruct (transfer_log_without_addresses (H:=test_web3) 100 104 bare_state _ _
              log_bare transfer_topic_bytes H0 H1 H2 H3 H4) as (e & Hp & _).
  split; [now rewrite H0|]. split; [exact H1|]. split; [exact H2|].
  split; [exact H3|]. split; [exact H4|].
  vm_compute. reflexivity.
Defined.

(* --------------------------------------------------------------------- *)
(** ** What a finished enrichment loop returns *)
(* --------------------------------------------------------------------- *)

Lemma with_retries_ok_inv {A} (fn : M A) (delay : Z) (s s1 : State) (o : option A) :
  preserves frame fn ->
  with_retries fn 3 delay s = (Ok o, s1) ->
  exists s0 v, frame s s0 /\ fn s0 = (Ok v, s1) /\ o = Some v.
Proof.
  intros Hfn Heq.
  destruct (with_retries_outcome fn delay s Hfn) as (s0 & r & s' & Hfr & Hlast & Hw).
  rewrite Heq in Hw. destruct r as [v|e]; cbn [retried] in Hw; [|discriminate].
  injection Hw as -> ->. exists s0, v. auto.
Qed.

Section Finished.
Context `{Web3Lib}.

Lemma cached_timestamp_ok (bn ts : Z) (s s' : State) :
  cached_timestamp bn s = (Ok ts, s') ->
  ts_view s bn = Some ts /\ block_ts_cache s' !! bn = Some ts.
Proof.
  unfold cached_timestamp, ts_view.
  destruct (block_ts_cache s !! bn) as [ts0|] eqn:Hc.
  - intros [= <- <-]. now split.
  - unfold bind.
    destruct (with_retries (get_block bn) 3 5 s) as [[o|e] s1] eqn:Hw;
      [|discriminate].
    destruct (with_retries_ok_inv _ _ _ _ _ (frame_get_block bn) Hw)
      as (s0 & blk & Hfr & Hlast & ->).
    cbn [required ret]. intros [= <- <-].
    apply get_block_ok in Hlast. rewrite (frame_block _ _ Hfr) in Hlast.
    rewrite Hlast. split; [reflexivity|].
    cbn [block_ts_cache set_block_ts_cache]. apply lookup_insert_eq.
Qed.

(** A successful enrichment returns the operation of its item, with the
    timestamp in use for the block, which is cached from then on. *)
Lemma enrich_ok (item : Item) (s s' : State) (op : Op) :
  enrich item s = (Ok op, s') ->
  built_from item op
  /\ ts_view s (log_blockNumber (item_data item)) = Some (timestamp (op_set op))
  /\ block_ts_cache s' !! log_blockNumber (item_data item)
     = Some (timestamp (op_set op)).
Proof.
  unfold enrich, bind.
  pose proof (frame_with_retries
                (get_transaction (HexBytes_hex (log_transactionHash (item_data item))))
                3 5 (frame_get_transaction _) s) as Hfr.
  destruct (with_retries _ _ _ s) as [[o|e] s1]; [|discriminate].
  cbn [snd] in Hfr.
  destruct o as [tx|]; cbn [required ret raise]; [|discriminate].
  destruct (cached_timestamp _ s1) as [[ts|e] s2] eqn:Hts; [|discriminate].
  apply cached_timestamp_ok in Hts as [Hview Hcache].
  unfold lift, ret.
  destruct (build_doc _ _ _ _) as [doc|e] eqn:Hdoc; [|discriminate].
  intros [= <- <-]. cbn [op_set op_filter_id].
  apply build_doc_fields in Hdoc
    as (? & ? & ? & ? & ? & _ & _ & _ & _ & _ & _ & _ & _ & Hid & Hbn & Hts).
  rewrite Hts. repeat split; try assumption.
  now rewrite <- (frame_ts_view _ _ Hfr).
Qed.

Lemma enrich_loop_complete (n pos used : nat) (docs : dict Item)
    (ops ops' : list Op) (s s' : State) :
  (forall kv, In kv docs -> dashed (fst kv)) ->
  length docs = used -> (pos + n = used)%nat ->
  enrich_loop n pos used docs ops s = (Ok ops', s') ->
  exists new, ops' = (ops ++ new)%list
              /\ Forall2 (enriched s) (map snd (drop pos docs)) new.
Proof.
  intros Hdash Hlen. revert pos ops s.
  induction n as [|n IH]; intros pos ops s Hpos; cbn [enrich_loop];
    rewrite Hlen, Nat.eqb_refl; cbn [negb].
  - intros [= <- _]. exists []. rewrite app_nil_r. split; [reflexivity|].
    rewrite drop_ge by lia. constructor.
  - destruct (docs !! pos) as [[k item]|] eqn:Hlook.
    2:{ apply lookup_ge_None in Hlook. lia. }
    pose proof (enrich_frame item s) as Hfr1.
    destruct (enrich item s) as [[op|e] s1] eqn:Henrich; cbn [snd] in Hfr1.
    + intros Hloop.
      destruct (IH (S pos) (ops ++ [op])%list s1 ltac:(lia) Hloop)
        as (new & -> & Hall).
      exists (op :: new). split; [now rewrite <- app_assoc|].
      rewrite (drop_S docs (k, item) pos Hlook). cbn [map snd].
      constructor.
      * exists s, s1. split; [apply frame_refl | exact Henrich].
      * eapply Forall2_impl; [exact Hall|].
        intros item' op' (s0 & s0' & Hfr0 & He). exists s0, s0'.
        split; [exact (frame_trans _ _ _ Hfr1 Hfr0) | exact He].
    + rewrite enrich_loop_size_changed; [discriminate|].
      rewrite dict_set_fresh_length; [lia|].
      intros kv Hin Heq. specialize (Hdash kv Hin). rewrite Heq in Hdash.
      exact (HexBytes_hex_not_dash _ Hdash).
Qed.

Lemma collect_ops_complete (a b : Z) (s s' : State) (ops : list Op) :
  collect_ops a b s = (Ok (Some ops), s') ->
  exists docs, classify_logs [] (node_logs (world s) a b) = Ok docs
               /\ docs <> []
               /\ Forall2 (enriched s) (map snd docs) ops.
Proof.
  unfold collect_ops.
  pose proof (frame_with_retries (get_logs a b) 3 5 (frame_get_logs a b) s) as Hfrs.
  destruct (with_retries (get_logs a b) 3 5 s) as [[o|e] s1] eqn:Hw;
    [|discriminate].
  cbn [snd] in Hfrs.
  destruct (with_retries_ok_inv _ _ _ _ _ (frame_get_logs a b) Hw)
    as (s0 & logs & Hfr & Hlast & ->).
  apply get_logs_ok in Hlast. rewrite (frame_logs _ _ Hfr) in Hlast. subst logs.
  unfold bind, required, ret, lift.
  destruct (classify_logs [] (node_logs (world s) a b)) as [docs|e] eqn:Hclass;
    [|discriminate].
  destruct docs as [|kv docs]; [discriminate|].
  destruct (enrich_loop _ _ _ _ _ s1) as [[ops'|e] s2] eqn:Hloop; [|discriminate].
  intros [= <- _]. exists (kv :: docs). split; [reflexivity|].
  split; [discriminate|].
  destruct (enrich_loop_complete (length (kv :: docs)) 0 (length (kv :: docs))
              (kv :: docs) [] ops' s1 s2
              (classify_logs_dashed _ [] _ Hclass ltac:(intros ? []))
              eq_refl eq_refl Hloop) as (new & -> & Hall).
  eapply Forall2_impl; [exact Hall|].
  intros item' op' (s0' & s0'' & Hfr0 & He). exists s0', s0''.
  split; [exact (frame_trans _ _ _ Hfrs Hfr0) | exact He].
Qed.

(** X6: when the first part of a batch hands operations to the write,
    there is exactly one upsert per entry of the batch map, in the order
    of the map, each filtered on the [blockNumber-logIndex] of its log;
    the map is not empty, so neither is the list: a batch never reaches
    the write with some of its accepted logs missing. *)
Theorem collected_ops_match_map (a b : Z) (s s' : State) (ops : list Op) :
  collect_ops a b s = (Ok (Some ops), s') ->
  exists docs,
    classify_logs [] (node_logs (world s) a b) = Ok docs
    /\ ops <> []
    /\ length ops = length docs
    /\ map op_filter_id ops = map (fun kv => record_id (item_data (snd kv))) docs
    /\ Forall op_wf ops.
Proof.
  intros Hc.
  destruct (collect_ops_complete a b s s' ops Hc) as (docs & Hclass & Hne & Hall).
  exists docs. split; [exact Hclass|].
  assert (Hlen : length ops = length docs).
  { apply Forall2_length in Hall. now rewrite length_map in Hall. }
  split; [|split; [exact Hlen|split]].
  - intros ->. destruct docs; [contradiction | discriminate].
  - clear Hc Hclass Hne Hlen. revert ops Hall.
    induction docs as [|kv docs IH]; intros ops Hall; cbn [map] in *.
    + apply Forall2_nil_inv_l in Hall. now subst.
    + apply Forall2_cons_inv_l in Hall as (op & ops' & (s0 & s0' & Hfr0 & He) & Hall & ->).
      destruct (enrich_ok _ _ _ _ He) as ((Hf & _) & _).
      cbn [map]. rewrite Hf. f_equal. now apply IH.
  - eapply collect_ops_wf; exact Hc.
Qed.
End Finished.

Lemma collected_ops_match_map_witness :
  option_map (map op_filter_id)
    match fst (collect_ops (H:=test_web3) 100 104 calm_state) with
    | Ok o => o
    | Raise _ => None
    end
  = Some ["100-3"; "101-0"; "102-0"]
  /\ exists ops s', collect_ops (H:=test_web3) 100 104 calm_state = (Ok (Some ops), s')
                    /\ length ops = 3%nat.
Proof.
  split; [vm_compute; reflexivity|].
  destruct (collect_ops (H:=test_web3) 100 104 calm_state) as [r s'] eqn:Hc.
  assert (Hr : option_map (length (A:=Op))
                 match r with Ok o => o | Raise _ => None end = Some 3%nat).
  { replace r with (fst (collect_ops (H:=test_web3) 100 104 calm_state))
      by now rewrite Hc.
    vm_compute. reflexivity. }
  destruct r as [[ops|]|e]; try discriminate.
  exists ops, s'. split; [reflexivity|].
  destruct (collected_ops_match_map (H:=test_web3) 100 104 calm_state s' ops Hc)
    as (docs & _ & _ & _ & _ & _).
  cbn in Hr. now injection Hr.
Defined.

(* --------------------------------------------------------------------- *)
(** ** What a batch does to the ledger *)
(* --------------------------------------------------------------------- *)

Lemma in_masked (ops : list Op) (applied : list bool) (op : Op) :
  In op (masked ops applied) -> In op ops.
Proof.
  revert applied. induction ops as [|o ops IH]; intros applied; cbn [masked].
  - destruct applied as [|[|] m]; intros Hin; destruct Hin.
  - destruct applied as [|[|] m]; intros Hin.
    + destruct Hin.
    + destruct Hin as [<- | Hin]; [now left | right; eauto].
    + right. eauto.
Qed.

Lemma in_upsert_other (k : string) (d x : Doc) (l : list Doc) :
  In x l -> _id x <> k -> In x (upsert k d l).
Proof.
  intros Hin Hne. induction l as [|y l IH]; [destruct Hin|].
  cbn [upsert]. destruct (String.eqb_spec (_id y) k) as [Hy | Hy].
  - destruct Hin as [-> | Hin]; [contradiction | now right].
  - destruct Hin as [-> | Hin]; [now left | right; now apply IH].
Qed.

(** A bulk write leaves every document alone whose [_id] none of its
    operations filters on. *)
Lemma apply_ops_keeps (ops : list Op) (l : list Doc) (x : Doc) :
  In x l -> (forall op, In op ops -> op_filter_id op <> _id x) ->
  In x (apply_ops ops l).
Proof.
  revert l. induction ops as [|op ops IH]; intros l Hin Hne; [exact Hin|].
  rewrite apply_ops_cons. apply IH.
  - apply in_upsert_other; [exact Hin|]. intros Heq.
    apply (Hne op); [now left | now symmetry].
  - intros op' Hop'. apply Hne. now right.
Qed.

Lemma Forall2_in_r {A B} (P : A -> B -> Prop) (l : list A) (k : list B) (y : B) :
  Forall2 P l k -> In y k -> exists x, In x l /\ P x y.
Proof.
  induction 1 as [|x y' l k Hxy Hall IH]; [intros []|].
  intros [<- | Hin]; [exists x; split; [now left | exact Hxy]|].
  destruct (IH Hin) as (x' & Hx' & HP). exists x'. split; [now right | exact HP].
Qed.

Lemma Forall2_in_l {A B} (P : A -> B -> Prop) (l : list A) (k : list B) (x : A) :
  Forall2 P l k -> In x l -> exists y, In y k /\ P x y.
Proof.
  induction 1 as [|x' y l k Hxy Hall IH]; [intros []|].
  intros [<- | Hin]; [exists y; split; [now left | exact Hxy]|].
  destruct (IH Hin) as (y' & Hy' & HP). exists y'. split; [now right | exact HP].
Qed.

Section BatchLedger.
Context `{Web3Lib}.

(** What the second part of a batch does: it applies all of the
    operations or, when the write fails, some of them; only a successful
    write counts as one and moves the cursor; nothing else changes but
    the trace and the script of the store. *)
Lemma write_ops_effect (batch_end : Z) (ops : list Op) (s : State) :
  let s' := snd (write_ops batch_end ops s) in
  exists applied,
    (forall op, In op applied -> In op ops)
    /\ ledger (world s') = apply_ops applied (ledger (world s))
    /\ (writes_ok (world s') = S (writes_ok (world s)) ->
          applied = ops /\ start_block s' = batch_end + 1)
    /\ block_ts_cache s' = block_ts_cache s
    /\ node_block (world s') = node_block (world s)
    /\ rpc_faults (world s') = rpc_faults (world s).
Proof.
  cbv zeta. unfold write_ops. destruct ops as [|op ops].
  { exists []. split; [intros op []|]. split; [reflexivity|].
    split; [cbn; intros Hw; lia|]. repeat split. }
  unfold try_except, bind, bulk_write, advance, ret.
  destruct (write_faults (world s)) as [|[|m] fs]; cbn [fst snd].
  - exists (op :: ops). split; [intros op' Hop'; exact Hop'|].
    split; [reflexivity|]. split; [intros _; split; reflexivity|].
    repeat split.
  - exists (op :: ops). split; [intros op' Hop'; exact Hop'|].
    split; [reflexivity|]. split; [intros _; split; reflexivity|].
    repeat split.
  - exists (masked (op :: ops) m). split; [apply in_masked|].
    split; [reflexivity|]. split; [|repeat split].
    cbn [world set_world]. rewrite writes_ok_record_event.
    cbn. unfold writes_ok. cbn [trace set_store]. intros Hw. lia.
Qed.

Lemma write_ops_logs (batch_end : Z) (ops : list Op) (s : State) :
  node_logs (world (snd (write_ops batch_end ops s))) = node_logs (world s).
Proof.
  unfold write_ops. destruct ops as [|op ops]; [reflexivity|].
  unfold try_except, bind, bulk_write, advance, ret.
  destruct (write_faults (world s)) as [|[|m] fs]; reflexivity.
Qed.

Lemma process_batch_split (a b : Z) (s : State) :
  exists s1, frame s s1
    /\ (forall ops, fst (collect_ops a b s) = Ok (Some ops) ->
          collect_ops a b s = (Ok (Some ops), s1)
          /\ process_batch a b s = write_ops b ops s1)
    /\ ((forall ops, fst (collect_ops a b s) <> Ok (Some ops)) ->
          snd (process_batch a b s) = s1).
Proof.
  pose proof (collect_ops_frame a b s) as Hfr.
  unfold process_batch, bind.
  destruct (collect_ops a b s) as [r s1]. cbn [fst snd] in *.
  exists s1. split; [exact Hfr|]. split.
  - intros ops ->. split; reflexivity.
  - intros Hno. destruct r as [[ops|]|e]; [|reflexivity..].
    exfalso. now apply (Hno ops).
Qed.

(** X7: a batch after which the count of successful writes has gone up
    has moved the cursor to [batch_end + 1], and the ledger then holds a
    document under the [blockNumber-logIndex] of every log that the
    classification of the node's logs for that range accepted. *)
Theorem written_batch_is_complete (a b : Z) (s : State) :
  writes_ok (world (snd (process_batch a b s))) = S (writes_ok (world s)) ->
  exists docs,
    classify_logs [] (node_logs (world s) a b) = Ok docs
    /\ start_block (snd (process_batch a b s)) = b + 1
    /\ forall k item, In (k, item) docs ->
         In (record_id (item_data item))
            (ids (ledger (world (snd (process_batch a b s))))).
Proof.
  intros Hw.
  destruct (process_batch_split a b s) as (s1 & Hfr & Hsome & Hnone).
  destruct (fst (collect_ops a b s)) as [[ops|]|e] eqn:Hc.
  2,3: rewrite Hnone in Hw by (intros ops; discriminate);
       rewrite (frame_writes_ok _ _ Hfr) in Hw; lia.
  destruct (Hsome ops eq_refl) as [Hcol Hp].
  rewrite Hp in *.
  destruct (write_ops_effect b ops s1) as (applied & _ & Hl & Hadv & _).
  cbn zeta in *. rewrite (frame_writes_ok _ _ Hfr) in Hadv.
  destruct (Hadv Hw) as [-> Hsb].
  destruct (collect_ops_complete a b s s1 ops Hcol) as (docs & Hclass & _ & Hall).
  exists docs. split; [exact Hclass|]. split; [exact Hsb|].
  intros k item Hin. rewrite Hl.
  destruct (Forall2_in_l _ _ _ item Hall) as (op & Hop & (s0 & s0' & Hfr0 & He)).
  { apply in_map_iff. now exists (k, item). }
  destruct (enrich_ok _ _ _ _ He) as ((Hf & _) & _).
  apply in_ids_apply_ops; [eapply collect_ops_wf; exact Hcol|].
  right. rewrite <- Hf. now apply in_map.
Qed.

(** X8: whatever happens in a batch - node faults, a failed or a partial
    write - every stored document stays as it is unless the node returned
    a log for that block range with the document's [_id]. *)
Theorem other_documents_untouched (a b : Z) (s : State) (x : Doc) :
  In x (ledger (world s)) ->
  (forall log, In log (node_logs (world s) a b) -> record_id log <> _id x) ->
  In x (ledger (world (snd (process_batch a b s)))).
Proof.
  intros Hx Hother.
  destruct (process_batch_split a b s) as (s1 & Hfr & Hsome & Hnone).
  destruct (fst (collect_ops a b s)) as [[ops|]|e] eqn:Hc.
  2,3: rewrite Hnone by (intros ops; discriminate);
       now rewrite (frame_ledger _ _ Hfr).
  destruct (Hsome ops eq_refl) as [Hcol Hp]. rewrite Hp.
  destruct (write_ops_effect b ops s1) as (applied & Hsub & Hl & _).
  cbn zeta in *. rewrite Hl, (frame_ledger _ _ Hfr).
  apply apply_ops_keeps; [exact Hx|].
  intros op Hop Heq. apply Hsub in Hop.
  destruct (collect_ops_complete a b s s1 ops Hcol) as (docs & Hclass & _ & Hall).
  destruct (Forall2_in_r _ _ _ op Hall Hop) as (item & Hitem & (s0 & s0' & Hfr0 & He)).
  destruct (enrich_ok _ _ _ _ He) as ((Hf & _) & _).
  apply in_map_iff in Hitem as ([k item'] & Hsnd & Hin). cbn [snd] in Hsnd. subst item'.
  destruct (classify_logs_invariant _ [] [] docs Hclass (List.NoDup_nil _)
              ltac:(intros ? ? [])) as (_ & _ & Hinv).
  destruct (Hinv k item Hin) as (Hlog & _).
  apply (Hother _ Hlog). now rewrite <- Hf.
Qed.
End BatchLedger.

Lemma written_batch_is_complete_witness :
  writes_ok (world (snd (process_batch (H:=test_web3) 100 104 calm_state)))
  = S (writes_ok (world calm_state))
  /\ start_block (snd (process_batch (H:=test_web3) 100 104 calm_state)) = 104 + 1
  /\ ids (ledger (world (snd (process_batch (H:=test_web3) 100 104 calm_state))))
     = ["100-3"; "101-0"; "102-0"].
Proof.
  assert (H0 : writes_ok (world (snd (process_batch (H:=test_web3) 100 104 calm_state)))
               = S (writes_ok (world calm_state))) by (vm_compute; reflexivity).
  destruct (written_batch_is_complete (H:=test_web3) 100 104 calm_state H0)
    as (docs & _ & Hsb & _).
  split; [exact H0|]. split; [exact Hsb|]. vm_compute. reflexivity.
Defined.

Lemma other_documents_untouched_witness :
  let s := test_state 100
             (test_world 105 [log_out; log_in] [] [WriteErr [false; true]]
                         [stored_at 42; stored_at 101]) in
  In (stored_at 42) (ledger (world s))
  /\ (forall log, In log (node_logs (world s) 100 104) ->
        record_id log <> _id (stored_at 42))
  /\ In (stored_at 42) (ledger (world (snd (process_batch (H:=test_web3) 100 104 s))))
  /\ ids (ledger (world (snd (process_batch (H:=test_web3) 100 104 s))))
     = ["42-0"; "101-0"].
Proof.
  cbv zeta.
  set (s := test_state 100
              (test_world 105 [log_out; log_in] [] [WriteErr [false; true]]
                          [stored_at 42; stored_at 101])).
  assert (H0 : In (stored_at 42) (ledger (world s))) by now left.
  assert (H1 : forall log, In log (node_logs (world s) 100 104) ->
                 record_id log <> _id (stored_at 42)).
  { assert (Hlogs : node_logs (world s) 100 104 = [log_out; log_in])
      by (vm_compute; reflexivity).
    rewrite Hlogs. intros log [<- | [<- | []]]; vm_compute; discriminate. }
  pose proof (other_documents_untouched (H:=test_web3) 100 104 s _ H0 H1) as Hkeep.
  split; [exact H0|]. split; [exact H1|]. split; [exact Hkeep|].
  vm_compute. reflexivity.
Defined.

(* --------------------------------------------------------------------- *)
(** ** A transfer event without a data payload *)
(* --------------------------------------------------------------------- *)

Section EmptyPayload.
Context `{Web3Lib}.

(** [int("0x", 16)] raises: no document is built from a log whose data
    payload is empty. *)
Lemma build_doc_empty_payload (item : Item) (h : string) (tx : Tx) (ts : Z) :
  log_data (item_data item) = [] -> is_ok (build_doc item h tx ts) = false.
Proof.
  intros Hd. unfold build_doc, transfer_fields. rewrite Hd.
  destruct (item_type item).
  - destruct (topic_address _ 1); [|reflexivity]. cbn [res_bind].
    destruct (topic_address _ 2); [|reflexivity]. cbn [res_bind].
    rewrite int_base16_empty. reflexivity.
  - destruct (to_checksum_address _); [|reflexivity]. cbn [res_bind].
    rewrite int_base16_empty. reflexivity.
Qed.

Lemma enrich_empty_payload (item : Item) (s : State) :
  log_data (item_data item) = [] -> is_ok (fst (enrich item s)) = false.
Proof.
  intros Hd. unfold enrich, bind.
  destruct (with_retries _ _ _ s) as [[o|e] s1]; [|reflexivity].
  destruct o as [tx|]; cbn [required ret raise]; [|reflexivity].
  destruct (cached_timestamp _ s1) as [[ts|e] s2]; [|reflexivity].
  unfold lift, ret.
  pose proof (build_doc_empty_payload item
                (HexBytes_hex (log_transactionHash (item_data item))) tx ts Hd) as Hb.
  destruct (build_doc _ _ _ _); [discriminate | reflexivity].
Qed.

(** The enrichment loop raises nothing but the error of the iteration. *)
Lemma enrich_loop_raises (n pos used : nat) (docs : dict Item)
    (ops : list Op) (s : State) (e : exn) :
  (forall kv, In kv docs -> dashed (fst kv)) ->
  length docs = used ->
  fst (enrich_loop n pos used docs ops s) = Raise e -> e = size_changed.
Proof.
  intros Hdash Hlen. revert pos ops s.
  induction n as [|n IH]; intros pos ops s; cbn [enrich_loop];
    rewrite Hlen, Nat.eqb_refl; cbn [negb]; [discriminate|].
  destruct (docs !! pos) as [[k item]|]; [|discriminate].
  destruct (enrich item s) as [[op|e'] s1]; [apply IH|].
  rewrite enrich_loop_size_changed; [now intros [= <-]|].
  rewrite dict_set_fresh_length; [lia|].
  intros kv Hin Heq. specialize (Hdash kv Hin). rewrite Heq in Hdash.
  exact (HexBytes_hex_not_dash _ Hdash).
Qed.

(** With such a log in the batch map, the first part of a batch never
    hands operations to the write: the fetch fails for good, or the
    enrichment loop raises. *)
Lemma collect_ops_empty_payload (a b : Z) (s : State) (docs : dict Item)
    (k : string) (item : Item) :
  classify_logs [] (node_logs (world s) a b) = Ok docs ->
  In (k, item) docs ->
  log_data (item_data item) = [] ->
  (is_ok (fst (with_retries (get_logs a b) 3 5 s)) = false
   /\ fst (collect_ops a b s) = Ok None)
  \/ (is_ok (fst (with_retries (get_logs a b) 3 5 s)) = true
      /\ fst (collect_ops a b s) = Raise size_changed).
Proof.
  intros Hclass Hin Hd.
  destruct (collect_ops a b s) as [r s'] eqn:Hc. cbn [fst].
  destruct r as [[ops|]|e].
  - exfalso.
    destruct (collect_ops_complete a b s s' ops Hc) as (docs' & Hclass' & _ & Hall).
    rewrite Hclass in Hclass'. injection Hclass' as <-.
    destruct (Forall2_in_l _ _ _ item Hall) as (op & _ & (s0 & s0' & Hfr0 & He)).
    { apply in_map_iff. now exists (k, item). }
    pose proof (enrich_empty_payload item s0 Hd) as Hno.
    now rewrite He in Hno.
  - revert Hc. unfold collect_ops.
    destruct (with_retries (get_logs a b) 3 5 s) as [[o|e] s1] eqn:Hw.
    2:{ intros _. left. now split. }
    destruct (with_retries_ok_inv _ _ _ _ _ (frame_get_logs a b) Hw)
      as (s0 & logs & Hfr & Hlast & ->).
    apply get_logs_ok in Hlast. rewrite (frame_logs _ _ Hfr) in Hlast. subst logs.
    unfold bind, required, ret, lift. rewrite Hclass.
    destruct docs as [|kv docs]; [destruct Hin|].
    destruct (enrich_loop _ _ _ _ _ s1) as [[ops'|e] s2]; discriminate.
  - revert Hc. unfold collect_ops.
    destruct (with_retries (get_logs a b) 3 5 s) as [[o|e'] s1] eqn:Hw;
      [|discriminate].
    destruct (with_retries_ok_inv _ _ _ _ _ (frame_get_logs a b) Hw)
      as (s0 & logs & Hfr & Hlast & ->).
    apply get_logs_ok in Hlast. rewrite (frame_logs _ _ Hfr) in Hlast. subst logs.
    unfold bind, required, ret, lift. rewrite Hclass.
    destruct docs as [|kv docs]; [destruct Hin|].
    destruct (enrich_loop _ _ _ _ _ s1) as [[ops'|e'] s2] eqn:Hloop;
      [discriminate|].
    intros [= <- _]. right. split; [reflexivity|]. f_equal.
    apply (enrich_loop_raises (length (kv :: docs)) 0 (length (kv :: docs))
             (kv :: docs) [] s1 e'
             (classify_logs_dashed _ [] _ Hclass ltac:(intros ? [])) eq_refl).
    now rewrite Hloop.
Qed.

(** X9: a log that the classification accepts and whose data payload is
    empty (the transfer event of an NFT, whose token id is a topic)
    keeps its batch from ever being written: when the logs are fetched
    the batch raises [RuntimeError] out of the loop over the batch map,
    and in every case the cursor, the ledger and the count of writes
    stay as they were. *)
Theorem empty_payload_blocks_batch (a b : Z) (s : State) (docs : dict Item)
    (k : string) (item : Item) :
  classify_logs [] (node_logs (world s) a b) = Ok docs ->
  In (k, item) docs ->
  log_data (item_data item) = [] ->
  (if is_ok (fst (with_retries (get_logs a b) 3 5 s))
   then fst (process_batch a b s) = Raise size_changed
   else fst (process_batch a b s) = Ok tt)
  /\ start_block (snd (process_batch a b s)) = start_block s
  /\ ledger (world (snd (process_batch a b s))) = ledger (world s)
  /\ writes_ok (world (snd (process_batch a b s))) = writes_ok (world s).
Proof.
  intros Hclass Hin Hd.
  pose proof (collect_ops_empty_payload a b s docs k item Hclass Hin Hd) as Hc.
  pose proof (collect_ops_frame a b s) as Hfr.
  unfold process_batch, bind.
  destruct (collect_ops a b s) as [r s1]. cbn [fst snd] in *.
  destruct Hc as [[-> ->] | [-> ->]]; cbn [fst snd];
    (split; [reflexivity|]);
    (split; [apply (frame_start_block _ _ Hfr)|]);
    (split; [apply (frame_ledger _ _ Hfr) | apply (frame_writes_ok _ _ Hfr)]).
Qed.



End EmptyPayload.

Section Stall.
Context `{Web3Lib}.

End Stall.

Lemma empty_payload_blocks_batch_witness :
  classify_logs (H:=test_web3) [] (node_logs (world nft_state) 100 104)
  = Ok [("0xaa02-0", {| item_type := erc20_log; item_data := log_in |});
        ("0xaa07-5", item_nft)]
  /\ log_data (item_data item_nft) = []
  /\ fst (process_batch (H:=test_web3) 100 104 nft_state) = Raise size_changed
  /\ ledger (world (snd (process_batch (H:=test_web3) 100 104 nft_state))) = [].
Proof.
  assert (H0 : classify_logs (H:=test_web3) [] (node_logs (world nft_state) 100 104)
               = Ok [("0xaa02-0", {| item_type := erc20_log; item_data := log_in |});
                     ("0xaa07-5", item_nft)]) by (vm_compute; reflexivity).
  assert (H1 : In ("0xaa07-5", item_nft)
                 [("0xaa02-0", {| item_type := erc20_log; item_data := log_in |});
                  ("0xaa07-5", item_nft)]) by (right; now left).
  assert (H2 : log_data (item_data item_nft) = []) by reflexivity.
  destruct (empty_payload_blocks_batch (H:=test_web3) 100 104 nft_state _ _ _ H0 H1 H2)
    as (Hr & _ & Hl & _).
  assert (Hok : is_ok (fst (with_retries (get_logs 100 104) 3 5 nft_state)) = true)
    by (vm_compute; reflexivity).
  rewrite Hok in Hr.
  split; [exact H0|]. split; [exact H2|]. split; [exact Hr|].
  rewrite Hl. reflexivity.
Defined.


(* --------------------------------------------------------------------- *)
(** ** What holds over the cycles of a run *)
(* --------------------------------------------------------------------- *)

(** A relation that every framed step and every batch preserves is
    preserved by the cycles. *)
Section Cycles.
Context `{Web3Lib}.
Variable R : State -> State -> Prop.
Hypothesis R_frame : forall s s', frame s s' -> R s s'.
Hypothesis R_trans : forall s1 s2 s3, R s1 s2 -> R s2 s3 -> R s1 s3.
Hypothesis R_batch : forall a b, preserves R (process_batch a b).

Lemma cycles_refl (s : State) : R s s.
Proof. apply R_frame, frame_refl. Qed.

Lemma run_batches_preserves (bs : list (Z * Z)) : preserves R (run_batches bs).
Proof.
  apply (preserves_for_each R cycles_refl R_trans). intros [a b]. apply R_batch.
Qed.

Lemma run_cycle_preserves : preserves R run_cycle.
Proof.
  unfold run_cycle.
  apply (preserves_try_except R R_trans);
    [|intros e s; apply R_frame, frame_sleep].
  apply (preserves_bind R R_trans);
    [intros s; apply R_frame, frame_block_number|].
  intros head s.
  destruct (start_block s >? Z.max 0 (head - CONFIRMATIONS)).
  - apply R_frame, frame_sleep.
  - apply (preserves_bind R R_trans); [apply run_batches_preserves|].
    intros _ s'. apply R_frame, frame_sleep.
Qed.

Lemma run_cycles_preserves (n : nat) (s : State) : R s (run_cycles n s).
Proof.
  revert s. induction n as [|n IH]; intros s; cbn [run_cycles];
    [apply cycles_refl|].
  eapply R_trans; [apply run_cycle_preserves | apply IH].
Qed.
End Cycles.

(* --------------------------------------------------------------------- *)
(** ** The ledger only grows *)
(* --------------------------------------------------------------------- *)

Lemma ledger_kept_refl (l : list Doc) : ledger_kept l l.
Proof. repeat split; auto. Qed.

Lemma ledger_kept_trans (l1 l2 l3 : list Doc) :
  ledger_kept l1 l2 -> ledger_kept l2 l3 -> ledger_kept l1 l3.
Proof.
  intros (Hi1 & Hu1 & Hl1) (Hi2 & Hu2 & Hl2).
  split; [auto|]. split; [auto | lia].
Qed.

Lemma length_upsert (k : string) (d : Doc) (l : list Doc) :
  (length l <= length (upsert k d l))%nat.
Proof.
  induction l as [|y l IH]; cbn [upsert length]; [lia|].
  destruct (String.eqb (_id y) k); cbn [length]; lia.
Qed.

Lemma length_apply_ops (ops : list Op) (l : list Doc) :
  (length l <= length (apply_ops ops l))%nat.
Proof.
  revert l. induction ops as [|op ops IH]; intros l; [cbn; lia|].
  rewrite apply_ops_cons. etransitivity; [apply length_upsert | apply IH].
Qed.

Lemma ledger_kept_apply_ops (ops : list Op) (l : list Doc) :
  Forall op_wf ops -> ledger_kept l (apply_ops ops l).
Proof.
  intros Hwf. split; [|split].
  - intros k Hk. apply in_ids_apply_ops; [exact Hwf | now left].
  - now apply unique_ids_apply_ops.
  - apply length_apply_ops.
Qed.

Section LedgerGrows.
Context `{Web3Lib}.

Lemma process_batch_ledger_kept (a b : Z) (s : State) :
  ledger_kept (ledger (world s)) (ledger (world (snd (process_batch a b s)))).
Proof.
  destruct (process_batch_split a b s) as (s1 & Hfr & Hsome & Hnone).
  destruct (fst (collect_ops a b s)) as [[ops|]|e] eqn:Hc.
  2,3: rewrite Hnone by (intros ops; discriminate);
       rewrite (frame_ledger _ _ Hfr); apply ledger_kept_refl.
  destruct (Hsome ops eq_refl) as [Hcol Hp]. rewrite Hp.
  destruct (write_ops_effect b ops s1) as (applied & Hsub & Hl & _).
  cbn zeta in *. rewrite Hl, (frame_ledger _ _ Hfr).
  apply ledger_kept_apply_ops.
  pose proof (collect_ops_wf a b s s1 ops Hcol) as Hwf.
  rewrite List.Forall_forall in *. auto.
Qed.

Lemma run_cycles_ledger_kept (n : nat) (s : State) :
  ledger_kept (ledger (world s)) (ledger (world (run_cycles n s))).
Proof.
  apply (run_cycles_preserves
           (fun s s' => ledger_kept (ledger (world s)) (ledger (world s')))).
  - intros s0 s' Hfr. rewrite (frame_ledger _ _ Hfr). apply ledger_kept_refl.
  - intros s1 s2 s3. apply ledger_kept_trans.
  - intros a b s0. apply process_batch_ledger_kept.
Qed.

(** The start of the listener reads the ledger and never writes to it;
    it leaves the chain data alone, and sets the cursor or nothing. *)
Lemma startup_effect (s : State) :
  exists s1, frame s s1
    /\ (snd (startup s) = s1
        \/ (exists b, snd (startup s) = set_start_block b s1
                      /\ fst (startup s) = Ok tt)).
Proof.
  unfold startup, bind.
  assert (Hconn : preserves frame is_connected).
  { apply (preserves_try_except frame frame_trans).
    - apply frame_rpc; [reflexivity | intros w; now left].
    - intros e. apply (preserves_ret frame frame_refl). }
  specialize (Hconn s).
  destruct (is_connected s) as [[connected|e] s1]; cbn [snd] in Hconn.
  2:{ exists s1. split; [exact Hconn | now left]. }
  destruct connected; cbn [negb].
  2:{ exists s1. split; [exact Hconn | now left]. }
  pose proof (frame_block_number s1) as Hbn.
  destruct (block_number s1) as [[h|e] s2]; cbn [snd] in Hbn.
  2:{ exists s2. split; [eapply frame_trans; eassumption | now left]. }
  pose proof (frame_trans _ _ _ Hconn Hbn) as Hfr2.
  destruct (mongo_uri (world s2)) as [[|c u]|].
  1,3: exists s2; split; [exact Hfr2 | now left].
  destruct (mongo_ping (world s2)); cbn [negb].
  2:{ exists s2. split; [exact Hfr2 | now left]. }
  destruct (find_one_sort_desc (ledger (world s2))) as [last_doc|].
  - exists s2. split; [exact Hfr2|]. right. eexists. split; reflexivity.
  - pose proof (frame_block_number s2) as Hbn2.
    destruct (block_number s2) as [[h2|e] s3]; cbn [snd] in Hbn2.
    + exists s3. split; [eapply frame_trans; eassumption|].
      right. eexists. split; reflexivity.
    + exists s3. split; [eapply frame_trans; eassumption | now left].
Qed.

Lemma startup_ledger (s : State) :
  ledger (world (snd (startup s))) = ledger (world s).
Proof.
  destruct (startup_effect s) as (s1 & Hfr & [-> | (b & -> & _)]);
    apply (frame_ledger _ _ Hfr).
Qed.

Lemma listener_ledger_kept (cycles : nat) (w : World) :
  ledger_kept (ledger w)
    (ledger (world (snd (process_and_store_transactions cycles w)))).
Proof.
  unfold process_and_store_transactions.
  set (s0 := {| start_block := 0; block_ts_cache := ∅; world := w |}).
  pose proof (startup_ledger s0) as Hl.
  destruct (startup s0) as [[[]|e] s1]; cbn [snd] in *.
  - change (ledger w) with (ledger (world s0)). rewrite <- Hl.
    apply run_cycles_ledger_kept.
  - rewrite Hl. apply ledger_kept_refl.
Qed.

(** X11: the listener never deletes: over any number of restarts and
    cycles, and whatever the node and the store do, every [_id] of the
    ledger stays in it, the collection does not shrink, and [_id]s that
    were unique stay unique. *)
Theorem ledger_only_grows (restarts cycles : nat) (w : World) :
  ledger_kept (ledger w) (ledger (main restarts cycles w)).
Proof.
  revert w. induction restarts as [|r IH]; intros w; cbn [main];
    [apply ledger_kept_refl|].
  pose proof (listener_ledger_kept cycles w) as Hk.
  destruct (process_and_store_transactions cycles w) as [[[]|e] s];
    cbn [snd] in Hk; [exact Hk|].
  eapply ledger_kept_trans; [exact Hk|].
  change (ledger (world s))
    with (ledger (world (snd (sleep RETRY_DELAY s)))). apply IH.
Qed.
End LedgerGrows.

(* --------------------------------------------------------------------- *)
(** ** Where the documents of the ledger come from *)
(* --------------------------------------------------------------------- *)

Lemma in_apply_ops (ops : list Op) (l : list Doc) (x : Doc) :
  In x (apply_ops ops l) -> In x l \/ exists op, In op ops /\ x = op_set op.
Proof.
  revert l. induction ops as [|op ops IH]; intros l; [now left|].
  rewrite apply_ops_cons. intros Hin.
  destruct (IH _ Hin) as [Hx | (op' & Hop' & ->)].
  - apply in_upsert in Hx as [-> | Hx]; [|now left].
    right. exists op. split; [now left | reflexivity].
  - right. exists op'. split; [now right | reflexivity].
Qed.

Lemma ts_view_agrees (s : State) (bn : Z) :
  cache_agrees s ->
  ts_view s bn = option_map block_timestamp (node_block (world s) bn).
Proof.
  intros Hc. unfold ts_view.
  destruct (block_ts_cache s !! bn) as [ts|] eqn:Hl; [|reflexivity].
  symmetry. now apply Hc.
Qed.

Lemma cache_agrees_frame (s s' : State) :
  frame s s' -> cache_agrees s -> cache_agrees s'.
Proof.
  intros Hfr Hc bn ts Hl.
  pose proof (frame_ts_view _ _ Hfr bn) as Hv.
  rewrite (ts_view_agrees s bn Hc) in Hv.
  unfold ts_view in Hv. rewrite Hl in Hv.
  now rewrite (frame_block _ _ Hfr).
Qed.

Section Provenance.
Context `{Web3Lib}.

Lemma recorded_from_ext (w w' : World) (x : Doc) :
  node_logs w' = node_logs w -> node_block w' = node_block w ->
  recorded_from w' x -> recorded_from w x.
Proof.
  intros Hl Hb (a & b & item & Hin & Hacc & Hid & Hbn & Hts).
  exists a, b, item. unfold stamped in *. rewrite <- Hl, <- Hb. auto.
Qed.

Lemma provenance_frame (s s' : State) : frame s s' -> provenance s s'.
Proof.
  intros Hfr. split; [apply (frame_logs _ _ Hfr)|].
  split; [apply (frame_block _ _ Hfr)|].
  intros Hc. split; [now apply (cache_agrees_frame s)|].
  intros x Hx. left. now rewrite <- (frame_ledger _ _ Hfr).
Qed.

Lemma provenance_trans (s1 s2 s3 : State) :
  provenance s1 s2 -> provenance s2 s3 -> provenance s1 s3.
Proof.
  intros (Hl1 & Hb1 & H1) (Hl2 & Hb2 & H2).
  split; [congruence|]. split; [congruence|].
  intros Hc. destruct (H1 Hc) as [Hc2 Hd1]. destruct (H2 Hc2) as [Hc3 Hd2].
  split; [exact Hc3|]. intros x Hx.
  destruct (Hd2 x Hx) as [Hx2 | Hrec]; [now apply Hd1|].
  right. now apply (recorded_from_ext _ (world s2)).
Qed.

(** The operations of a batch that started with a cache that agrees with
    the node carry the records of logs of the batch. *)
Lemma collect_ops_recorded (a b : Z) (s s' : State) (ops : list Op) (op : Op) :
  cache_agrees s ->
  collect_ops a b s = (Ok (Some ops), s') ->
  In op ops ->
  recorded_from (world s) (op_set op).
Proof.
  intros Hc Hcol Hop.
  destruct (collect_ops_complete a b s s' ops Hcol) as (docs & Hclass & _ & Hall).
  destruct (Forall2_in_r _ _ _ op Hall Hop) as (item & Hitem & (s0 & s0' & Hfr0 & He)).
  apply in_map_iff in Hitem as ([k item'] & Hsnd & Hin). cbn [snd] in Hsnd. subst item'.
  destruct (classify_logs_invariant _ [] [] docs Hclass (List.NoDup_nil _)
              ltac:(intros ? ? [])) as (_ & _ & Hinv).
  destruct (Hinv k item Hin) as (Hlog & _ & Hacc).
  destruct (enrich_ok _ _ _ _ He) as ((_ & Hid & Hbn) & Hview & _).
  exists a, b, item. split; [exact Hlog|]. split; [exact Hacc|].
  split; [exact Hid|]. split; [exact Hbn|].
  unfold stamped. rewrite Hbn, <- Hview.
  rewrite (frame_ts_view _ _ Hfr0). symmetry. now apply ts_view_agrees.
Qed.

Lemma process_batch_provenance (a b : Z) : preserves provenance (process_batch a b).
Proof.
  intros s.
  destruct (process_batch_split a b s) as (s1 & Hfr & Hsome & Hnone).
  destruct (fst (collect_ops a b s)) as [[ops|]|e] eqn:Hc.
  2,3: rewrite Hnone by (intros ops; discriminate); now apply provenance_frame.
  destruct (Hsome ops eq_refl) as [Hcol Hp]. rewrite Hp.
  destruct (write_ops_effect b ops s1)
    as (applied & Hsub & Hl & _ & Hcache & Hblock & _).
  pose proof (write_ops_logs b ops s1) as Hlogs.
  cbn zeta in *.
  split; [rewrite Hlogs; apply (frame_logs _ _ Hfr)|].
  split; [rewrite Hblock; apply (frame_block _ _ Hfr)|].
  intros Hagree. split.
  - intros bn ts. rewrite Hcache, Hblock.
    apply (cache_agrees_frame s s1 Hfr Hagree).
  - intros x. rewrite Hl, (frame_ledger _ _ Hfr). intros Hx.
    apply in_apply_ops in Hx as [Hx | (op & Hop & ->)]; [now left|].
    right. apply (collect_ops_recorded a b s s1 ops op Hagree Hcol).
    now apply Hsub.
Qed.

Lemma run_cycles_provenance (n : nat) (s : State) : provenance s (run_cycles n s).
Proof.
  apply (run_cycles_preserves provenance).
  - apply provenance_frame.
  - apply provenance_trans.
  - apply process_batch_provenance.
Qed.

(** X12: every document that a run of the listener adds to the ledger,
    or rewrites, is the record of a log that the node returned and that
    the classification accepted: it has the [_id] and the block number
    of that log, and the timestamp the node reports for that block
    (cached or not). *)
Theorem stored_documents_provenance (cycles : nat) (w : World) (x : Doc) :
  In x (ledger (world (snd (process_and_store_transactions cycles w)))) ->
  In x (ledger w) \/ recorded_from w x.
Proof.
  unfold process_and_store_transactions.
  set (s0 := {| start_block := 0; block_ts_cache := ∅; world := w |}).
  assert (Hc0 : cache_agrees s0) by (intros bn ts Hl; cbn in Hl; discriminate).
  destruct (startup_effect s0) as (s1 & Hfr & Hs1).
  pose proof (cache_agrees_frame _ _ Hfr Hc0) as Hc1.
  destruct (startup s0) as [[[]|e] s1'] eqn:Hst; cbn [snd] in *.
  2:{ intros Hx. left.
      destruct Hs1 as [-> | (b & _ & Hok)]; [|discriminate].
      now rewrite (frame_ledger _ _ Hfr) in Hx. }
  assert (Hsame : cache_agrees s1'
                  /\ ledger (world s1') = ledger w
                  /\ node_logs (world s1') = node_logs w
                  /\ node_block (world s1') = node_block w).
  { destruct Hs1 as [-> | (b & -> & _)].
    - split; [exact Hc1|]. split; [apply (frame_ledger _ _ Hfr)|].
      split; [apply (frame_logs _ _ Hfr) | apply (frame_block _ _ Hfr)].
    - split; [exact Hc1|]. split; [apply (frame_ledger _ _ Hfr)|].
      split; [apply (frame_logs _ _ Hfr) | apply (frame_block _ _ Hfr)]. }
  destruct Hsame as (Hc1' & Hl1 & Hlogs1 & Hblock1).
  destruct (run_cycles_provenance cycles s1') as (_ & _ & Hprov).
  destruct (Hprov Hc1') as [_ Hdocs].
  intros Hx. destruct (Hdocs x Hx) as [Hold | Hrec].
  - left. now rewrite <- Hl1.
  - right. now apply (recorded_from_ext w (world s1')).
Qed.
End Provenance.

Lemma stored_documents_provenance_witness :
  In doc_out
     (ledger (world (snd (process_and_store_transactions (H:=test_web3) 1
                            resuming_world))))
  /\ ~ In doc_out (ledger resuming_world)
  /\ recorded_from (H:=test_web3) resuming_world doc_out.
Proof.
  assert (H0 : In doc_out
                 (ledger (world (snd (process_and_store_transactions
                                        (H:=test_web3) 1 resuming_world))))).
  { assert (Hl : ledger (world (snd (process_and_store_transactions
                                       (H:=test_web3) 1 resuming_world))) !! 1%nat
                 = Some doc_out) by (vm_compute; reflexivity).
    apply list_elem_of_In. exact (list_elem_of_lookup_2 _ _ _ Hl). }
  assert (H1 : ~ In doc_out (ledger resuming_world)).
  { intros [Heq | []]. apply (f_equal blockNumber) in Heq. discriminate Heq. }
  destruct (stored_documents_provenance (H:=test_web3) 1 resuming_world doc_out H0)
    as [Hold | Hrec]; [contradiction|].
  split; [exact H0|]. split; [exact H1 | exact Hrec].
Defined.

(* --------------------------------------------------------------------- *)
(** ** The trace of a cycle *)
(* --------------------------------------------------------------------- *)

Section Emits.
Context `{Web3Lib}.
Variable P : event -> Prop.
Hypothesis P_sleep : P (EvSleep 5).
Hypothesis P_tx : forall h, P (EvGetTransaction h).
Hypothesis P_block : forall bn, P (EvGetBlock bn).
Hypothesis P_bulk : forall ks ok, P (EvBulkWrite ks ok).

Lemma emits_refl (s : State) : emits P s s.
Proof. exists []. split; [now rewrite app_nil_r | constructor]. Qed.

Lemma emits_trans (s1 s2 s3 : State) :
  emits P s1 s2 -> emits P s2 s3 -> emits P s1 s3.
Proof.
  intros (t1 & H1 & F1) (t2 & H2 & F2). exists (t1 ++ t2)%list.
  split; [now rewrite H2, H1, app_assoc | now apply Forall_app].
Qed.

Lemma emits_one (ev : event) (s s' : State) :
  P ev -> trace (world s') = (trace (world s) ++ [ev])%list -> emits P s s'.
Proof. intros Hev Htr. exists [ev]. split; [exact Htr | now constructor]. Qed.

Lemma emits_rpc {A} (ev : event) (answer : World -> Res A * World) :
  P ev -> (forall w, trace (snd (answer w)) = trace w) ->
  preserves (emits P) (rpc ev answer).
Proof.
  intros Hev Hans s. apply (emits_one ev); [exact Hev|]. unfold rpc.
  change (rpc_faults (record_event ev (world s))) with (rpc_faults (world s)).
  destruct (rpc_faults (world s)) as [|[|] fs].
  - pose proof (Hans (record_event ev (world s))) as Ha.
    destruct (answer (record_event ev (world s))) as [r w1]. exact Ha.
  - reflexivity.
  - pose proof (Hans (set_rpc_faults fs (record_event ev (world s)))) as Ha.
    destruct (answer (set_rpc_faults fs (record_event ev (world s)))) as [r w1].
    exact Ha.
Qed.

Lemma emits_sleep : preserves (emits P) (sleep 5).
Proof. intros s. now apply (emits_one (EvSleep 5)). Qed.

Lemma emits_get_logs (a b : Z) :
  P (EvGetLogs a b) -> preserves (emits P) (get_logs a b).
Proof. intros Hab. apply emits_rpc; [exact Hab | reflexivity]. Qed.

Lemma emits_get_transaction (h : string) : preserves (emits P) (get_transaction h).
Proof.
  apply emits_rpc; [apply P_tx|]. intros w. now destruct (node_tx w h).
Qed.

Lemma emits_get_block (bn : Z) : preserves (emits P) (get_block bn).
Proof.
  apply emits_rpc; [apply P_block|]. intros w. now destruct (node_block w bn).
Qed.

Lemma emits_with_retries {A} (fn : M A) :
  preserves (emits P) fn -> preserves (emits P) (with_retries fn 3 5).
Proof.
  intros Hfn.
  apply (preserves_with_retries (emits P) emits_refl emits_trans);
    [exact Hfn | apply emits_sleep].
Qed.

Lemma emits_cached_timestamp (bn : Z) : preserves (emits P) (cached_timestamp bn).
Proof.
  intros s. unfold cached_timestamp.
  destruct (block_ts_cache s !! bn) as [ts|]; [apply emits_refl|].
  apply (preserves_bind (emits P) emits_trans);
    [apply emits_with_retries, emits_get_block|].
  intros o. apply (preserves_bind (emits P) emits_trans);
    [apply (preserves_required (emits P) emits_refl)|].
  intros blk s1. exists []. split; [|constructor].
  cbn [snd world set_block_ts_cache]. now rewrite app_nil_r.
Qed.

Lemma emits_enrich (item : Item) : preserves (emits P) (enrich item).
Proof.
  unfold enrich.
  apply (preserves_bind (emits P) emits_trans);
    [apply emits_with_retries, emits_get_transaction|].
  intros o. apply (preserves_bind (emits P) emits_trans);
    [apply (preserves_required (emits P) emits_refl)|].
  intros tx. apply (preserves_bind (emits P) emits_trans);
    [apply emits_cached_timestamp|].
  intros ts. apply (preserves_bind (emits P) emits_trans);
    [apply (preserves_lift (emits P) emits_refl)|].
  intros doc. apply (preserves_ret (emits P) emits_refl).
Qed.

Lemma emits_enrich_loop (n pos used : nat) (docs : dict Item) (ops : list Op) :
  preserves (emits P) (enrich_loop n pos used docs ops).
Proof.
  revert pos docs ops.
  induction n as [|n IH]; intros pos docs ops s; cbn [enrich_loop];
    destruct (negb (length docs =? used)%nat); try apply emits_refl.
  destruct (docs !! pos) as [[k item]|]; [|apply emits_refl].
  pose proof (emits_enrich item s) as Hs.
  destruct (enrich item s) as [[op|e] s1]; cbn [snd] in Hs;
    (eapply emits_trans; [exact Hs | apply IH]).
Qed.

Lemma emits_collect_ops (a b : Z) :
  P (EvGetLogs a b) -> preserves (emits P) (collect_ops a b).
Proof.
  intros Hab s. unfold collect_ops.
  pose proof (emits_with_retries (get_logs a b) (emits_get_logs a b Hab) s) as H1.
  destruct (with_retries (get_logs a b) 3 5 s) as [[o|e] s1];
    cbn [snd] in *; [|exact H1].
  eapply emits_trans; [exact H1|].
  apply (preserves_bind (emits P) emits_trans);
    [apply (preserves_required (emits P) emits_refl)|].
  intros logs. apply (preserves_bind (emits P) emits_trans);
    [apply (preserves_lift (emits P) emits_refl)|].
  intros [|kv docs]; [apply (preserves_ret (emits P) emits_refl)|].
  apply (preserves_bind (emits P) emits_trans); [apply emits_enrich_loop|].
  intros ops. apply (preserves_ret (emits P) emits_refl).
Qed.

Lemma emits_write_ops (batch_end : Z) (ops : list Op) :
  preserves (emits P) (write_ops batch_end ops).
Proof.
  intros s. unfold write_ops. destruct ops as [|op ops]; [apply emits_refl|].
  unfold try_except, bind, bulk_write, advance, ret.
  destruct (write_faults (world s)) as [|[|m] fs]; cbn [snd];
    (eapply emits_one; [apply P_bulk | reflexivity]).
Qed.

Lemma emits_process_batch (a b : Z) :
  P (EvGetLogs a b) -> preserves (emits P) (process_batch a b).
Proof.
  intros Hab. unfold process_batch.
  apply (preserves_bind (emits P) emits_trans); [now apply emits_collect_ops|].
  intros [ops|]; [apply emits_write_ops | apply (preserves_ret (emits P) emits_refl)].
Qed.

Lemma emits_run_batches (bs : list (Z * Z)) :
  (forall a b, In (a, b) bs -> P (EvGetLogs a b)) ->
  preserves (emits P) (run_batches bs).
Proof.
  unfold run_batches. induction bs as [|[a b] bs IH]; intros Hbs; cbn [for_each].
  - apply (preserves_ret (emits P) emits_refl).
  - apply (preserves_bind (emits P) emits_trans).
    + apply emits_process_batch, Hbs. now left.
    + intros _. apply IH. intros a' b' Hin. apply Hbs. now right.
Qed.
End Emits.

Lemma block_number_read (s : State) :
  trace (world (snd (block_number s))) = (trace (world s) ++ [EvBlockNumber])%list
  /\ start_block (snd (block_number s)) = start_block s
  /\ forall h, fst (block_number s) = Ok h -> h = hd 0 (node_heads (world s)).
Proof.
  unfold block_number, rpc.
  change (rpc_faults (record_event EvBlockNumber (world s)))
    with (rpc_faults (world s)).
  destruct (rpc_faults (world s)) as [|[|] fs];
    cbn [node_heads record_event set_rpc_faults];
    destruct (node_heads (world s)) as [|h1 [|h2 hs]];
    cbn [fst snd world set_world trace record_event set_rpc_faults
         set_node_heads start_block hd];
    (split; [reflexivity|]); (split; [reflexivity|]);
    intros h Hh; congruence.
Qed.

Lemma batch_in_range (c e a b : Z) :
  In (a, b) (batches c e) ->
  c <= a /\ a <= b /\ b <= e /\ b - a < BATCH_SIZE.
Proof.
  intros Hin. apply in_batches in Hin as (i & Hi & -> & ->).
  assert (Hq : Z.of_nat i + 1 <= (e + 1 - c + BATCH_SIZE - 1) / BATCH_SIZE).
  { revert Hi. generalize ((e + 1 - c + BATCH_SIZE - 1) / BATCH_SIZE).
    intros q Hi. lia. }
  pose proof (Z.mul_div_le (e + 1 - c + BATCH_SIZE - 1) BATCH_SIZE eq_refl) as Hm.
  unfold BATCH_SIZE in *. nia.
Qed.

Section CycleTrace.
Context `{Web3Lib}.

(** X13: an iteration of the endless loop never raises, whatever fails
    inside it.  It reads the head once, at its start, and ends with one
    sleep, of [POLL_INTERVAL], [CYCLE_DELAY] or [RETRY_DELAY] seconds.
    In between, every log fetch is for a range of at most [BATCH_SIZE]
    blocks between the cursor and the head that was read minus
    [CONFIRMATIONS]; the only sleeps are the 5 seconds between the
    attempts of a node call. *)
Theorem cycle_trace (s : State) :
  fst (run_cycle s) = Ok tt
  /\ exists mid d,
       trace (world (snd (run_cycle s)))
       = (trace (world s) ++ EvBlockNumber :: mid ++ [EvSleep d])%list
       /\ (d = POLL_INTERVAL \/ d = CYCLE_DELAY \/ d = RETRY_DELAY)
       /\ Forall (in_cycle (start_block s)
                    (Z.max 0 (hd 0 (node_heads (world s)) - CONFIRMATIONS)))
                 mid.
Proof.
  unfold run_cycle, try_except, bind.
  destruct (block_number_read s) as (Htr & Hsb & Hhead).
  destruct (block_number s) as [[head|e] s1]; cbn [fst snd] in *.
  2:{ split; [reflexivity|]. exists [], RETRY_DELAY.
      cbn [sleep snd world set_world trace record_event app].
      rewrite Htr, <- app_assoc. split; [reflexivity|]. split; [auto | constructor]. }
  rewrite (Hhead head eq_refl) in *. clear Hhead.
  set (e := Z.max 0 (hd 0 (node_heads (world s)) - CONFIRMATIONS)).
  destruct (start_block s1 >? e) eqn:Hgt.
  { split; [reflexivity|]. exists [], POLL_INTERVAL.
    cbn [sleep snd world set_world trace record_event app].
    rewrite Htr, <- app_assoc. split; [reflexivity|]. split; [auto | constructor]. }
  pose proof (emits_run_batches (in_cycle (start_block s) e)
                eq_refl (fun _ => I) (fun _ => I) (fun _ _ => I)
                (batches (start_block s1) e)) as Hem.
  destruct (Hem ltac:(intros a b Hin; rewrite Hsb in Hin;
                      now apply batch_in_range) s1) as (mid & Hmid & Hall).
  destruct (run_batches (batches (start_block s1) e) s1) as [[[]|err] s2];
    cbn [fst snd] in *; (split; [reflexivity|]).
  - exists mid, CYCLE_DELAY.
    cbn [sleep snd world set_world trace record_event].
    rewrite Hmid, Htr, <- !app_assoc. split; [reflexivity|]. split; [auto | exact Hall].
  - exists mid, RETRY_DELAY.
    cbn [sleep snd world set_world trace record_event].
    rewrite Hmid, Htr, <- !app_assoc. split; [reflexivity|]. split; [auto | exact Hall].
Qed.
End CycleTrace.

(* --------------------------------------------------------------------- *)
(** ** The cursor over the cycles *)
(* --------------------------------------------------------------------- *)

Lemma held_refl (s : State) : held s s.
Proof. split; reflexivity. Qed.

Lemma held_trans (s1 s2 s3 : State) : held s1 s2 -> held s2 s3 -> held s1 s3.
Proof. intros [Ha Hb] [Hc Hd]. split; [now rewrite Hc | now rewrite Hd]. Qed.

Section CursorForward.
Context `{Web3Lib}.

Lemma run_cycle_cursor (s : State) :
  let s' := snd (run_cycle s) in
  held s s'
  \/ (start_block s < start_block s'
      /\ start_block s'
         <= Z.max 0 (hd 0 (node_heads (world s)) - CONFIRMATIONS) + 1
      /\ (writes_ok (world s) < writes_ok (world s'))%nat).
Proof.
  cbv zeta. unfold run_cycle, try_except, bind.
  destruct (block_number_read s) as (_ & _ & Hhead).
  pose proof (frame_held _ _ (frame_block_number s)) as H1.
  assert (Hend : forall d s2 s0, held s0 s2 ->
            held s0 (set_world (record_event (EvSleep d) (world s2)) s2)).
  { intros d s2 s0 H2. eapply held_trans; [exact H2|].
    apply (frame_held _ _ (frame_sleep d s2)). }
  unfold sleep.
  destruct (block_number s) as [[head|e] s1]; cbn [fst snd] in *.
  2:{ left. now apply Hend. }
  rewrite (Hhead head eq_refl) in *. clear Hhead.
  set (e := Z.max 0 (hd 0 (node_heads (world s)) - CONFIRMATIONS)).
  destruct (start_block s1 >? e) eqn:Hgt.
  { left. now apply Hend. }
  pose proof (run_batches_cursor (batches (start_block s1) e) s1) as Hb.
  cbv zeta in Hb.
  assert (Hcase : held s1 (snd (run_batches (batches (start_block s1) e) s1))
                  \/ (start_block s1
                        < start_block (snd (run_batches (batches (start_block s1) e) s1))
                      /\ start_block (snd (run_batches (batches (start_block s1) e) s1))
                         <= e + 1
                      /\ (writes_ok (world s1)
                          < writes_ok (world (snd (run_batches
                                                    (batches (start_block s1) e) s1))))%nat)).
  { destruct Hb as [Hheld | ([a b] & Hin & Hsb2 & Hw2)]; [now left|].
    right. apply batch_in_range in Hin. cbn [snd] in Hsb2. lia. }
  clear Hb.
  destruct (run_batches (batches (start_block s1) e) s1) as [[[]|err] s2];
    cbn [fst snd] in *.
  - destruct Hcase as [Hheld | Hmoved].
    + left. apply Hend. eapply held_trans; eassumption.
    + right. destruct (Hend CYCLE_DELAY s2 s2 (held_refl s2)) as [Hsb3 Hw3].
      destruct H1 as [Hsb1 Hw1]. rewrite Hsb3, Hw3. lia.
  - destruct Hcase as [Hheld | Hmoved].
    + left. apply Hend. eapply held_trans; eassumption.
    + right. destruct (Hend RETRY_DELAY s2 s2 (held_refl s2)) as [Hsb3 Hw3].
      destruct H1 as [Hsb1 Hw1]. rewrite Hsb3, Hw3. lia.
Qed.

Lemma run_cycles_cursor (n : nat) (s : State) :
  start_block s <= start_block (run_cycles n s)
  /\ (writes_ok (world s) <= writes_ok (world (run_cycles n s)))%nat
  /\ (writes_ok (world (run_cycles n s)) = writes_ok (world s) ->
      start_block (run_cycles n s) = start_block s).
Proof.
  revert s. induction n as [|n IH]; intros s; cbn [run_cycles].
  { repeat split; lia. }
  destruct (IH (snd (run_cycle s))) as (Hsb & Hw & Hsame).
  destruct (run_cycle_cursor s) as [[Hsb1 Hw1] | (Hsb1 & _ & Hw1)].
  - rewrite Hsb1, Hw1 in *. auto.
  - split; [lia|]. split; [lia|]. intros Heq. lia.
Qed.

(** X14: the cursor only moves forward, and only by a successful write.
    A cycle leaves it where it was, with no successful write, or moves
    it past a batch that was written, never beyond the block after the
    effective end of the cycle (the head that was read minus
    [CONFIRMATIONS]); over any number of cycles it never goes back, and
    it has not moved when no write has succeeded. *)
Theorem cursor_moves_forward (s : State) (n : nat) :
  (held s (snd (run_cycle s))
   \/ (start_block s < start_block (snd (run_cycle s))
       /\ start_block (snd (run_cycle s))
          <= Z.max 0 (hd 0 (node_heads (world s)) - CONFIRMATIONS) + 1
       /\ (writes_ok (world s) < writes_ok (world (snd (run_cycle s))))%nat))
  /\ start_block s <= start_block (run_cycles n s)
  /\ (writes_ok (world (run_cycles n s)) = writes_ok (world s) ->
      start_block (run_cycles n s) = start_block s).
Proof.
  split; [apply run_cycle_cursor|].
  destruct (run_cycles_cursor n s) as (Hsb & _ & Hsame). now split.
Qed.
End CursorForward.

(* --------------------------------------------------------------------- *)
(** ** A log fetch that fails for good *)
(* --------------------------------------------------------------------- *)

Section FetchFailure.
Context `{Web3Lib}.

(** X15: when the log fetch of a batch fails at its third attempt, the
    batch ends there without raising: three calls and two sleeps of five
    seconds are all it leaves in the trace, nothing is looked up or
    written, the cursor stays, and the loop over the batches goes on
    with the next batch. *)
Theorem log_fetch_failure_skips_batch (a b : Z) (s s1 : State) (e : exn)
    (bs : list (Z * Z)) :
  with_retries (get_logs a b) 3 5 s = (Raise e, s1) ->
  process_batch a b s = (Ok tt, s1)
  /\ run_batches ((a, b) :: bs) s = run_batches bs s1
  /\ trace (world s1)
     = (trace (world s)
        ++ [EvGetLogs a b; EvSleep 5; EvGetLogs a b; EvSleep 5; EvGetLogs a b])%list
  /\ start_block s1 = start_block s
  /\ ledger (world s1) = ledger (world s).
Proof.
  intros Hw.
  assert (Hp : process_batch a b s = (Ok tt, s1)).
  { unfold process_batch, bind, collect_ops. now rewrite Hw. }
  split; [exact Hp|]. split.
  { unfold run_batches. cbn [for_each fst snd]. unfold bind. now rewrite Hp. }
  pose proof (frame_with_retries (get_logs a b) 3 5 (frame_get_logs a b) s) as Hfr.
  destruct (retried_call_rpc (EvGetLogs a b)
              (fun w => (Ok (node_logs w a b), w)) s ltac:(reflexivity))
    as (k & _ & Htr & _ & Hk).
  fold (get_logs a b) in Htr, Hk. rewrite Hw in *. cbn [fst snd] in *.
  rewrite (Hk eq_refl) in Htr.
  split; [exact Htr|].
  split; [apply (frame_start_block _ _ Hfr) | apply (frame_ledger _ _ Hfr)].
Qed.
End FetchFailure.

Lemma log_fetch_failure_skips_batch_witness :
  fst (with_retries (get_logs 100 104) 3 5 unreachable_logs_state) = Raise RpcError
  /\ process_batch (H:=test_web3) 100 104 unreachable_logs_state
     = (Ok tt, snd (with_retries (get_logs 100 104) 3 5 unreachable_logs_state))
  /\ trace (world (snd (with_retries (get_logs 100 104) 3 5 unreachable_logs_state)))
     = (trace (world unreachable_logs_state)
        ++ [EvGetLogs 100 104; EvSleep 5; EvGetLogs 100 104; EvSleep 5;
            EvGetLogs 100 104])%list.
Proof.
  assert (H0 : fst (with_retries (get_logs 100 104) 3 5 unreachable_logs_state)
               = Raise RpcError) by (vm_compute; reflexivity).
  destruct (log_fetch_failure_skips_batch (H:=test_web3) 100 104
              unreachable_logs_state _ RpcError [] (pair_of_fst _ _ H0))
    as (Hp & _ & Htr & _).
  split; [exact H0|]. split; [exact Hp | exact Htr].
Defined.

(* --------------------------------------------------------------------- *)
(** ** The start of the listener and its supervisor *)
(* --------------------------------------------------------------------- *)

Section Startup.
Context `{Web3Lib}.

Ltac startup_cases :=
  unfold store_reachable, startup, is_connected, block_number;
  unfold bind, try_except, rpc, ret, raise, advance.

(** The listener does not start without a store: [MONGO_URI] must be a
    non-empty text and the ping must be answered. *)
Lemma startup_needs_store (s : State) :
  fst (startup s) = Ok tt -> store_reachable (world s).
Proof.
  startup_cases.
  destruct s as [sb cache w]. cbn [world start_block].
  destruct w as [heads logs txs blocks faults wfaults led uri ping tr].
  cbn [rpc_faults node_heads ledger mongo_uri mongo_ping record_event
       set_rpc_faults set_node_heads set_world world start_block trace].
  destruct faults as [|[|] [|[|] [|[|] faults]]];
    destruct heads as [|h1 [|h2 [|h3 heads]]];
    cbn -[find_one_sort_desc]; try discriminate;
    (destruct uri as [[|c u]|]; cbn -[find_one_sort_desc]; try discriminate);
    (destruct ping; cbn -[find_one_sort_desc]; try discriminate);
    intros _; eexists; (split; [reflexivity|]); (split; [discriminate | reflexivity]).
Qed.

(** With a node that answers, a store that is configured and reachable
    is all the start needs; without it the start raises after the
    connection check and the head read of the greeting, the ledger
    untouched. *)
Lemma startup_fault_free (s : State) :
  fault_free s ->
  (store_reachable (world s) -> fst (startup s) = Ok tt)
  /\ (~ store_reachable (world s) ->
      exists msg,
        fst (startup s) = Raise (StartupError msg)
        /\ trace (world (snd (startup s)))
           = (trace (world s) ++ [EvIsConnected; EvBlockNumber])%list
        /\ rpc_faults (world (snd (startup s))) = []
        /\ mongo_uri (world (snd (startup s))) = mongo_uri (world s)
        /\ mongo_ping (world (snd (startup s))) = mongo_ping (world s)
        /\ ledger (world (snd (startup s))) = ledger (world s)).
Proof.
  unfold fault_free. startup_cases.
  destruct s as [sb cache w]. cbn [world start_block].
  destruct w as [heads logs txs blocks faults wfaults led uri ping tr].
  cbn [rpc_faults node_heads ledger mongo_uri mongo_ping record_event
       set_rpc_faults set_node_heads set_world world start_block trace].
  intros ->.
  destruct heads as [|h1 [|h2 [|h3 heads]]];
    cbn -[find_one_sort_desc];
    (destruct uri as [[|c u]|]; cbn -[find_one_sort_desc];
     [ | destruct ping; cbn -[find_one_sort_desc] | ]);
    (split;
     [ intros (uri & Huri & Hne & Hping); try discriminate;
       try (injection Huri as <-; contradiction);
       destruct (find_one_sort_desc led); reflexivity
     | intros Hno;
       try (exfalso; apply Hno; eexists; (split; [reflexivity|]);
            (split; [discriminate | reflexivity]));
       eexists; rewrite <- app_assoc; repeat split ]).
Qed.

(** X16: the listener starts only with a store that is configured and
    reachable ([MONGO_URI] a non-empty text, the ping answered), whatever
    the node does; and with a node that answers, that is all it needs. *)
Theorem startup_succeeds_iff (s : State) :
  (fst (startup s) = Ok tt -> store_reachable (world s))
  /\ (fault_free s ->
      (fst (startup s) = Ok tt <-> store_reachable (world s))).
Proof.
  split; [apply startup_needs_store|].
  intros Hf. split; [apply startup_needs_store|].
  now apply startup_fault_free.
Qed.
End Startup.

Lemma startup_succeeds_iff_witness :
  fault_free resumed_state
  /\ store_reachable (world resumed_state)
  /\ fst (startup resumed_state) = Ok tt.
Proof.
  assert (H0 : fault_free resumed_state) by reflexivity.
  assert (H1 : store_reachable (world resumed_state)).
  { exists "mongodb://localhost". split; [reflexivity|].
    split; [discriminate | reflexivity]. }
  destruct (startup_succeeds_iff resumed_state) as [_ Hiff].
  split; [exact H0|]. split; [exact H1|]. now apply (Hiff H0).
Defined.

Section Supervisor.
Context `{Web3Lib}.

(** X17: while the store is not configured or does not answer, and the
    node does, the supervisor starts the listener again and again, ten
    seconds apart: each start checks the connection, reads the head and
    raises; no log is ever fetched and the ledger is never touched. *)
Theorem unreachable_store_never_ingests (restarts cycles : nat) (w : World) :
  rpc_faults w = [] ->
  ~ store_reachable w ->
  trace (main restarts cycles w)
  = (trace w ++ concat (replicate restarts failed_start))%list
  /\ ledger (main restarts cycles w) = ledger w.
Proof.
  revert w. induction restarts as [|r IH]; intros w Hf Hno; cbn [main].
  { cbn [replicate concat]. now rewrite app_nil_r. }
  unfold process_and_store_transactions.
  set (s0 := {| start_block := 0; block_ts_cache := ∅; world := w |}).
  destruct (startup_fault_free s0 Hf) as [_ Hfail].
  destruct (Hfail Hno) as (msg & Hraise & Htr & Hf1 & Huri & Hping & Hl).
  destruct (startup s0) as [r0 s1]. cbn [fst snd] in *. subst r0.
  change (world s0) with w in Htr, Huri, Hping, Hl.
  destruct (IH (world (snd (sleep RETRY_DELAY s1)))) as [IHtr IHl].
  - exact Hf1.
  - intros (uri & Hu & Hne & Hp). apply Hno. exists uri.
    cbn [sleep snd world set_world record_event mongo_uri mongo_ping] in Hu, Hp.
    rewrite <- Huri, <- Hping. auto.
  - rewrite IHtr, IHl. split; [|exact Hl].
    cbn [sleep snd world set_world record_event trace replicate concat].
    rewrite Htr. unfold failed_start. now rewrite <- !app_assoc.
Qed.
End Supervisor.

Lemma unreachable_store_never_ingests_witness :
  rpc_faults (with_mongo_uri None resuming_world) = []
  /\ ~ store_reachable (with_mongo_uri None resuming_world)
  /\ trace (main (H:=test_web3) 2 5 (with_mongo_uri None resuming_world))
     = [EvIsConnected; EvBlockNumber; EvSleep 10;
        EvIsConnected; EvBlockNumber; EvSleep 10]
  /\ ledger (main (H:=test_web3) 2 5 (with_mongo_uri None resuming_world))
     = [stored_at 99].
Proof.
  assert (H0 : rpc_faults (with_mongo_uri None resuming_world) = []) by reflexivity.
  assert (H1 : ~ store_reachable (with_mongo_uri None resuming_world)).
  { intros (uri & Huri & _). discriminate Huri. }
  destruct (unreachable_store_never_ingests (H:=test_web3) 2 5 _ H0 H1)
    as [Htr Hl].
  split; [exact H0|]. split; [exact H1|]. split; [exact Htr | exact Hl].
Defined.

(* --------------------------------------------------------------------- *)
(** ** The sides of the documents of a batch *)
(* --------------------------------------------------------------------- *)

Section Sides.
Context `{Web3Lib}.

Lemma enrich_build (item : Item) (s s' : State) (op : Op) :
  enrich item s = (Ok op, s') ->
  exists tx ts,
    build_doc item (HexBytes_hex (log_transactionHash (item_data item))) tx ts
    = Ok (op_set op).
Proof.
  unfold enrich, bind.
  destruct (with_retries _ _ _ s) as [[o|e] s1]; [|discriminate].
  destruct (required o s1) as [[tx|e] s2]; [|discriminate].
  destruct (cached_timestamp _ s2) as [[ts|e] s3]; [|discriminate].
  unfold lift, ret.
  destruct (build_doc _ _ _ _) as [doc|e] eqn:Hdoc; [|discriminate].
  intros [= <- _]. exists tx, ts. exact Hdoc.
Qed.

(** The enrichment decodes the addresses the way the classification
    did, so the document has the sides the classification checked. *)
Lemma build_doc_sided (item : Item) (h : string) (tx : Tx) (ts : Z) (doc : Doc) :
  accepted item -> build_doc item h tx ts = Ok doc -> treasury_sided doc.
Proof.
  intros (t0 & Ht0 & Hcase). unfold build_doc, transfer_fields.
  destruct (item_type item).
  - destruct Hcase as (Htopic & frm & to & Hfrm & Hto & Hone).
    rewrite Hfrm, Hto. cbn [res_bind].
    destruct (int_base16 _) as [amt|e]; [|discriminate]. cbn [res_bind].
    destruct (to_checksum_address _) as [token|e]; [|discriminate].
    cbn [res_bind]. rewrite Ht0. cbn [res_bind]. intros [= <-].
    left. cbn. auto.
  - destruct Hcase as (Htopic & emitter & Hem & Hin).
    rewrite Hem. cbn [res_bind].
    destruct (int_base16 _) as [amt|e]; [|discriminate]. cbn [res_bind].
    destruct (topic_address _ 1) as [frm|e]; [|discriminate].
    cbn [res_bind]. rewrite Ht0. cbn [res_bind]. intros [= <-].
    right. cbn. auto.
Qed.

(** X18: every document that a batch hands to the bulk write has the
    treasury on the side the classification found it: a token transfer
    has a treasury address as sender or as receiver, never as both, and
    is marked outgoing exactly when the sender is one; a native transfer
    has a treasury address as receiver, is never marked outgoing, and
    has the zero address as its token. *)
Theorem written_documents_sided (a b : Z) (s s' : State) (ops : list Op) (op : Op) :
  collect_ops a b s = (Ok (Some ops), s') ->
  In op ops ->
  treasury_sided (op_set op).
Proof.
  intros Hcol Hop.
  destruct (collect_ops_complete a b s s' ops Hcol) as (docs & Hclass & _ & Hall).
  destruct (Forall2_in_r _ _ _ op Hall Hop) as (item & Hitem & (s0 & s0' & Hfr0 & He)).
  apply in_map_iff in Hitem as ([k item'] & Hsnd & Hin). cbn [snd] in Hsnd. subst item'.
  destruct (classify_logs_invariant _ [] [] docs Hclass (List.NoDup_nil _)
              ltac:(intros ? ? [])) as (_ & _ & Hinv).
  destruct (Hinv k item Hin) as (_ & _ & Hacc).
  destruct (enrich_build _ _ _ _ He) as (tx & ts & Hdoc).
  exact (build_doc_sided _ _ _ _ _ Hacc Hdoc).
Qed.
End Sides.

Lemma written_documents_sided_witness :
  option_map (map op_set)
    match fst (collect_ops (H:=test_web3) 100 104 two_sided_state) with
    | Ok o => o
    | Raise _ => None
    end
  = Some [doc_out; doc_native]
  /\ treasury_sided (H:=test_web3) doc_out
  /\ treasury_sided (H:=test_web3) doc_native.
Proof.
  assert (Hr : option_map (map op_set)
                 match fst (collect_ops (H:=test_web3) 100 104 two_sided_state) with
                 | Ok o => o
                 | Raise _ => None
                 end
               = Some [doc_out; doc_native])
    by (vm_compute; reflexivity).
  split; [exact Hr|].
  destruct (collect_ops (H:=test_web3) 100 104 two_sided_state) as [r s'] eqn:Hc.
  cbn [fst] in Hr.
  destruct r as [[ops|]|e]; try discriminate.
  cbn [option_map] in Hr. injection Hr as Hops.
  destruct ops as [|o1 [|o2 ops]]; try discriminate.
  injection Hops as H1 H2 _.
  pose proof (written_documents_sided (H:=test_web3) 100 104 two_sided_state s' _ o1 Hc
                ltac:(now left)) as S1.
  pose proof (written_documents_sided (H:=test_web3) 100 104 two_sided_state s' _ o2 Hc
                ltac:(right; now left)) as S2.
  rewrite H1 in S1. rewrite H2 in S2. split; [exact S1 | exact S2].
Defined.

(* ===================================================================== *)
(** * The record of a log *)
(* ===================================================================== *)

(* --------------------------------------------------------------------- *)
(** ** The method of a record *)
(* --------------------------------------------------------------------- *)


Section Method.
Context `{Web3Lib}.


End Method.

(* --------------------------------------------------------------------- *)
(** ** A batch that holds one log *)
(* --------------------------------------------------------------------- *)

Section SingleLog.
Context `{Web3Lib}.



End SingleLog.

(* --------------------------------------------------------------------- *)
(** ** Which logs get a record *)
(* --------------------------------------------------------------------- *)

Section RecordProduced.
Context `{Web3Lib}.




End RecordProduced.





(* --------------------------------------------------------------------- *)
(** ** A range that was left behind, in the next cycles *)
(* --------------------------------------------------------------------- *)



Section Refetch.
Context `{Web3Lib}.



End Refetch.

Section RefetchCycle.
Context `{Web3Lib}.



End RefetchCycle.


